(** * Snake vs. Pacman: the simulation step of [Game.tsx]

    A shallow embedding of the game logic of the newest [Game] component
    (grid arithmetic, item placement, input handling and the [update]
    step with its power-ups and the Pacman AI), followed by the
    properties of the specification that concern it, by further
    properties of the code, and by the [update] of
    [src/components/Game.tsx] with properties of its own.

    Conventions of the embedding
    - grid coordinates, timers and scores are JavaScript numbers that only
      ever hold integers: they are modelled in [Z];
    - [moveTimer], [moveInterval], [baseMoveInterval] and the frame delta
      [dt] may hold fractions ([base / 2], [base * 1.5]): they are in [Q];
      the sum [moveTimer + dt] is rounded to the nearest double, as the
      addition of the code is ([toDouble]); the intervals only ever hold
      whole and half milliseconds, on which the arithmetic of the code
      is exact;
    - [useRef] cells and React state are fields of one record [Game];
      functional [setScores] updaters are applied in call order;
    - [Math.random] is an oracle: every call site receives its own
      sequence of already floored draws (record [Rand]);
    - the unbounded [while] loop of [placeItem] runs on fuel; running out
      of fuel is the outcome [Spinning];
    - canvas drawing, particles, screen shake, flash and blinking are
      never read back by [update] and are left out, and so is the test
      for a new record, which reads the [scores] of an earlier render;
      the list of high scores is kept apart, by [saveScore]; the calls of
      [playSound] are kept as a log. *)

From Stdlib Require Import ZArith List Bool Lia String Ascii QArith Qminmax.
From Stdlib Require Import Permutation Lqa.
Import ListNotations.
Open Scope Z_scope.

(* The interval arithmetic is never unfolded by [cbn] and [simpl]. *)
#[local] Arguments Qmax : simpl never.
#[local] Arguments Qmin : simpl never.
#[local] Arguments Qplus : simpl never.
#[local] Arguments Qminus : simpl never.
#[local] Arguments Qmult : simpl never.
#[local] Arguments Qdiv : simpl never.
#[local] Arguments Qle_bool : simpl never.
#[local] Arguments inject_Z : simpl never.

(** ** Outcomes of effectful code *)

Inductive Outcome (A : Type) : Type :=
| Done (a : A)      (* the call returned [a] *)
| Spinning          (* a placement loop was still running when fuel ran out *)
| TypeError.        (* a property of [undefined] was read *)

Arguments Done {A} a.
Arguments Spinning {A}.
Arguments TypeError {A}.

Definition bind {A B : Type} (o : Outcome A) (k : A -> Outcome B) : Outcome B :=
  match o with
  | Done a => k a
  | Spinning => Spinning
  | TypeError => TypeError
  end.

Notation "x <- o ;; k" := (bind o (fun x => k))
  (at level 61, o at next level, right associativity).

(** ** Types of [../types]

    The module itself is not among the sources; the revision of it that
    is kept at the end of [src/assets.ts] declares [Point], [GameMode]
    and [HighScore], and none of the power-up types. *)

(** [Point]: [{ x: number; y: number }], here a pair of integers. *)
Record Point : Type := mkPoint { x : Z; y : Z }.

(** Modelled from the spec: [PowerupType] of the missing [types] module,
    kind in {Freeze, Speed, Slow, Ghost, Shrink}. *)
Inductive PowerupType : Type := FREEZE | SPEED | SLOW | GHOST | SHRINK.

(** Modelled from the spec: [Powerup] of the missing [types] module, a
    position together with a kind ([{ ...p, type }] in [placePowerup]). *)
Record Powerup : Type := mkPowerup { at_ : Point; type : PowerupType }.

(** [GameMode]: [PVC] is the single-player mode against Pacman, [PVP]
    the two-player mode. *)
Inductive GameMode : Type := PVC | PVP.

Inductive GameState : Type := intro | menu | playing | gameover | leaderboard.

Inductive Sound : Type :=
  snd_move | snd_eat | snd_die | snd_powerup | snd_pacman | snd_warp | snd_select.

(** ** Constants *)

Definition CELL_SIZE : Z := 20.
Definition CANVAS_WIDTH : Z := 600.
Definition CANVAS_HEIGHT : Z := 400.
Definition COLS : Z := CANVAS_WIDTH / CELL_SIZE.
Definition ROWS : Z := CANVAS_HEIGHT / CELL_SIZE.
Definition FREEZE_DURATION : Z := 150.
Definition SPEED_BOOST_DURATION : Z := 200.
Definition GHOST_DURATION : Z := 200.

(** ** Helpers *)

Definition samePoint (a b : Point) : bool := (x a =? x b) && (y a =? y b).

(** [wrap]: one step over an edge comes back on the opposite edge. *)
Definition wrap (val max : Z) : Z :=
  if val <? 0 then max - 1
  else if val >=? max then 0
  else val.

(** [checkCollision]: the loop returns at the first segment equal to [head]. *)
Fixpoint checkCollision (head : Point) (body : list Point) : bool :=
  match body with
  | [] => false
  | part :: rest => if samePoint head part then true else checkCollision head rest
  end.

(** The inner [for] of [placeItem]: [valid] starts [true] and every
    excluded cell equal to [p] turns it [false]; there is no early exit. *)
Definition validAgainst (p : Point) (exclude : list Point) : bool :=
  fold_left (fun valid s => if samePoint s p then false else valid) exclude true.

(** The [while (!valid)] loop of [placeItem], started at draw number [i]. *)
Fixpoint placeItemFrom (draw : nat -> Point) (exclude : list Point)
    (fuel i : nat) : Outcome Point :=
  match fuel with
  | O => Spinning
  | S fuel' =>
      let p := draw i in
      if validAgainst p exclude then Done p
      else placeItemFrom draw exclude fuel' (S i)
  end.

Definition placeItem (draw : nat -> Point) (fuel : nat) (exclude : list Point)
  : Outcome Point :=
  placeItemFrom draw exclude fuel 0.

(** [placePowerup]: a free cell and one of the kinds. *)
Definition placePowerup (draw : nat -> Point) (kind : PowerupType) (fuel : nat)
    (exclude : list Point) : Outcome Powerup :=
  p <- placeItem draw fuel exclude ;;
  Done (mkPowerup p kind).

(** The shortest signed displacement from [a] to [b] on an axis of size
    [limit]: the two lines of the AI that fold [dx] and [dy] over the
    edge, [if (Math.abs(d) > limit / 2) d = d > 0 ? d - limit : d + limit].
    [limit / 2] is a real division, so the test is [2 * |d| > limit]. *)
Definition toroidalDelta (a b limit : Z) : Z :=
  let d := b - a in
  if 2 * Z.abs d >? limit then (if d >? 0 then d - limit else d + limit)
  else d.

(** The integer nearest to [n / d], for [d > 0], the even one of the two
    when [n / d] lies half-way. *)
Definition roundHalfEven (n d : Z) : Z :=
  let q := n / d in
  match 2 * (n mod d) ?= d with
  | Lt => q
  | Gt => q + 1
  | Eq => if Z.even q then q else q + 1
  end.

(** The double nearest to the rational [q], the one of even mantissa
    when [q] lies half-way: what an addition of two doubles whose exact
    sum is [q] stores (IEEE 754 binary64, round to nearest, ties to
    even; 53 bits of mantissa, exponents from -1074).  [binade] is the
    power of two at or below [|q|] and [e] the exponent of the last bit
    kept.  A sum beyond the largest double is left finite where the code
    stores [Infinity]: both are above every interval. *)
Definition toDouble (q : Q) : Q :=
  let n := Z.abs (Qnum q) in
  let d := Zpos (Qden q) in
  if n =? 0 then inject_Z 0
  else
    let e0 := Z.log2 n - Z.log2 d in
    let below := if 0 <=? e0 then n <? d * 2 ^ e0
                 else n * 2 ^ (- e0) <? d in
    let binade := if below then e0 - 1 else e0 in
    let e := Z.max (binade - 52) (-1074) in
    let m := if 0 <=? e then roundHalfEven n (d * 2 ^ e)
             else roundHalfEven (n * 2 ^ (- e)) d in
    let m := Z.sgn (Qnum q) * m in
    Qred (if 0 <=? e then inject_Z (m * 2 ^ e)
          else Qmake m (Z.to_pos (2 ^ (- e)))).

#[local] Arguments toDouble : simpl never.

(** ** The state of the component

    One field per [useState] value and [useRef] cell that the game logic
    reads or writes; [scores] is flattened into its three counters and
    [sounds] logs the calls of [playSound], latest first. *)
Record Game : Type := mkGame {
  gameState : GameState;
  mode : GameMode;
  scores_p1 : Z;
  scores_p2 : Z;
  scores_pacman : Z;
  gameOverReason : string;
  moveTimer : Q;
  moveInterval : Q;
  baseMoveInterval : Q;
  pacmanMoveTick : Z;
  speedBoostTimer : Z;
  ghostTimer : Z;
  snake1 : list Point;
  dir1 : Point;
  nextDir1 : Point;
  snake2 : list Point;
  dir2 : Point;
  nextDir2 : Point;
  food : Point;
  powerup : option Powerup;
  pacman : option Point;
  pacmanFrozen : Z;
  sounds : list Sound
}.

(** Assignment to one cell; the other cells keep their value. *)
Definition set_gameState (v : GameState) (st : Game) : Game :=
  mkGame v (mode st) (scores_p1 st) (scores_p2 st) (scores_pacman st)
    (gameOverReason st) (moveTimer st) (moveInterval st) (baseMoveInterval
    st) (pacmanMoveTick st) (speedBoostTimer st) (ghostTimer st) (snake1 st)
    (dir1 st) (nextDir1 st) (snake2 st) (dir2 st) (nextDir2 st) (food st)
    (powerup st) (pacman st) (pacmanFrozen st) (sounds st).

Definition set_mode (v : GameMode) (st : Game) : Game :=
  mkGame (gameState st) v (scores_p1 st) (scores_p2 st) (scores_pacman st)
    (gameOverReason st) (moveTimer st) (moveInterval st) (baseMoveInterval
    st) (pacmanMoveTick st) (speedBoostTimer st) (ghostTimer st) (snake1 st)
    (dir1 st) (nextDir1 st) (snake2 st) (dir2 st) (nextDir2 st) (food st)
    (powerup st) (pacman st) (pacmanFrozen st) (sounds st).

Definition set_scores_p1 (v : Z) (st : Game) : Game :=
  mkGame (gameState st) (mode st) v (scores_p2 st) (scores_pacman st)
    (gameOverReason st) (moveTimer st) (moveInterval st) (baseMoveInterval
    st) (pacmanMoveTick st) (speedBoostTimer st) (ghostTimer st) (snake1 st)
    (dir1 st) (nextDir1 st) (snake2 st) (dir2 st) (nextDir2 st) (food st)
    (powerup st) (pacman st) (pacmanFrozen st) (sounds st).

Definition set_scores_p2 (v : Z) (st : Game) : Game :=
  mkGame (gameState st) (mode st) (scores_p1 st) v (scores_pacman st)
    (gameOverReason st) (moveTimer st) (moveInterval st) (baseMoveInterval
    st) (pacmanMoveTick st) (speedBoostTimer st) (ghostTimer st) (snake1 st)
    (dir1 st) (nextDir1 st) (snake2 st) (dir2 st) (nextDir2 st) (food st)
    (powerup st) (pacman st) (pacmanFrozen st) (sounds st).

Definition set_scores_pacman (v : Z) (st : Game) : Game :=
  mkGame (gameState st) (mode st) (scores_p1 st) (scores_p2 st) v
    (gameOverReason st) (moveTimer st) (moveInterval st) (baseMoveInterval
    st) (pacmanMoveTick st) (speedBoostTimer st) (ghostTimer st) (snake1 st)
    (dir1 st) (nextDir1 st) (snake2 st) (dir2 st) (nextDir2 st) (food st)
    (powerup st) (pacman st) (pacmanFrozen st) (sounds st).

Definition set_gameOverReason (v : string) (st : Game) : Game :=
  mkGame (gameState st) (mode st) (scores_p1 st) (scores_p2 st)
    (scores_pacman st) v (moveTimer st) (moveInterval st) (baseMoveInterval
    st) (pacmanMoveTick st) (speedBoostTimer st) (ghostTimer st) (snake1 st)
    (dir1 st) (nextDir1 st) (snake2 st) (dir2 st) (nextDir2 st) (food st)
    (powerup st) (pacman st) (pacmanFrozen st) (sounds st).

Definition set_moveTimer (v : Q) (st : Game) : Game :=
  mkGame (gameState st) (mode st) (scores_p1 st) (scores_p2 st)
    (scores_pacman st) (gameOverReason st) v (moveInterval st)
    (baseMoveInterval st) (pacmanMoveTick st) (speedBoostTimer st)
    (ghostTimer st) (snake1 st) (dir1 st) (nextDir1 st) (snake2 st) (dir2
    st) (nextDir2 st) (food st) (powerup st) (pacman st) (pacmanFrozen st)
    (sounds st).

Definition set_moveInterval (v : Q) (st : Game) : Game :=
  mkGame (gameState st) (mode st) (scores_p1 st) (scores_p2 st)
    (scores_pacman st) (gameOverReason st) (moveTimer st) v
    (baseMoveInterval st) (pacmanMoveTick st) (speedBoostTimer st)
    (ghostTimer st) (snake1 st) (dir1 st) (nextDir1 st) (snake2 st) (dir2
    st) (nextDir2 st) (food st) (powerup st) (pacman st) (pacmanFrozen st)
    (sounds st).

Definition set_baseMoveInterval (v : Q) (st : Game) : Game :=
  mkGame (gameState st) (mode st) (scores_p1 st) (scores_p2 st)
    (scores_pacman st) (gameOverReason st) (moveTimer st) (moveInterval st)
    v (pacmanMoveTick st) (speedBoostTimer st) (ghostTimer st) (snake1 st)
    (dir1 st) (nextDir1 st) (snake2 st) (dir2 st) (nextDir2 st) (food st)
    (powerup st) (pacman st) (pacmanFrozen st) (sounds st).

Definition set_pacmanMoveTick (v : Z) (st : Game) : Game :=
  mkGame (gameState st) (mode st) (scores_p1 st) (scores_p2 st)
    (scores_pacman st) (gameOverReason st) (moveTimer st) (moveInterval st)
    (baseMoveInterval st) v (speedBoostTimer st) (ghostTimer st) (snake1 st)
    (dir1 st) (nextDir1 st) (snake2 st) (dir2 st) (nextDir2 st) (food st)
    (powerup st) (pacman st) (pacmanFrozen st) (sounds st).

Definition set_speedBoostTimer (v : Z) (st : Game) : Game :=
  mkGame (gameState st) (mode st) (scores_p1 st) (scores_p2 st)
    (scores_pacman st) (gameOverReason st) (moveTimer st) (moveInterval st)
    (baseMoveInterval st) (pacmanMoveTick st) v (ghostTimer st) (snake1 st)
    (dir1 st) (nextDir1 st) (snake2 st) (dir2 st) (nextDir2 st) (food st)
    (powerup st) (pacman st) (pacmanFrozen st) (sounds st).

Definition set_ghostTimer (v : Z) (st : Game) : Game :=
  mkGame (gameState st) (mode st) (scores_p1 st) (scores_p2 st)
    (scores_pacman st) (gameOverReason st) (moveTimer st) (moveInterval st)
    (baseMoveInterval st) (pacmanMoveTick st) (speedBoostTimer st) v (snake1
    st) (dir1 st) (nextDir1 st) (snake2 st) (dir2 st) (nextDir2 st) (food
    st) (powerup st) (pacman st) (pacmanFrozen st) (sounds st).

Definition set_snake1 (v : list Point) (st : Game) : Game :=
  mkGame (gameState st) (mode st) (scores_p1 st) (scores_p2 st)
    (scores_pacman st) (gameOverReason st) (moveTimer st) (moveInterval st)
    (baseMoveInterval st) (pacmanMoveTick st) (speedBoostTimer st)
    (ghostTimer st) v (dir1 st) (nextDir1 st) (snake2 st) (dir2 st)
    (nextDir2 st) (food st) (powerup st) (pacman st) (pacmanFrozen st)
    (sounds st).

Definition set_dir1 (v : Point) (st : Game) : Game :=
  mkGame (gameState st) (mode st) (scores_p1 st) (scores_p2 st)
    (scores_pacman st) (gameOverReason st) (moveTimer st) (moveInterval st)
    (baseMoveInterval st) (pacmanMoveTick st) (speedBoostTimer st)
    (ghostTimer st) (snake1 st) v (nextDir1 st) (snake2 st) (dir2 st)
    (nextDir2 st) (food st) (powerup st) (pacman st) (pacmanFrozen st)
    (sounds st).

Definition set_nextDir1 (v : Point) (st : Game) : Game :=
  mkGame (gameState st) (mode st) (scores_p1 st) (scores_p2 st)
    (scores_pacman st) (gameOverReason st) (moveTimer st) (moveInterval st)
    (baseMoveInterval st) (pacmanMoveTick st) (speedBoostTimer st)
    (ghostTimer st) (snake1 st) (dir1 st) v (snake2 st) (dir2 st) (nextDir2
    st) (food st) (powerup st) (pacman st) (pacmanFrozen st) (sounds st).

Definition set_snake2 (v : list Point) (st : Game) : Game :=
  mkGame (gameState st) (mode st) (scores_p1 st) (scores_p2 st)
    (scores_pacman st) (gameOverReason st) (moveTimer st) (moveInterval st)
    (baseMoveInterval st) (pacmanMoveTick st) (speedBoostTimer st)
    (ghostTimer st) (snake1 st) (dir1 st) (nextDir1 st) v (dir2 st)
    (nextDir2 st) (food st) (powerup st) (pacman st) (pacmanFrozen st)
    (sounds st).

Definition set_dir2 (v : Point) (st : Game) : Game :=
  mkGame (gameState st) (mode st) (scores_p1 st) (scores_p2 st)
    (scores_pacman st) (gameOverReason st) (moveTimer st) (moveInterval st)
    (baseMoveInterval st) (pacmanMoveTick st) (speedBoostTimer st)
    (ghostTimer st) (snake1 st) (dir1 st) (nextDir1 st) (snake2 st) v
    (nextDir2 st) (food st) (powerup st) (pacman st) (pacmanFrozen st)
    (sounds st).

Definition set_nextDir2 (v : Point) (st : Game) : Game :=
  mkGame (gameState st) (mode st) (scores_p1 st) (scores_p2 st)
    (scores_pacman st) (gameOverReason st) (moveTimer st) (moveInterval st)
    (baseMoveInterval st) (pacmanMoveTick st) (speedBoostTimer st)
    (ghostTimer st) (snake1 st) (dir1 st) (nextDir1 st) (snake2 st) (dir2
    st) v (food st) (powerup st) (pacman st) (pacmanFrozen st) (sounds st).

Definition set_food (v : Point) (st : Game) : Game :=
  mkGame (gameState st) (mode st) (scores_p1 st) (scores_p2 st)
    (scores_pacman st) (gameOverReason st) (moveTimer st) (moveInterval st)
    (baseMoveInterval st) (pacmanMoveTick st) (speedBoostTimer st)
    (ghostTimer st) (snake1 st) (dir1 st) (nextDir1 st) (snake2 st) (dir2
    st) (nextDir2 st) v (powerup st) (pacman st) (pacmanFrozen st) (sounds
    st).

Definition set_powerup (v : option Powerup) (st : Game) : Game :=
  mkGame (gameState st) (mode st) (scores_p1 st) (scores_p2 st)
    (scores_pacman st) (gameOverReason st) (moveTimer st) (moveInterval st)
    (baseMoveInterval st) (pacmanMoveTick st) (speedBoostTimer st)
    (ghostTimer st) (snake1 st) (dir1 st) (nextDir1 st) (snake2 st) (dir2
    st) (nextDir2 st) (food st) v (pacman st) (pacmanFrozen st) (sounds st).

Definition set_pacman (v : option Point) (st : Game) : Game :=
  mkGame (gameState st) (mode st) (scores_p1 st) (scores_p2 st)
    (scores_pacman st) (gameOverReason st) (moveTimer st) (moveInterval st)
    (baseMoveInterval st) (pacmanMoveTick st) (speedBoostTimer st)
    (ghostTimer st) (snake1 st) (dir1 st) (nextDir1 st) (snake2 st) (dir2
    st) (nextDir2 st) (food st) (powerup st) v (pacmanFrozen st) (sounds st).

Definition set_pacmanFrozen (v : Z) (st : Game) : Game :=
  mkGame (gameState st) (mode st) (scores_p1 st) (scores_p2 st)
    (scores_pacman st) (gameOverReason st) (moveTimer st) (moveInterval st)
    (baseMoveInterval st) (pacmanMoveTick st) (speedBoostTimer st)
    (ghostTimer st) (snake1 st) (dir1 st) (nextDir1 st) (snake2 st) (dir2
    st) (nextDir2 st) (food st) (powerup st) (pacman st) v (sounds st).

Definition set_sounds (v : list Sound) (st : Game) : Game :=
  mkGame (gameState st) (mode st) (scores_p1 st) (scores_p2 st)
    (scores_pacman st) (gameOverReason st) (moveTimer st) (moveInterval st)
    (baseMoveInterval st) (pacmanMoveTick st) (speedBoostTimer st)
    (ghostTimer st) (snake1 st) (dir1 st) (nextDir1 st) (snake2 st) (dir2
    st) (nextDir2 st) (food st) (powerup st) (pacman st) (pacmanFrozen st) v.

(** [playSound(type)]: the call is appended to the log. *)
Definition playSound (s : Sound) (st : Game) : Game :=
  set_sounds (s :: sounds st) st.

(** The cell of the active power-up, as pushed on an exclusion list by
    [if (powerup.current) exclude.push(powerup.current)]. *)
Definition powerupCell (st : Game) : list Point :=
  match powerup st with
  | Some pu => [at_ pu]
  | None => []
  end.

(** The length of a body, as the number [snake.length]. *)
Definition len (snake : list Point) : Z := Z.of_nat (List.length snake).

#[local] Arguments len : simpl never.

(** ** The random oracle

    One entry per call site of [Math.random] in the game logic.  A draw of
    a placement loop stands for the pair
    [(Math.floor(Math.random() * COLS), Math.floor(Math.random() * ROWS))]
    of one iteration. *)
Record Rand : Type := mkRand {
  rndPacman : nat -> Point;       (* respawn of the eaten Pacman *)
  rndFood1 : nat -> Point;        (* food eaten by player 1 *)
  rndRoll : bool;                 (* [Math.random() < 0.2] *)
  rndPowerup : nat -> Point;      (* cell of a new power-up *)
  rndKind : PowerupType;          (* [types[Math.floor(Math.random() * types.length)]] *)
  rndFood2 : nat -> Point;        (* food eaten by player 2 *)
  rndSign : bool;                 (* [Math.random() > 0.5] in the AI *)
  rndFoodAI : nat -> Point;       (* food eaten by Pacman *)
  rndStart : nat -> Point         (* start cell of Pacman in [resetGame] *)
}.

(** ** [resetGame] *)

(** The [do ... while (Math.abs(px - startX) < 5)] loop. *)
Fixpoint pacmanStartFrom (draw : nat -> Point) (startX : Z) (fuel i : nat)
  : Outcome Point :=
  match fuel with
  | O => Spinning
  | S fuel' =>
      let p := draw i in
      if Z.abs (x p - startX) <? 5 then pacmanStartFrom draw startX fuel' (S i)
      else Done p
  end.

Definition resetGame (newMode : GameMode) (rnd : Rand) (fuel : nat) (st : Game)
  : Outcome Game :=
  let st := set_mode newMode st in
  let st := set_gameState playing st in
  let st := set_gameOverReason EmptyString st in
  let st := set_scores_pacman 0 (set_scores_p2 0 (set_scores_p1 0 st)) in
  let st := set_moveInterval (inject_Z 120) st in
  let st := set_baseMoveInterval (inject_Z 120) st in
  let st := set_pacmanMoveTick 0 st in
  let st := set_pacmanFrozen 0 st in
  let st := set_speedBoostTimer 0 st in
  let st := set_ghostTimer 0 st in
  (* P1 setup: Math.floor(COLS * 0.75) or Math.floor(COLS / 2) *)
  let startX := match newMode with PVP => (COLS * 3) / 4 | PVC => COLS / 2 end in
  let st := set_snake1 [mkPoint startX (ROWS / 2)] st in
  let st := set_dir1 (mkPoint 0 (-1)) st in
  let st := set_nextDir1 (mkPoint 0 (-1)) st in
  (* P2 setup *)
  st <- match newMode with
        | PVP =>
            let st := set_snake2 [mkPoint (COLS / 4) (ROWS / 2)] st in
            let st := set_dir2 (mkPoint 0 (-1)) st in
            let st := set_nextDir2 (mkPoint 0 (-1)) st in
            Done (set_pacman None st)
        | PVC =>
            let st := set_snake2 [] st in
            p <- pacmanStartFrom (rndStart rnd) startX fuel 0 ;;
            Done (set_pacman (Some p) st)
        end ;;
  (* Place food *)
  let allSegments :=
    (snake1 st ++ match pacman st with Some p => [p] | None => [] end)
    ++ snake2 st in
  f <- placeItem (rndFood1 rnd) fuel allSegments ;;
  Done (set_powerup None (set_food f st)).

(** ** Input *)

(** [String.prototype.toLowerCase] on the ASCII letters of a key name. *)
Definition lowerAscii (c : ascii) : ascii :=
  let n := nat_of_ascii c in
  if ((65 <=? n) && (n <=? 90))%nat then ascii_of_nat (n + 32) else c.

Fixpoint toLowerCase (s : string) : string :=
  match s with
  | EmptyString => EmptyString
  | String c rest => String (lowerAscii c) (toLowerCase rest)
  end.

(** A statement [if (c) cell = v;] without [else]. *)
Definition when (c : bool) (assign : Game -> Game) (st : Game) : Game :=
  if c then assign st else st.

(** [handleInput], on the [key] of the keyboard event. *)
Definition handleInput (key : string) (st : Game) : Game :=
  match gameState st with
  | intro => set_gameState menu st
  | playing =>
      let k := toLowerCase key in
      (* P1 *)
      let st := when (String.eqb k "arrowup" && (y (dir1 st) =? 0))
                  (set_nextDir1 (mkPoint 0 (-1))) st in
      let st := when (String.eqb k "arrowdown" && (y (dir1 st) =? 0))
                  (set_nextDir1 (mkPoint 0 1)) st in
      let st := when (String.eqb k "arrowleft" && (x (dir1 st) =? 0))
                  (set_nextDir1 (mkPoint (-1) 0)) st in
      let st := when (String.eqb k "arrowright" && (x (dir1 st) =? 0))
                  (set_nextDir1 (mkPoint 1 0)) st in
      (* P2 *)
      match mode st with
      | PVP =>
          let st := when (String.eqb k "w" && (y (dir2 st) =? 0))
                      (set_nextDir2 (mkPoint 0 (-1))) st in
          let st := when (String.eqb k "s" && (y (dir2 st) =? 0))
                      (set_nextDir2 (mkPoint 0 1)) st in
          let st := when (String.eqb k "a" && (x (dir2 st) =? 0))
                      (set_nextDir2 (mkPoint (-1) 0)) st in
          let st := when (String.eqb k "d" && (x (dir2 st) =? 0))
                      (set_nextDir2 (mkPoint 1 0)) st in
          st
      | PVC => st
      end
  | _ => st
  end.

(** [handleJoystick], the on-screen pad of player 1. *)
Definition handleJoystick (dx dy : Z) (st : Game) : Game :=
  let st := when (negb (dx =? 0) && (x (dir1 st) =? 0))
              (set_nextDir1 (mkPoint dx 0)) st in
  let st := when (negb (dy =? 0) && (y (dir1 st) =? 0))
              (set_nextDir1 (mkPoint 0 dy)) st in
  st.

(** ** The main game loop: [update] *)

(** The local variables [p1Dead] and [p2Dead] of one move, next to the
    state they are decided on. *)
Record Tick : Type := mkTick { world : Game; p1Dead : bool; p2Dead : bool }.

(** "Handle Powerup Timers", run on every frame. *)
Definition powerupTimers (st : Game) : Game :=
  let st :=
    if speedBoostTimer st >? 0 then
      let st := set_speedBoostTimer (speedBoostTimer st - 1) st in
      if speedBoostTimer st =? 0 then set_moveInterval (baseMoveInterval st) st
      else st
    else st in
  if ghostTimer st >? 0 then set_ghostTimer (ghostTimer st - 1) st else st.

(** [dir1.current = nextDir1.current], and the same for player 2 in PVP. *)
Definition commitDirs (st : Game) : Game :=
  let st := set_dir1 (nextDir1 st) st in
  match mode st with
  | PVP => set_dir2 (nextDir2 st) st
  | PVC => st
  end.

Definition increaseSpeed (st : Game) : Game :=
  let st := set_baseMoveInterval
              (Qmax (inject_Z 60) (baseMoveInterval st - inject_Z 1)) st in
  if speedBoostTimer st =? 0 then set_moveInterval (baseMoveInterval st) st
  else st.

(** The next head [{ x: wrap(snake[0].x + dir.x, COLS), y: wrap(...) }];
    reading [snake[0].x] of an empty body throws. *)
Definition nextHead (snake : list Point) (dir : Point) : Outcome Point :=
  match snake with
  | [] => TypeError
  | h :: _ => Done (mkPoint (wrap (x h + x dir) COLS) (wrap (y h + y dir) ROWS))
  end.

(** The collision checks of player 1, under the ghost guard. *)
Definition collisionsP1 (head1 : Point) (st : Game) : bool :=
  if ghostTimer st =? 0 then
    checkCollision head1 (snake1 st) || checkCollision head1 (snake2 st)
  else false.

(** "Handle Pacman Interaction (Eat or Die)": the state, [p1Dead] and
    [eatenPacman] after it. *)
Definition pacmanInteraction (rnd : Rand) (fuel : nat) (head1 : Point)
    (dead : bool) (st : Game) : Outcome (Game * bool * bool) :=
  match mode st, pacman st with
  | PVC, Some pac =>
      if samePoint head1 pac then
        if pacmanFrozen st >? 0 then
          (* Eat Pacman *)
          let st := set_scores_p1 (scores_p1 st + 5) st in
          let st := playSound snd_eat st in
          (* Respawn Pacman *)
          let exclude := (snake1 st ++ [food st]) ++ powerupCell st in
          p <- placeItem (rndPacman rnd) fuel exclude ;;
          let st := set_pacman (Some p) st in
          Done (set_pacmanFrozen 0 st, dead, true)
        else Done (st, true, false)
      else Done (st, dead, false)
  | _, _ => Done (st, dead, false)
  end.

(** The timed effects of a collected power-up, shared by both players. *)
Definition timedEffect (kind : PowerupType) (st : Game) : Game :=
  match kind with
  | FREEZE => set_pacmanFrozen FREEZE_DURATION st
  | SPEED =>
      let st := set_speedBoostTimer SPEED_BOOST_DURATION st in
      set_moveInterval (Qmax (inject_Z 30) (baseMoveInterval st / inject_Z 2)) st
  | SLOW =>
      let st := set_speedBoostTimer SPEED_BOOST_DURATION st in
      set_moveInterval (Qmin (inject_Z 300) (baseMoveInterval st * (3 # 2))) st
  | GHOST => set_ghostTimer GHOST_DURATION st
  | SHRINK => st
  end.

(** [snake.slice(0, Math.max(3, Math.floor(snake.length / 2)))], done
    only when the body is longer than 3. *)
Definition shrink (snake : list Point) : list Point :=
  if len snake >? 3 then firstn (Z.to_nat (Z.max 3 (len snake / 2))) snake
  else snake.

#[local] Arguments shrink : simpl never.

(** The [switch] on the kind collected by player 1. *)
Definition applyPowerup1 (kind : PowerupType) (st : Game) : Game :=
  match kind with
  | SHRINK => set_snake1 (shrink (snake1 st)) st
  | _ => timedEffect kind st
  end.

(** The [switch] on the kind collected by player 2. *)
Definition applyPowerup2 (kind : PowerupType) (st : Game) : Game :=
  match kind with
  | SHRINK => set_snake2 (shrink (snake2 st)) st
  | _ => timedEffect kind st
  end.

(** The body of [if (!p1Dead)]: the head is pushed, then food, power-up
    or the tail are dealt with. *)
Definition advanceP1 (rnd : Rand) (fuel : nat) (head1 : Point)
    (eatenPacman : bool) (st : Game) : Outcome Game :=
  let st := set_snake1 (head1 :: snake1 st) st in
  let keepOrPop (st : Game) : Game :=
    if negb eatenPacman then set_snake1 (removelast (snake1 st)) st else st in
  if samePoint head1 (food st) then
    let st := set_scores_p1 (scores_p1 st + 1) st in
    let st := playSound snd_eat st in
    let st := increaseSpeed st in
    let excludeFood := (snake1 st ++ snake2 st) ++ powerupCell st in
    f <- placeItem (rndFood1 rnd) fuel excludeFood ;;
    let st := set_food f st in
    match powerup st with
    | None =>
        if rndRoll rnd then
          pu <- placePowerup (rndPowerup rnd) (rndKind rnd) fuel
                  ((snake1 st ++ snake2 st) ++ [food st]) ;;
          Done (set_powerup (Some pu) st)
        else Done st
    | Some _ => Done st
    end
  else
    match powerup st with
    | Some pu =>
        if samePoint head1 (at_ pu) then
          let st := set_scores_p1 (scores_p1 st + 5) st in
          let st := playSound snd_powerup st in
          let st := applyPowerup1 (type pu) st in
          Done (set_powerup None st)
        else Done (keepOrPop st)
    | None => Done (keepOrPop st)
    end.

(** "Move P1": the next head and the locals after player 1 has moved. *)
Definition moveP1 (rnd : Rand) (fuel : nat) (st : Game) : Outcome (Point * Tick) :=
  head1 <- nextHead (snake1 st) (dir1 st) ;;
  let dead := collisionsP1 head1 st in
  r <- pacmanInteraction rnd fuel head1 dead st ;;
  let '(st, dead, eatenPacman) := r in
  st <- (if negb dead then advanceP1 rnd fuel head1 eatenPacman st else Done st) ;;
  Done (head1, mkTick st dead false).

(** The body of [if (!p2Dead)]. *)
Definition advanceP2 (rnd : Rand) (fuel : nat) (head2 : Point) (st : Game)
  : Outcome Game :=
  let st := set_snake2 (head2 :: snake2 st) st in
  if samePoint head2 (food st) then
    let st := set_scores_p2 (scores_p2 st + 1) st in
    let st := playSound snd_eat st in
    let st := increaseSpeed st in
    let excludeFood := (snake1 st ++ snake2 st) ++ powerupCell st in
    f <- placeItem (rndFood2 rnd) fuel excludeFood ;;
    Done (set_food f st)
  else
    let pop (st : Game) : Game := set_snake2 (removelast (snake2 st)) st in
    match powerup st with
    | Some pu =>
        if samePoint head2 (at_ pu) then
          let st := set_scores_p2 (scores_p2 st + 5) st in
          let st := playSound snd_powerup st in
          let st := applyPowerup2 (type pu) st in
          Done (set_powerup None st)
        else Done (pop st)
    | None => Done (pop st)
    end.

(** The collision checks of player 2, under the ghost guard: own body,
    the body of player 1, and the two new heads on one cell.  The result
    is the pair [(p1Dead, p2Dead)]. *)
Definition collisionsP2 (head1 head2 : Point) (t : Tick) : bool * bool :=
  let st := world t in
  if ghostTimer st =? 0 then
    let dead2 := p2Dead t || checkCollision head2 (snake2 st) in
    let dead2 := dead2 || checkCollision head2 (snake1 st) in
    if samePoint head1 head2 then (true, true) else (p1Dead t, dead2)
  else (p1Dead t, p2Dead t).

(** "Move P2", in PVP only. *)
Definition moveP2 (rnd : Rand) (fuel : nat) (head1 : Point) (t : Tick)
  : Outcome Tick :=
  let st := world t in
  match mode st with
  | PVP =>
      head2 <- nextHead (snake2 st) (dir2 st) ;;
      let '(dead1, dead2) := collisionsP2 head1 head2 t in
      st <- (if negb dead2 then advanceP2 rnd fuel head2 st else Done st) ;;
      Done (mkTick st dead1 dead2)
  | PVC => Done t
  end.

(** The unit step [d > 0 ? 1 : -1]. *)
Definition signStep (d : Z) : Z := if d >? 0 then 1 else -1.

(** The cell Pacman aims at: the primary axis first and, when that cell
    is on the snake, the other axis (a random side when its delta is 0). *)
Definition pacmanTarget (sign : bool) (pac foodAt : Point) (snake : list Point)
  : Point :=
  let dx := toroidalDelta (x pac) (x foodAt) COLS in
  let dy := toroidalDelta (y pac) (y foodAt) ROWS in
  let alongX := Z.abs dx >? Z.abs dy in
  let pDirX := if alongX then signStep dx else 0 in
  let pDirY := if alongX then 0 else signStep dy in
  let target := mkPoint (wrap (x pac + pDirX) COLS) (wrap (y pac + pDirY) ROWS) in
  if checkCollision target snake then
    let random := if sign then 1 else -1 in
    let pDirY := if alongX then (if negb (dy =? 0) then signStep dy else random)
                 else 0 in
    let pDirX := if alongX then 0
                 else (if negb (dx =? 0) then signStep dx else random) in
    mkPoint (wrap (x pac + pDirX) COLS) (wrap (y pac + pDirY) ROWS)
  else target.

(** "AI": Pacman thaws or, on every second move, steps towards the food. *)
Definition moveAI (rnd : Rand) (fuel : nat) (t : Tick) : Outcome Tick :=
  let st := world t in
  match mode st, pacman st with
  | PVC, Some pac =>
      if pacmanFrozen st >? 0 then
        Done (mkTick (set_pacmanFrozen (pacmanFrozen st - 1) st) (p1Dead t) (p2Dead t))
      else
        let st := set_pacmanMoveTick (pacmanMoveTick st + 1) st in
        if Z.rem (pacmanMoveTick st) 2 =? 0 then
          let target := pacmanTarget (rndSign rnd) pac (food st) (snake1 st) in
          (* Move if not blocked *)
          let pac := if negb (checkCollision target (snake1 st)) then target
                     else pac in
          let st := set_pacman (Some pac) st in
          st <- (if samePoint pac (food st) then
                   let st := set_scores_pacman (scores_pacman st + 1) st in
                   let st := playSound snd_pacman st in
                   f <- placeItem (rndFoodAI rnd) fuel (snake1 st) ;;
                   Done (set_food f st)
                 else Done st) ;;
          (* Check if ran into Snake *)
          dead1 <- match snake1 st with
                   | [] => TypeError
                   | h :: _ => Done (if samePoint pac h then true else p1Dead t)
                   end ;;
          let st := match powerup st with
                    | Some pu =>
                        if samePoint pac (at_ pu) then set_powerup None st else st
                    | None => st
                    end in
          Done (mkTick st dead1 (p2Dead t))
        else Done (mkTick st (p1Dead t) (p2Dead t))
  | _, _ => Done t
  end.

(** "Resolve Game Over". *)
Definition resolveGameOver (t : Tick) : Game :=
  let st := world t in
  if p1Dead t || p2Dead t then
    let st := playSound snd_die st in
    let st := set_gameState gameover st in
    let reason :=
      match mode st with
      | PVP =>
          if p1Dead t && p2Dead t then "DRAW!"
          else if p1Dead t then "PINK WINS!"
          else "GREEN WINS!"
      | PVC => "GAME OVER"
      end%string in
    set_gameOverReason reason st
  else st.

(** One move of the game: what [update] runs once [moveTimer] has passed
    [moveInterval]. *)
Definition move (rnd : Rand) (fuel : nat) (st : Game) : Outcome Game :=
  let st := set_moveTimer (inject_Z 0) st in
  let st := commitDirs st in
  r <- moveP1 rnd fuel st ;;
  let '(head1, t) := r in
  t <- moveP2 rnd fuel head1 t ;;
  t <- moveAI rnd fuel t ;;
  Done (resolveGameOver t).

(** [update(dt)], called on every animation frame.  [moveTimer.current
    += dt] is an addition of doubles, and the test that follows compares
    the rounded sum with the interval. *)
Definition update (dt : Q) (rnd : Rand) (fuel : nat) (st : Game) : Outcome Game :=
  let st := set_moveTimer (toDouble (moveTimer st + dt)) st in
  let st := powerupTimers st in
  if negb (Qle_bool (moveTimer st) (moveInterval st)) then move rnd fuel st
  else Done st.

(** The frame [loop]: [update] runs only while the game is being played. *)
Definition frame (dt : Q) (rnd : Rand) (fuel : nat) (st : Game) : Outcome Game :=
  match gameState st with
  | playing => update dt rnd fuel st
  | _ => Done st
  end.

(** A run of the frame [loop]: one delta and one oracle per animation
    frame, each frame working on the state left by the one before. *)
Fixpoint frames (inputs : list (Q * Rand)) (fuel : nat) (st : Game)
  : Outcome Game :=
  match inputs with
  | [] => Done st
  | (dt, rnd) :: rest =>
      st <- frame dt rnd fuel st ;;
      frames rest fuel st
  end.

(** ** The joystick of [Joystick.tsx] *)

Inductive JoystickButton : Type := ButtonUp | ButtonLeft | ButtonRight | ButtonDown.

(** [Joystick]: each of the four buttons calls [onDirection] with its
    own unit vector. *)
Definition Joystick (onDirection : Z -> Z -> Game -> Game) (b : JoystickButton)
  : Game -> Game :=
  match b with
  | ButtonUp => onDirection 0 (-1)
  | ButtonLeft => onDirection (-1) 0
  | ButtonRight => onDirection 1 0
  | ButtonDown => onDirection 0 1
  end.

(** ** The leaderboard *)

Definition MAX_HIGH_SCORES : Z := 10.

(** [HighScore]: [{ name: string; score: number; date: string }], the
    record that [saveScore] builds. *)
Record HighScore : Type := mkHighScore {
  name : string;
  score : Z;
  date : string
}.

(** [Array.prototype.sort] with the comparator [(a, b) => b.score - a.score]:
    the sort is stable, entries come out by decreasing score and entries
    of equal score keep their order.  An entry is inserted in front of the
    first entry whose score is smaller than its own. *)
Fixpoint insertByScore (e : HighScore) (sorted : list HighScore)
  : list HighScore :=
  match sorted with
  | [] => [e]
  | s :: rest =>
      if score s >=? score e then s :: insertByScore e rest
      else e :: s :: rest
  end.

Definition sortByScore (entries : list HighScore) : list HighScore :=
  fold_left (fun sorted e => insertByScore e sorted) entries [].

(** [saveScore(name, score)]: the new list of high scores; [today] stands
    for [new Date().toLocaleDateString()]. *)
Definition saveScore (today name_ : string) (score_ : Z)
    (highScores : list HighScore) : list HighScore :=
  let newEntry := mkHighScore name_ score_ today in
  firstn (Z.to_nat MAX_HIGH_SCORES) (sortByScore (highScores ++ [newEntry])).

(** ** The component as a whole *)

(** What the component reacts to: a key of the keyboard ([keydown] on the
    window), a button of the on-screen joystick, an animation frame, the
    two buttons that start a game, the buttons that lead to the menu and
    to the leaderboard, and the [OK] button of the name entry. *)
Inductive Event : Type :=
| KeyDown (key : string)
| JoystickPress (b : JoystickButton)
| AnimationFrame (dt : Q) (rnd : Rand)
| StartGame (newMode : GameMode) (rnd : Rand)
| ShowMenu
| ShowLeaderboard
| SubmitScore.

(** The handler the JSX wires to each event, on the screen that shows
    its control: the joystick while playing, the button to the menu on
    the intro and leaderboard screens, the start buttons and the link to
    the leaderboard on the menu and game-over screens, the name entry on
    the game-over screen.  [submitScore] also stores the score, in the
    list kept by [saveScore]. *)
Definition dispatch (fuel : nat) (e : Event) (st : Game) : Outcome Game :=
  match e with
  | KeyDown key => Done (handleInput key st)
  | JoystickPress b =>
      match gameState st with
      | playing => Done (Joystick handleJoystick b st)
      | _ => Done st
      end
  | AnimationFrame dt rnd => frame dt rnd fuel st
  | StartGame newMode rnd =>
      match gameState st with
      | menu | gameover => resetGame newMode rnd fuel st
      | _ => Done st
      end
  | ShowMenu =>
      match gameState st with
      | intro | leaderboard => Done (set_gameState menu st)
      | _ => Done st
      end
  | ShowLeaderboard =>
      match gameState st with
      | menu | gameover =>
          Done (set_gameState leaderboard (playSound snd_select st))
      | _ => Done st
      end
  | SubmitScore =>
      match gameState st with
      | gameover => Done (playSound snd_powerup (set_gameState leaderboard st))
      | _ => Done st
      end
  end.

(** A session: the events of a run of the component, in order. *)
Fixpoint session (fuel : nat) (events : list Event) (st : Game) : Outcome Game :=
  match events with
  | [] => Done st
  | e :: rest => st <- dispatch fuel e st ;; session fuel rest st
  end.

(** ** The component of [src/components/Game.tsx] *)

(** [src/components/Game.tsx] holds the game without kinds of power-up,
    ghost effect, changes of speed or leaderboard.  Its [wrap],
    [placeItem], [checkCollision] and [handleJoystick] are the ones
    above, word for word; its [resetGame], [handleInput] and [update]
    differ and are modelled here, under their own names. *)
Module Classic.

(** ['menu' | 'playing' | 'gameover'] *)
Inductive GameState : Type := menu | playing | gameover.

(** The cells of the component: React state ([gameState], [mode],
    [scores], [gameOverReason]) and refs.  [scores.best] is left out: the
    only line that assigns it compares it with the [scores] of an earlier
    render. *)
Record Game : Type := mkGame {
  gameState : GameState;
  mode : GameMode;
  scores_p1 : Z;
  scores_p2 : Z;
  scores_pacman : Z;
  gameOverReason : string;
  moveTimer : Q;
  moveInterval : Q;
  snake1 : list Point;
  dir1 : Point;
  nextDir1 : Point;
  snake2 : list Point;
  dir2 : Point;
  nextDir2 : Point;
  food : Point;
  powerup : option Point;
  pacman : option Point;
  pacmanFrozen : Z;
  sounds : list Sound
}.

Definition set_gameState (v : GameState) (st : Game) : Game :=
  mkGame v (mode st) (scores_p1 st) (scores_p2 st) (scores_pacman st)
    (gameOverReason st) (moveTimer st) (moveInterval st) (snake1 st) (dir1 st)
    (nextDir1 st) (snake2 st) (dir2 st) (nextDir2 st) (food st) (powerup st)
    (pacman st) (pacmanFrozen st) (sounds st).

Definition set_mode (v : GameMode) (st : Game) : Game :=
  mkGame (gameState st) v (scores_p1 st) (scores_p2 st) (scores_pacman st)
    (gameOverReason st) (moveTimer st) (moveInterval st) (snake1 st) (dir1 st)
    (nextDir1 st) (snake2 st) (dir2 st) (nextDir2 st) (food st) (powerup st)
    (pacman st) (pacmanFrozen st) (sounds st).

Definition set_scores_p1 (v : Z) (st : Game) : Game :=
  mkGame (gameState st) (mode st) v (scores_p2 st) (scores_pacman st)
    (gameOverReason st) (moveTimer st) (moveInterval st) (snake1 st) (dir1 st)
    (nextDir1 st) (snake2 st) (dir2 st) (nextDir2 st) (food st) (powerup st)
    (pacman st) (pacmanFrozen st) (sounds st).

Definition set_scores_p2 (v : Z) (st : Game) : Game :=
  mkGame (gameState st) (mode st) (scores_p1 st) v (scores_pacman st)
    (gameOverReason st) (moveTimer st) (moveInterval st) (snake1 st) (dir1 st)
    (nextDir1 st) (snake2 st) (dir2 st) (nextDir2 st) (food st) (powerup st)
    (pacman st) (pacmanFrozen st) (sounds st).

Definition set_scores_pacman (v : Z) (st : Game) : Game :=
  mkGame (gameState st) (mode st) (scores_p1 st) (scores_p2 st) v
    (gameOverReason st) (moveTimer st) (moveInterval st) (snake1 st) (dir1 st)
    (nextDir1 st) (snake2 st) (dir2 st) (nextDir2 st) (food st) (powerup st)
    (pacman st) (pacmanFrozen st) (sounds st).

Definition set_gameOverReason (v : string) (st : Game) : Game :=
  mkGame (gameState st) (mode st) (scores_p1 st) (scores_p2 st) (scores_pacman
    st) v (moveTimer st) (moveInterval st) (snake1 st) (dir1 st) (nextDir1 st)
    (snake2 st) (dir2 st) (nextDir2 st) (food st) (powerup st) (pacman st)
    (pacmanFrozen st) (sounds st).

Definition set_moveTimer (v : Q) (st : Game) : Game :=
  mkGame (gameState st) (mode st) (scores_p1 st) (scores_p2 st) (scores_pacman
    st) (gameOverReason st) v (moveInterval st) (snake1 st) (dir1 st)
    (nextDir1 st) (snake2 st) (dir2 st) (nextDir2 st) (food st) (powerup st)
    (pacman st) (pacmanFrozen st) (sounds st).

Definition set_moveInterval (v : Q) (st : Game) : Game :=
  mkGame (gameState st) (mode st) (scores_p1 st) (scores_p2 st) (scores_pacman
    st) (gameOverReason st) (moveTimer st) v (snake1 st) (dir1 st) (nextDir1
    st) (snake2 st) (dir2 st) (nextDir2 st) (food st) (powerup st) (pacman st)
    (pacmanFrozen st) (sounds st).

Definition set_snake1 (v : list Point) (st : Game) : Game :=
  mkGame (gameState st) (mode st) (scores_p1 st) (scores_p2 st) (scores_pacman
    st) (gameOverReason st) (moveTimer st) (moveInterval st) v (dir1 st)
    (nextDir1 st) (snake2 st) (dir2 st) (nextDir2 st) (food st) (powerup st)
    (pacman st) (pacmanFrozen st) (sounds st).

Definition set_dir1 (v : Point) (st : Game) : Game :=
  mkGame (gameState st) (mode st) (scores_p1 st) (scores_p2 st) (scores_pacman
    st) (gameOverReason st) (moveTimer st) (moveInterval st) (snake1 st) v
    (nextDir1 st) (snake2 st) (dir2 st) (nextDir2 st) (food st) (powerup st)
    (pacman st) (pacmanFrozen st) (sounds st).

Definition set_nextDir1 (v : Point) (st : Game) : Game :=
  mkGame (gameState st) (mode st) (scores_p1 st) (scores_p2 st) (scores_pacman
    st) (gameOverReason st) (moveTimer st) (moveInterval st) (snake1 st) (dir1
    st) v (snake2 st) (dir2 st) (nextDir2 st) (food st) (powerup st) (pacman
    st) (pacmanFrozen st) (sounds st).

Definition set_snake2 (v : list Point) (st : Game) : Game :=
  mkGame (gameState st) (mode st) (scores_p1 st) (scores_p2 st) (scores_pacman
    st) (gameOverReason st) (moveTimer st) (moveInterval st) (snake1 st) (dir1
    st) (nextDir1 st) v (dir2 st) (nextDir2 st) (food st) (powerup st) (pacman
    st) (pacmanFrozen st) (sounds st).

Definition set_dir2 (v : Point) (st : Game) : Game :=
  mkGame (gameState st) (mode st) (scores_p1 st) (scores_p2 st) (scores_pacman
    st) (gameOverReason st) (moveTimer st) (moveInterval st) (snake1 st) (dir1
    st) (nextDir1 st) (snake2 st) v (nextDir2 st) (food st) (powerup st)
    (pacman st) (pacmanFrozen st) (sounds st).

Definition set_nextDir2 (v : Point) (st : Game) : Game :=
  mkGame (gameState st) (mode st) (scores_p1 st) (scores_p2 st) (scores_pacman
    st) (gameOverReason st) (moveTimer st) (moveInterval st) (snake1 st) (dir1
    st) (nextDir1 st) (snake2 st) (dir2 st) v (food st) (powerup st) (pacman
    st) (pacmanFrozen st) (sounds st).

Definition set_food (v : Point) (st : Game) : Game :=
  mkGame (gameState st) (mode st) (scores_p1 st) (scores_p2 st) (scores_pacman
    st) (gameOverReason st) (moveTimer st) (moveInterval st) (snake1 st) (dir1
    st) (nextDir1 st) (snake2 st) (dir2 st) (nextDir2 st) v (powerup st)
    (pacman st) (pacmanFrozen st) (sounds st).

Definition set_powerup (v : option Point) (st : Game) : Game :=
  mkGame (gameState st) (mode st) (scores_p1 st) (scores_p2 st) (scores_pacman
    st) (gameOverReason st) (moveTimer st) (moveInterval st) (snake1 st) (dir1
    st) (nextDir1 st) (snake2 st) (dir2 st) (nextDir2 st) (food st) v (pacman
    st) (pacmanFrozen st) (sounds st).

Definition set_pacman (v : option Point) (st : Game) : Game :=
  mkGame (gameState st) (mode st) (scores_p1 st) (scores_p2 st) (scores_pacman
    st) (gameOverReason st) (moveTimer st) (moveInterval st) (snake1 st) (dir1
    st) (nextDir1 st) (snake2 st) (dir2 st) (nextDir2 st) (food st) (powerup
    st) v (pacmanFrozen st) (sounds st).

Definition set_pacmanFrozen (v : Z) (st : Game) : Game :=
  mkGame (gameState st) (mode st) (scores_p1 st) (scores_p2 st) (scores_pacman
    st) (gameOverReason st) (moveTimer st) (moveInterval st) (snake1 st) (dir1
    st) (nextDir1 st) (snake2 st) (dir2 st) (nextDir2 st) (food st) (powerup
    st) (pacman st) v (sounds st).

Definition set_sounds (v : list Sound) (st : Game) : Game :=
  mkGame (gameState st) (mode st) (scores_p1 st) (scores_p2 st) (scores_pacman
    st) (gameOverReason st) (moveTimer st) (moveInterval st) (snake1 st) (dir1
    st) (nextDir1 st) (snake2 st) (dir2 st) (nextDir2 st) (food st) (powerup
    st) (pacman st) (pacmanFrozen st) v.

(** [playSound(type)]: the call is appended to the log. *)
Definition playSound (s : Sound) (st : Game) : Game :=
  set_sounds (s :: sounds st) st.

(** The body of [if (!p1Dead)]: the head is put on, then the snake eats
    the food, collects the power-up (which freezes Pacman for 50 moves)
    or drops its tail. *)
Definition advanceP1 (rnd : Rand) (fuel : nat) (head1 : Point) (st : Game)
  : Outcome Game :=
  let st := set_snake1 (head1 :: snake1 st) st in
  if samePoint head1 (food st) then
    let st := set_scores_p1 (scores_p1 st + 1) st in
    let st := playSound snd_eat st in
    f <- placeItem (rndFood1 rnd) fuel (snake1 st ++ snake2 st) ;;
    let st := set_food f st in
    match powerup st with
    | None =>
        if rndRoll rnd then
          pu <- placeItem (rndPowerup rnd) fuel
                  ((snake1 st ++ snake2 st) ++ [food st]) ;;
          Done (set_powerup (Some pu) st)
        else Done st
    | Some _ => Done st
    end
  else
    match powerup st with
    | Some pu =>
        if samePoint head1 pu then
          let st := set_scores_p1 (scores_p1 st + 5) st in
          let st := playSound snd_powerup st in
          let st := set_pacmanFrozen 50 st in
          Done (set_powerup None st)
        else Done (set_snake1 (removelast (snake1 st)) st)
    | None => Done (set_snake1 (removelast (snake1 st)) st)
    end.

(** "Move P1": the next head, the two collision checks and the advance
    of a snake that lives.  The result is the head, the state and
    [p1Dead]. *)
Definition moveP1 (rnd : Rand) (fuel : nat) (st : Game)
  : Outcome (Point * Game * bool) :=
  head1 <- nextHead (snake1 st) (dir1 st) ;;
  let p1Dead := checkCollision head1 (snake1 st) in
  let p1Dead :=
    match mode st with
    | PVP => p1Dead || checkCollision head1 (snake2 st)
    | PVC => p1Dead
    end in
  st <- (if negb p1Dead then advanceP1 rnd fuel head1 st else Done st) ;;
  Done (head1, st, p1Dead).

(** The body of [if (!p2Dead)]. *)
Definition advanceP2 (rnd : Rand) (fuel : nat) (head2 : Point) (st : Game)
  : Outcome Game :=
  let st := set_snake2 (head2 :: snake2 st) st in
  if samePoint head2 (food st) then
    let st := set_scores_p2 (scores_p2 st + 1) st in
    let st := playSound snd_eat st in
    f <- placeItem (rndFood2 rnd) fuel (snake1 st ++ snake2 st) ;;
    Done (set_food f st)
  else
    match powerup st with
    | Some pu =>
        if samePoint head2 pu then
          let st := set_scores_p2 (scores_p2 st + 5) st in
          let st := playSound snd_powerup st in
          Done (set_powerup None st)
        else Done (set_snake2 (removelast (snake2 st)) st)
    | None => Done (set_snake2 (removelast (snake2 st)) st)
    end.

(** "Move P2", in PVP only: the three checks, the last of which kills
    both snakes, and the advance of a snake that lives.  The result is
    the state, [p1Dead] and [p2Dead]. *)
Definition moveP2 (rnd : Rand) (fuel : nat) (head1 : Point) (st : Game)
    (p1Dead : bool) : Outcome (Game * bool * bool) :=
  match mode st with
  | PVP =>
      head2 <- nextHead (snake2 st) (dir2 st) ;;
      let p2Dead := checkCollision head2 (snake2 st) in
      let p2Dead := p2Dead || checkCollision head2 (snake1 st) in
      let both := samePoint head1 head2 in
      let p1Dead := both || p1Dead in
      let p2Dead := both || p2Dead in
      st <- (if negb p2Dead then advanceP2 rnd fuel head2 st else Done st) ;;
      Done (st, p1Dead, p2Dead)
  | PVC => Done (st, p1Dead, false)
  end.

(** "Smart Pacman AI": a frozen Pacman thaws by one; otherwise he steps
    one cell towards the food, along the axis of the larger folded
    delta, whatever is on that cell. *)
Definition moveAI (rnd : Rand) (fuel : nat) (st : Game) : Outcome Game :=
  match mode st, pacman st with
  | PVC, Some pac =>
      if pacmanFrozen st >? 0 then
        Done (set_pacmanFrozen (pacmanFrozen st - 1) st)
      else
        let dx := toroidalDelta (x pac) (x (food st)) COLS in
        let dy := toroidalDelta (y pac) (y (food st)) ROWS in
        let alongX := Z.abs dx >? Z.abs dy in
        let pDirX := if alongX then signStep dx else 0 in
        let pDirY := if alongX then 0 else signStep dy in
        let pac := mkPoint (wrap (x pac + pDirX) COLS)
                           (wrap (y pac + pDirY) ROWS) in
        let st := set_pacman (Some pac) st in
        st <- (if samePoint pac (food st) then
                 let st := set_scores_pacman (scores_pacman st + 1) st in
                 let st := playSound snd_pacman st in
                 f <- placeItem (rndFoodAI rnd) fuel (snake1 st) ;;
                 Done (set_food f st)
               else Done st) ;;
        match powerup st with
        | Some pu =>
            if samePoint pac pu then Done (set_powerup None st) else Done st
        | None => Done st
        end
  | _, _ => Done st
  end.

(** "Resolve Game Over". *)
Definition resolveGameOver (st : Game) (p1Dead p2Dead : bool) : Game :=
  if p1Dead || p2Dead then
    let st := playSound snd_die st in
    let st := set_gameState gameover st in
    match mode st with
    | PVP =>
        if p1Dead && p2Dead then set_gameOverReason "DRAW!" st
        else if p1Dead then set_gameOverReason "PINK WINS!" st
        else set_gameOverReason "GREEN WINS!" st
    | PVC => set_gameOverReason "GAME OVER" st
    end
  else st.

(** [update(dt)], called on every animation frame.  [moveTimer.current
    += dt] is an addition of doubles, and the test that follows compares
    the rounded sum with the interval. *)
Definition update (dt : Q) (rnd : Rand) (fuel : nat) (st : Game) : Outcome Game :=
  let st := set_moveTimer (toDouble (moveTimer st + dt)) st in
  if negb (Qle_bool (moveTimer st) (moveInterval st)) then
    let st := set_moveTimer (inject_Z 0) st in
    let st := set_dir1 (nextDir1 st) st in
    let st := match mode st with
              | PVP => set_dir2 (nextDir2 st) st
              | PVC => st
              end in
    r <- moveP1 rnd fuel st ;;
    let '(head1, st, p1Dead) := r in
    r <- moveP2 rnd fuel head1 st p1Dead ;;
    let '(st, p1Dead, p2Dead) := r in
    st <- moveAI rnd fuel st ;;
    Done (resolveGameOver st p1Dead p2Dead)
  else Done st.

End Classic.

(** ** Sample data *)

(** The four headings a snake can take. *)
Definition up : Point := mkPoint 0 (-1).
Definition down : Point := mkPoint 0 1.
Definition left : Point := mkPoint (-1) 0.
Definition right : Point := mkPoint 1 0.

(** All the cells of the grid, column by column. *)
Definition range (n : Z) : list Z := map Z.of_nat (seq 0 (Z.to_nat n)).

Definition fullGrid : list Point :=
  flat_map (fun i => map (fun j => mkPoint i j) (range ROWS)) (range COLS).

(** A sequence of draws that walks over the grid. *)
Definition sweep (n : nat) : Point :=
  mkPoint (Z.of_nat n mod COLS) (Z.of_nat n mod ROWS).

(** A sequence that draws the same cell every time. *)
Definition always (p : Point) (n : nat) : Point := p.

(** The cells as the component mounts them. *)
Definition mounted : Game :=
  mkGame intro PVC 0 0 0 EmptyString (inject_Z 0) (inject_Z 120) (inject_Z 120)
    0 0 0 [] up up [] up up (mkPoint 0 0) None None 0 [].

(** A single-player game under way: the snake, its committed and pending
    directions, the food, the power-up, Pacman and his freeze timer. *)
Definition solo (snake : list Point) (dir next foodAt : Point)
    (pu : option Powerup) (pac : Point) (frozen : Z) : Game :=
  mkGame playing PVC 0 0 0 EmptyString (inject_Z 0) (inject_Z 120) (inject_Z 120)
    1 0 0 snake dir next [] up up foodAt pu (Some pac) frozen [].

(** A two-player game under way, with the shared ghost timer. *)
Definition duel (s1 : list Point) (d1 : Point) (s2 : list Point) (d2 : Point)
    (foodAt : Point) (pu : option Powerup) (ghost : Z) : Game :=
  mkGame playing PVP 0 0 0 EmptyString (inject_Z 0) (inject_Z 120) (inject_Z 120)
    0 0 ghost s1 d1 d1 s2 d2 d2 foodAt pu None 0 [].

(** An oracle whose placements all draw [p], that never rolls a power-up
    and that answers [sign] to the AI. *)
Definition dice (p : Point) (sign : bool) : Rand :=
  mkRand (always p) (always p) false (always p) GHOST (always p) sign
    (always p) (always p).

(** A snake of four segments coiled in a square, about to turn onto the
    cell of its own tail; food, power-up and Pacman are elsewhere. *)
Definition coiled : Game :=
  solo [mkPoint 1 1; mkPoint 2 1; mkPoint 2 2; mkPoint 1 2] left down
    (mkPoint 20 5) None (mkPoint 25 15) 0.

(** Two snakes one cell apart and face to face, under a running ghost
    timer. *)
Definition faceToFace (ghost : Z) : Game :=
  duel [mkPoint 10 10] left [mkPoint 8 10] right (mkPoint 20 5) None ghost.

(** Player 1 one step below a Ghost power-up, player 2 far away. *)
Definition ghostAhead : Game :=
  duel [mkPoint 15 10] up [mkPoint 5 10] up (mkPoint 20 5)
    (Some (mkPowerup (mkPoint 15 9) GHOST)) 0.

(** A lone snake one step below a Ghost power-up, the food elsewhere. *)
Definition powerupAhead : Game :=
  solo [mkPoint 15 10] up up (mkPoint 20 5)
    (Some (mkPowerup (mkPoint 15 9) GHOST)) (mkPoint 3 3) 0.

(** A lone snake one step below the food. *)
Definition foodAhead : Game :=
  solo [mkPoint 15 10] up up (mkPoint 15 9) None (mkPoint 3 3) 0.

(** A snake of three segments bent around the cell of the frozen Pacman,
    about to step onto it; the food lies three cells further down. *)
Definition cornered : Game :=
  solo [mkPoint 5 6; mkPoint 4 6; mkPoint 4 5] right up (mkPoint 5 8) None
    (mkPoint 5 5) 10.

(** Pacman one step below the food, the snake far away. *)
Definition chaserFeeds : Game :=
  solo [mkPoint 15 10] up up (mkPoint 3 4) None (mkPoint 3 5) 0.

(** An oracle that starts Pacman on [pac] and draws [cell] everywhere else. *)
Definition startDice (pac cell : Point) : Rand :=
  mkRand (always cell) (always cell) false (always cell) GHOST (always cell)
    false (always cell) (always pac).

(** A full leaderboard: ten entries from 100 down to 10 points. *)
Definition fullBoard : list HighScore :=
  map (fun n => mkHighScore "AAA" (Z.of_nat (100 - 10 * n)) "1/1/2025")
    (seq 0 10).

(** A frame long enough for a move at any speed. *)
Definition longFrame : Q := inject_Z 301.

(** A single-player game of [src/components/Game.tsx] under way. *)
Definition classicSolo (snake : list Point) (dir foodAt : Point)
    (pu : option Point) (pac : Point) (frozen : Z) : Classic.Game :=
  Classic.mkGame Classic.playing PVC 0 0 0 EmptyString (inject_Z 0)
    (inject_Z 100) snake dir dir [] up up foodAt pu (Some pac) frozen [].

(** A two-player game of [src/components/Game.tsx] under way. *)
Definition classicDuel (s1 : list Point) (d1 : Point) (s2 : list Point)
    (d2 : Point) (foodAt : Point) : Classic.Game :=
  Classic.mkGame Classic.playing PVP 0 0 0 EmptyString (inject_Z 0)
    (inject_Z 100) s1 d1 d1 s2 d2 d2 foodAt None None 0 [].

(** ** Vocabulary of the properties *)

(** The cells that no phase of a move assigns once the directions are
    committed. *)
Definition sameSetup (st st' : Game) : Prop :=
  mode st' = mode st /\
  dir1 st' = dir1 st /\ nextDir1 st' = nextDir1 st /\
  dir2 st' = dir2 st /\ nextDir2 st' = nextDir2 st.

(** The exact opposite of a direction, and the null vector. *)
Definition reverse (d : Point) : Point := mkPoint (- x d) (- y d).
Definition origin : Point := mkPoint 0 0.

Definition unitDir (d : Point) : Prop :=
  d = up \/ d = down \/ d = left \/ d = right.

(** The direction that a key asks of player 1 and of player 2, as
    [handleInput] reads it. *)
Definition keyDir1 (key : string) : option Point :=
  let k := toLowerCase key in
  if String.eqb k "arrowup" then Some up
  else if String.eqb k "arrowdown" then Some down
  else if String.eqb k "arrowleft" then Some left
  else if String.eqb k "arrowright" then Some right
  else None.

Definition keyDir2 (key : string) : option Point :=
  let k := toLowerCase key in
  if String.eqb k "w" then Some up
  else if String.eqb k "s" then Some down
  else if String.eqb k "a" then Some left
  else if String.eqb k "d" then Some right
  else None.

(** An intent reaches the game through the keyboard or the joystick. *)
Inductive Intent : Type :=
| Key (key : string)
| Pad (dx dy : Z).

Definition submitIntent (i : Intent) (st : Game) : Game :=
  match i with
  | Key key => handleInput key st
  | Pad dx dy => handleJoystick dx dy st
  end.

Definition submitAll (intents : list Intent) (st : Game) : Game :=
  fold_left (fun s i => submitIntent i s) intents st.

(** Between two moves a snake is heading somewhere, and the direction it
    will take next is neither null nor a U-turn. *)
Definition steady (st : Game) : Prop :=
  (dir1 st <> origin /\ nextDir1 st <> origin /\
   nextDir1 st <> reverse (dir1 st)) /\
  (dir2 st <> origin /\ nextDir2 st <> origin /\
   nextDir2 st <> reverse (dir2 st)).

(** Pacman stands on cell [p] of a single-player game. *)
Definition chaserAt (st : Game) (p : Point) : bool :=
  match mode st, pacman st with
  | PVC, Some pac => samePoint p pac
  | _, _ => false
  end.

(** The active power-up lies on cell [p]. *)
Definition powerupAt (st : Game) (p : Point) : bool :=
  match powerup st with
  | Some pu => samePoint p (at_ pu)
  | None => false
  end.

(** The state in which the snakes move: [moveTimer] is back to 0 and the
    pending directions are committed. *)
Definition started (st : Game) : Game :=
  commitDirs (set_moveTimer (inject_Z 0) st).

(** The length of a body of length [L] after a Shrink power-up. *)
Definition shrunk (L : Z) : Z := if L >? 3 then Z.max 3 (L / 2) else L.

(** The bonus of player 1 for a move onto the cell of Pacman. *)
Definition chaserBonus (st : Game) (head1 : Point) : Z :=
  if chaserAt st head1 then 5 else 0.

(** A cell of the 30 by 20 grid. *)
Definition onGrid (p : Point) : Prop := 0 <= x p < COLS /\ 0 <= y p < ROWS.

(** Every draw of every placement loop is a cell of the grid, as
    [Math.floor(Math.random() * COLS)] and [... * ROWS] are. *)
Definition fairDice (rnd : Rand) : Prop :=
  forall i, onGrid (rndPacman rnd i) /\ onGrid (rndFood1 rnd i) /\
            onGrid (rndPowerup rnd i) /\ onGrid (rndFood2 rnd i) /\
            onGrid (rndFoodAI rnd i) /\ onGrid (rndStart rnd i).

(** The scores of a list of entries never go up from one entry to the next. *)
Fixpoint byDecreasingScore (entries : list HighScore) : Prop :=
  match entries with
  | [] => True
  | e :: rest =>
      (forall e', In e' rest -> score e' <= score e) /\ byDecreasingScore rest
  end.

(** The three timers are within their durations. *)
Definition timersInRange (st : Game) : Prop :=
  0 <= speedBoostTimer st <= SPEED_BOOST_DURATION /\
  0 <= ghostTimer st <= GHOST_DURATION /\
  0 <= pacmanFrozen st <= FREEZE_DURATION.

(** From [st] to [st'] no score went down, player 1 earned at most 10
    points, player 2 at most 5 and Pacman at most 1. *)
Definition scoresGrow (st st' : Game) : Prop :=
  scores_p1 st <= scores_p1 st' <= scores_p1 st + 10 /\
  scores_p2 st <= scores_p2 st' <= scores_p2 st + 5 /\
  scores_pacman st <= scores_pacman st' <= scores_pacman st + 1.

(** The states a phase of a move can end in. *)

(** Player 1 has eaten the frozen Pacman, who respawns on [p]. *)
Definition chaserEaten (p : Point) (st : Game) : Game :=
  set_pacmanFrozen 0
    (set_pacman (Some p)
       (playSound snd_eat (set_scores_p1 (scores_p1 st + 5) st))).

(** Player 1 has eaten the food, replaced on [f]. *)
Definition fed1 (head1 f : Point) (st : Game) : Game :=
  set_food f
    (increaseSpeed
       (playSound snd_eat
          (set_scores_p1 (scores_p1 st + 1)
             (set_snake1 (head1 :: snake1 st) st)))).

(** Player 1 has collected the power-up [pu]. *)
Definition collected1 (head1 : Point) (pu : Powerup) (st : Game) : Game :=
  set_powerup None
    (applyPowerup1 (type pu)
       (playSound snd_powerup
          (set_scores_p1 (scores_p1 st + 5)
             (set_snake1 (head1 :: snake1 st) st)))).

(** Player 1 has made a plain step. *)
Definition stepped1 (head1 : Point) (eaten : bool) (st : Game) : Game :=
  set_snake1 (if eaten then head1 :: snake1 st
              else removelast (head1 :: snake1 st)) st.

(** The same three for player 2. *)
Definition fed2 (head2 f : Point) (st : Game) : Game :=
  set_food f
    (increaseSpeed
       (playSound snd_eat
          (set_scores_p2 (scores_p2 st + 1)
             (set_snake2 (head2 :: snake2 st) st)))).

Definition collected2 (head2 : Point) (pu : Powerup) (st : Game) : Game :=
  set_powerup None
    (applyPowerup2 (type pu)
       (playSound snd_powerup
          (set_scores_p2 (scores_p2 st + 5)
             (set_snake2 (head2 :: snake2 st) st)))).

Definition stepped2 (head2 : Point) (st : Game) : Game :=
  set_snake2 (removelast (head2 :: snake2 st)) st.

(** The cell on which Pacman ends a move of his: the cell he aims at
    unless the snake is on it. *)
Definition chaserStep (sign : bool) (pac : Point) (st : Game) : Point :=
  let target := pacmanTarget sign pac (food st) (snake1 st) in
  if negb (checkCollision target (snake1 st)) then target else pac.

(** Pacman has eaten the food, replaced on [f]. *)
Definition chaserFed (f : Point) (st : Game) : Game :=
  set_food f (playSound snd_pacman (set_scores_pacman (scores_pacman st + 1) st)).

(** Pacman, on [pac], destroys the power-up he stands on. *)
Definition chaserTramples (pac : Point) (st : Game) : Game :=
  match powerup st with
  | Some pu => if samePoint pac (at_ pu) then set_powerup None st else st
  | None => st
  end.

(** Every snake that plays has a body. *)
Definition crewed (st : Game) : Prop :=
  snake1 st <> [] /\ (mode st = PVP -> snake2 st <> []).

(** Everything lies on the grid: the segments of both snakes, the food,
    Pacman and the power-up. *)
Definition onBoard (st : Game) : Prop :=
  Forall onGrid (snake1 st) /\ Forall onGrid (snake2 st) /\
  onGrid (food st) /\
  (forall p, pacman st = Some p -> onGrid p) /\
  (forall pu, powerup st = Some pu -> onGrid (at_ pu)).

(** The four direction cells hold one of the four headings. *)
Definition unitDirs (st : Game) : Prop :=
  unitDir (dir1 st) /\ unitDir (nextDir1 st) /\
  unitDir (dir2 st) /\ unitDir (nextDir2 st).

(** The pace of the game: the base interval between 60 and 120 ms, the
    interval in force between 30 and 180 ms. *)
Definition paced (st : Game) : Prop :=
  (inject_Z 60 <= baseMoveInterval st <= inject_Z 120)%Q /\
  (inject_Z 30 <= moveInterval st <= inject_Z 180)%Q.

(** The random draws of an event are cells of the grid. *)
Definition fairEvent (e : Event) : Prop :=
  match e with
  | AnimationFrame _ rnd | StartGame _ rnd => fairDice rnd
  | _ => True
  end.

(** The food is on no segment of a snake. *)
Definition foodClear (st : Game) : Prop :=
  ~ In (food st) (snake1 st) /\ ~ In (food st) (snake2 st).

(** A single-player game has no second snake. *)
Definition alone (st : Game) : Prop := mode st = PVC -> snake2 st = [].

(** With no speed effect running, the interval in force is the base
    interval. *)
Definition synced (st : Game) : Prop :=
  speedBoostTimer st = 0 -> moveInterval st = baseMoveInterval st.

(** No score is negative. *)
Definition scored (st : Game) : Prop :=
  0 <= scores_p1 st /\ 0 <= scores_p2 st /\ 0 <= scores_pacman st.

(** From [st] to [st'] the round is untouched: bodies, food, Pacman,
    power-up, mode, timers, intervals and scores. *)
Definition sameRound (st st' : Game) : Prop :=
  (snake1 st' = snake1 st /\ snake2 st' = snake2 st /\ food st' = food st /\
   pacman st' = pacman st /\ powerup st' = powerup st /\ mode st' = mode st) /\
  (speedBoostTimer st' = speedBoostTimer st /\ ghostTimer st' = ghostTimer st /\
   pacmanFrozen st' = pacmanFrozen st /\ moveInterval st' = moveInterval st /\
   baseMoveInterval st' = baseMoveInterval st) /\
  (scores_p1 st' = scores_p1 st /\ scores_p2 st' = scores_p2 st /\
   scores_pacman st' = scores_pacman st).

(** Cell [b] is one step from cell [a]: the next cell in one of the four
    headings, around the edges of the grid. *)
Definition stepTo (a b : Point) : Prop :=
  exists d, unitDir d /\
            b = mkPoint (wrap (x a + x d) COLS) (wrap (y a + y d) ROWS).

(** Every segment of a body is one step from the segment behind it. *)
Fixpoint linked (snake : list Point) : Prop :=
  match snake with
  | [] => True
  | h :: rest =>
      match rest with
      | [] => True
      | n :: _ => stepTo n h
      end /\ linked rest
  end.

(** No cell holds a segment of both snakes. *)
Definition apart (st : Game) : Prop :=
  forall p, In p (snake1 st) -> ~ In p (snake2 st).

(** No Ghost effect is running or about to: the ghost timer is at 0, or
    at 1 and about to run out, and the power-up on the board, if any, is
    not a Ghost. *)
Definition ghostFree (st : Game) : Prop :=
  0 <= ghostTimer st <= 1 /\
  forall pu, powerup st = Some pu -> type pu <> GHOST.

(** What holds of the cells of the game all along a session. *)
Definition sound (st : Game) : Prop :=
  (unitDirs st /\ steady st) /\
  (timersInRange st /\ paced st /\ synced st) /\
  scored st /\
  (onBoard st /\ foodClear st /\ alone st) /\
  (linked (snake1 st) /\ linked (snake2 st)) /\
  (gameState st = playing -> crewed st).

(** A frame of [dt] ms is long enough for the snakes to move: the test
    of [update] in [src/components/Game.tsx], on the sum as the code
    stores it. *)
Definition classicDue (dt : Q) (st : Classic.Game) : Prop :=
  Qle_bool (toDouble (Classic.moveTimer st + dt)) (Classic.moveInterval st) = false.

(** The state in which the snakes of [src/components/Game.tsx] move:
    [moveTimer] is back to 0 and the pending directions are committed. *)
Definition classicStarted (dt : Q) (st : Classic.Game) : Classic.Game :=
  let st := Classic.set_moveTimer (toDouble (Classic.moveTimer st + dt)) st in
  let st := Classic.set_moveTimer (inject_Z 0) st in
  let st := Classic.set_dir1 (Classic.nextDir1 st) st in
  match Classic.mode st with
  | PVP => Classic.set_dir2 (Classic.nextDir2 st) st
  | PVC => st
  end.

(** The cell Pacman steps on in [src/components/Game.tsx]: one cell
    towards the food along the axis of the larger folded delta. *)
Definition classicStep (pac foodAt : Point) : Point :=
  let dx := toroidalDelta (x pac) (x foodAt) COLS in
  let dy := toroidalDelta (y pac) (y foodAt) ROWS in
  let alongX := Z.abs dx >? Z.abs dy in
  mkPoint (wrap (x pac + (if alongX then signStep dx else 0)) COLS)
          (wrap (y pac + (if alongX then 0 else signStep dy)) ROWS).

(** The placement loop on the draws [draw] meets a cell off [exclude]
    before its fuel runs out. *)
Definition findsFree (draw : nat -> Point) (fuel : nat) (exclude : list Point)
  : Prop :=
  exists k, (k < fuel)%nat /\ ~ In (draw k) exclude.

(** Player 1 survives the move onto [head1]: the collision checks pass
    and Pacman, if he is on that cell, is frozen. *)
Definition survives1 (st : Game) (head1 : Point) : Prop :=
  collisionsP1 head1 st = false /\
  (chaserAt st head1 = true -> pacmanFrozen st > 0).

(** Every placement loop that the move of player 1 onto [head1] enters
    meets a free cell within the fuel: the one that respawns Pacman, the
    one that replaces the food and, after it, the one of the power-up. *)
Definition supplied1 (rnd : Rand) (fuel : nat) (st : Game) (head1 : Point)
  : Prop :=
  (chaserAt st head1 = true ->
   findsFree (rndPacman rnd) fuel ((snake1 st ++ [food st]) ++ powerupCell st)) /\
  (samePoint head1 (food st) = true ->
   let grown := (head1 :: snake1 st) ++ snake2 st in
   findsFree (rndFood1 rnd) fuel (grown ++ powerupCell st) /\
   (powerup st = None -> rndRoll rnd = true ->
    forall f, placeItem (rndFood1 rnd) fuel (grown ++ powerupCell st) = Done f ->
              findsFree (rndPowerup rnd) fuel (grown ++ [f]))).

(** The placement loop that the move of player 2 onto [head2] enters
    meets a free cell within the fuel. *)
Definition supplied2 (rnd : Rand) (fuel : nat) (st : Game) (head2 : Point)
  : Prop :=
  samePoint head2 (food st) = true ->
  findsFree (rndFood2 rnd) fuel
    ((snake1 st ++ head2 :: snake2 st) ++ powerupCell st).

(** Whether the new head [head1] of player 1 ends his game in
    [src/components/Game.tsx]: it is on his own body or, in a two-player
    game, on the other snake. *)
Definition classicHits1 (st : Classic.Game) (head1 : Point) : bool :=
  match Classic.mode st with
  | PVP => checkCollision head1 (Classic.snake1 st)
           || checkCollision head1 (Classic.snake2 st)
  | PVC => checkCollision head1 (Classic.snake1 st)
  end.

(** Every placement loop that the move of player 1 onto [head1] enters
    in [src/components/Game.tsx] meets a free cell within the fuel: when
    the snake lives and eats, the loop that replaces the food and, after
    it, the one of the power-up. *)
Definition classicSupplied1 (rnd : Rand) (fuel : nat) (st : Classic.Game)
    (head1 : Point) : Prop :=
  classicHits1 st head1 = false ->
  samePoint head1 (Classic.food st) = true ->
  let grown := (head1 :: Classic.snake1 st) ++ Classic.snake2 st in
  findsFree (rndFood1 rnd) fuel grown /\
  (Classic.powerup st = None -> rndRoll rnd = true ->
   forall f, placeItem (rndFood1 rnd) fuel grown = Done f ->
             findsFree (rndPowerup rnd) fuel (grown ++ [f])).

(** The number of steps between two cells, around the edges of the grid. *)
Definition toroidalDistance (a b : Point) : Z :=
  Z.abs (toroidalDelta (x a) (x b) COLS)
  + Z.abs (toroidalDelta (y a) (y b) ROWS).

(** ** Properties *)

Lemma samePoint_eq (a b : Point) : samePoint a b = true <-> a = b.
Proof.
  unfold samePoint. destruct a as [ax ay], b as [bx by']. simpl.
  rewrite andb_true_iff, !Z.eqb_eq. split.
  - intros [-> ->]. reflexivity.
  - intros E. inversion E. split; reflexivity.
Qed.

Lemma samePoint_sym (a b : Point) : samePoint a b = samePoint b a.
Proof. unfold samePoint. now rewrite (Z.eqb_sym (x a)), (Z.eqb_sym (y a)). Qed.

Lemma samePoint_refl (a : Point) : samePoint a a = true.
Proof. now apply samePoint_eq. Qed.

Lemma checkCollision_In (p : Point) (body : list Point) :
  checkCollision p body = true <-> In p body.
Proof.
  induction body as [|s body IH]; simpl.
  - split; [discriminate | tauto].
  - destruct (samePoint p s) eqn:E.
    + apply samePoint_eq in E. subst. tauto.
    + rewrite IH. split; [tauto|]. intros [<- | H]; [|exact H].
      rewrite samePoint_refl in E. discriminate.
Qed.


Lemma fold_invalid (p : Point) (exclude : list Point) :
  fold_left (fun valid s => if samePoint s p then false else valid) exclude false
  = false.
Proof.
  induction exclude as [|s exclude IH]; simpl; [reflexivity|].
  destruct (samePoint s p); exact IH.
Qed.

(** The flag computed by the inner loop is "no excluded cell equals [p]". *)
Lemma validAgainst_checkCollision (p : Point) (exclude : list Point) :
  validAgainst p exclude = negb (checkCollision p exclude).
Proof.
  unfold validAgainst. induction exclude as [|s exclude IH]; simpl; [reflexivity|].
  rewrite (samePoint_sym p s). destruct (samePoint s p); simpl.
  - apply fold_invalid.
  - exact IH.
Qed.

Lemma validAgainst_false_In (p : Point) (exclude : list Point) :
  validAgainst p exclude = false <-> In p exclude.
Proof.
  rewrite validAgainst_checkCollision, negb_false_iff. apply checkCollision_In.
Qed.

Lemma range_In (n k : Z) : 0 <= k < n -> In k (range n).
Proof.
  intros H. unfold range. apply in_map_iff. exists (Z.to_nat k). split.
  - lia.
  - apply in_seq. lia.
Qed.

Lemma fullGrid_In (p : Point) :
  0 <= x p < COLS -> 0 <= y p < ROWS -> In p fullGrid.
Proof.
  intros Hx Hy. unfold fullGrid. apply in_flat_map. exists (x p). split.
  - now apply range_In.
  - apply in_map_iff. exists (y p). split.
    + now destruct p.
    + now apply range_In.
Qed.

(** The grid is 30 columns by 20 rows. *)
Lemma COLS_val : COLS = 30.
Proof. reflexivity. Qed.

Lemma ROWS_val : ROWS = 20.
Proof. reflexivity. Qed.

Ltac grid_lia := rewrite ?COLS_val, ?ROWS_val in *; lia.

(** *** The sum of the move timer *)

(** The sum of two doubles is the double nearest to it: whole
    milliseconds add up exactly, what lies below half a unit in the last
    place is lost, and 0.1 + 0.2 is the double above 0.3. *)
Example toDouble_whole :
  toDouble (inject_Z 16 + inject_Z 301) = inject_Z 317.
Proof. vm_compute. reflexivity. Qed.

Example toDouble_rounds :
  toDouble (inject_Z 120 + (1 # 1125899906842624)) = inject_Z 120.
Proof. vm_compute. reflexivity. Qed.

Example toDouble_tenths :
  toDouble ((3602879701896397 # 36028797018963968)
            + (3602879701896397 # 18014398509481984))
  = (1351079888211149 # 4503599627370496).
Proof. vm_compute. reflexivity. Qed.

(** *** Wrap-around arithmetic *)

(** C4, as stated, fails: two cells beyond the left edge [wrap] still
    answers the last column, where the modulus is the column before it. *)
Lemma wrap_differs_from_mod : 0 < COLS /\ wrap (-2) COLS <> (-2) mod COLS.
Proof. split; [reflexivity | vm_compute; discriminate]. Qed.

(** C4 (amended): for a positive limit [N], [wrap v N] lies in [[0, N)]
    for every integer [v], [wrap (-1) N = N - 1] and [wrap N N = 0]; it is
    the modulus [v mod N] for the values one step around the grid,
    [-1 <= v <= N], which are those of a coordinate of the grid moved by
    one step, and not for every integer: any negative [v] gives [N - 1],
    any [v >= N] gives 0 and any other [v] gives [v], so that on every
    axis of more than one cell [wrap (-2) N] is not [(-2) mod N]. *)
Theorem wrap_one_step (v N : Z) (HN : 0 < N) :
  0 <= wrap v N < N /\
  wrap (-1) N = N - 1 /\
  wrap N N = 0 /\
  (-1 <= v <= N -> wrap v N = v mod N) /\
  (forall a d, 0 <= a < N -> -1 <= d <= 1 ->
               wrap (a + d) N = (a + d) mod N) /\
  (v < 0 -> wrap v N = N - 1) /\
  (N <= v -> wrap v N = 0) /\
  (0 <= v < N -> wrap v N = v) /\
  (1 < N -> wrap (-2) N <> (-2) mod N).
Proof.
  unfold wrap. repeat split.
  - destruct (v <? 0) eqn:E1; [lia|]. destruct (v >=? N) eqn:E2; lia.
  - destruct (v <? 0) eqn:E1; [lia|]. destruct (v >=? N) eqn:E2; lia.
  - destruct (N <? 0) eqn:E1; [lia|]. destruct (N >=? N) eqn:E2; lia.
  - intros Hv. destruct (v <? 0) eqn:E1.
    + assert (v = -1) as -> by lia.
      apply (Z.mod_unique (-1) N (-1) (N - 1)); [left|]; lia.
    + destruct (v >=? N) eqn:E2.
      * assert (v = N) as -> by lia. symmetry. apply Z.mod_same. lia.
      * symmetry. apply Z.mod_small. lia.
  - intros a d Ha Hd. destruct (a + d <? 0) eqn:E1.
    + assert (a + d = -1) as -> by lia.
      apply (Z.mod_unique (-1) N (-1) (N - 1)); [left|]; lia.
    + destruct (a + d >=? N) eqn:E2.
      * assert (a + d = N) as -> by lia. symmetry. apply Z.mod_same. lia.
      * symmetry. apply Z.mod_small. lia.
  - intros Hv. destruct (v <? 0) eqn:E1; [reflexivity | lia].
  - intros Hv. destruct (v <? 0) eqn:E1; [lia|].
    destruct (v >=? N) eqn:E2; [reflexivity | lia].
  - intros Hv. destruct (v <? 0) eqn:E1; [lia|].
    destruct (v >=? N) eqn:E2; [lia | reflexivity].
  - intros H1. change (-2 <? 0) with true. cbv iota. intros E.
    destruct (Z.eq_dec N 2) as [-> | N2]; [discriminate E|].
    rewrite <- (Z.mod_unique (-2) N (-1) (N - 2)) in E; [lia | left; lia | lia].
Qed.

Lemma wrap_one_step_witness :
  0 < COLS /\ -1 <= COLS <= COLS /\ wrap COLS COLS = COLS mod COLS.
Proof.
  assert (H : 0 < COLS) by reflexivity.
  split; [exact H|]. split; [lia|].
  destruct (wrap_one_step COLS COLS H) as (_ & _ & _ & Hmod & _).
  apply Hmod. lia.
Defined.

(** For a positive limit the result of [wrap] is a coordinate of the axis. *)
Lemma wrap_range (v N : Z) : 0 < N -> 0 <= wrap v N < N.
Proof.
  intros HN. unfold wrap.
  destruct (v <? 0) eqn:E1; [lia|]. destruct (v >=? N) eqn:E2; lia.
Qed.

(** One step beyond either end of the axis, [wrap] is the modulus. *)
Lemma wrap_step_mod (v N : Z) : 0 < N -> -1 <= v <= N -> wrap v N = v mod N.
Proof.
  intros HN Hv. unfold wrap. destruct (v <? 0) eqn:E1.
  - assert (v = -1) as -> by lia.
    apply (Z.mod_unique (-1) N (-1) (N - 1)); [left|]; lia.
  - destruct (v >=? N) eqn:E2.
    + assert (v = N) as -> by lia. symmetry. apply Z.mod_same. lia.
    + symmetry. apply Z.mod_small. lia.
Qed.

(** The head computed by [nextHead] is on the grid, whatever the body. *)
Lemma nextHead_on_grid (snake : list Point) (dir head : Point) :
  nextHead snake dir = Done head ->
  0 <= x head < COLS /\ 0 <= y head < ROWS.
Proof.
  destruct snake as [|h rest]; simpl; [discriminate|].
  intros E. inversion E; subst; simpl. split.
  - apply wrap_range. reflexivity.
  - apply wrap_range. reflexivity.
Qed.

(** *** Toroidal delta *)

(** C8: on an axis of size [N], for coordinates [0 <= a, b < N], the
    delta from [a] to [b] is the opposite of the delta from [b] to [a],
    its absolute value is at most [N / 2], and it is [d = b - a] with
    [sign(d) * N] subtracted when [|d| > N / 2]. *)
Theorem toroidalDelta_antisymmetric_bounded (a b N : Z)
    (Ha : 0 <= a < N) (Hb : 0 <= b < N) :
  toroidalDelta a b N = - toroidalDelta b a N /\
  2 * Z.abs (toroidalDelta a b N) <= N /\
  toroidalDelta a b N =
    (if 2 * Z.abs (b - a) >? N then (b - a) - Z.sgn (b - a) * N else b - a).
Proof.
  unfold toroidalDelta.
  destruct (2 * Z.abs (b - a) >? N) eqn:E1;
  destruct (2 * Z.abs (a - b) >? N) eqn:E2;
  destruct (b - a >? 0) eqn:E3;
  destruct (a - b >? 0) eqn:E4; lia.
Qed.

Lemma toroidalDelta_antisymmetric_bounded_witness :
  toroidalDelta 2 28 COLS = - toroidalDelta 28 2 COLS /\
  2 * Z.abs (toroidalDelta 2 28 COLS) <= COLS.
Proof.
  destruct (toroidalDelta_antisymmetric_bounded 2 28 COLS) as (H1 & H2 & _).
  - grid_lia.
  - grid_lia.
  - split; [exact H1 | exact H2].
Defined.

(** *** Item placement *)

Lemma placeItemFrom_blocked (draw : nat -> Point) (exclude : list Point) :
  (forall i, In (draw i) exclude) ->
  forall fuel i, placeItemFrom draw exclude fuel i = Spinning.
Proof.
  intros Hall fuel. induction fuel as [|fuel IH]; intros i; simpl; [reflexivity|].
  destruct (validAgainst (draw i) exclude) eqn:E.
  - pose proof (proj2 (validAgainst_false_In (draw i) exclude) (Hall i)). congruence.
  - apply IH.
Qed.

Lemma placeItemFrom_first_free (draw : nat -> Point) (exclude : list Point)
    (k : nat) :
  forall fuel i,
    (forall j, (j < k)%nat -> In (draw (i + j)%nat) exclude) ->
    ~ In (draw (i + k)%nat) exclude ->
    (k < fuel)%nat ->
    placeItemFrom draw exclude fuel i = Done (draw (i + k)%nat).
Proof.
  induction k as [|k IH]; intros fuel i Hbefore Hfree Hfuel.
  - destruct fuel as [|fuel]; [lia|]. simpl. rewrite Nat.add_0_r in Hfree.
    destruct (validAgainst (draw i) exclude) eqn:E.
    + now rewrite Nat.add_0_r.
    + apply validAgainst_false_In in E. contradiction.
  - destruct fuel as [|fuel]; [lia|]. simpl.
    destruct (validAgainst (draw i) exclude) eqn:E.
    + specialize (Hbefore 0%nat ltac:(lia)). rewrite Nat.add_0_r in Hbefore.
      apply validAgainst_false_In in Hbefore. congruence.
    + replace (i + S k)%nat with (S i + k)%nat in * by lia.
      apply IH; [|exact Hfree|lia].
      intros j Hj. replace (S i + j)%nat with (i + S j)%nat by lia.
      apply Hbefore. lia.
Qed.

(** A result of [placeItem] is on none of the excluded cells. *)
Lemma placeItemFrom_free (draw : nat -> Point) (exclude : list Point) (p : Point) :
  forall fuel i, placeItemFrom draw exclude fuel i = Done p -> ~ In p exclude.
Proof.
  induction fuel as [|fuel IH]; intros i; simpl; [discriminate|].
  destruct (validAgainst (draw i) exclude) eqn:E.
  - intros H. inversion H; subst. intros Hin.
    apply validAgainst_false_In in Hin. congruence.
  - apply IH.
Qed.

Lemma placeItem_free (draw : nat -> Point) (fuel : nat) (exclude : list Point)
    (p : Point) :
  placeItem draw fuel exclude = Done p -> ~ In p exclude.
Proof. apply placeItemFrom_free. Qed.

Lemma sweep_on_grid (n : nat) : In (sweep n) fullGrid.
Proof.
  apply fullGrid_In; unfold sweep; simpl; apply Z.mod_pos_bound; reflexivity.
Qed.

(** C9, as stated, fails: on a saturated grid no number of iterations
    makes [placeItem] return, and no error is raised either. *)
Lemma placeItem_saturated_never_returns :
  ~ exists fuel r, placeItem sweep fuel fullGrid = r /\ r <> Spinning.
Proof.
  intros (fuel & r & H & Hr). apply Hr. rewrite <- H.
  apply placeItemFrom_blocked. exact sweep_on_grid.
Qed.

(** C9 (amended): [placeItem] returns the first drawn cell that is on no
    excluded cell, as soon as the loop has run that far; when every draw
    is excluded, as on a saturated grid, the loop never ends and no
    error is raised. *)
Theorem placeItem_search (draw : nat -> Point) (exclude : list Point) :
  (forall k fuel,
      (forall j, (j < k)%nat -> In (draw j) exclude) ->
      ~ In (draw k) exclude ->
      (k < fuel)%nat ->
      placeItem draw fuel exclude = Done (draw k)) /\
  ((forall i, In (draw i) exclude) ->
   forall fuel, placeItem draw fuel exclude = Spinning) /\
  ((forall p, 0 <= x p < COLS -> 0 <= y p < ROWS -> In p exclude) ->
   (forall i, 0 <= x (draw i) < COLS /\ 0 <= y (draw i) < ROWS) ->
   forall fuel, placeItem draw fuel exclude = Spinning).
Proof.
  repeat split.
  - intros k fuel Hbefore Hfree Hfuel.
    apply (placeItemFrom_first_free draw exclude k fuel 0); assumption.
  - intros Hall fuel. now apply placeItemFrom_blocked.
  - intros Hsat Hgrid fuel. apply placeItemFrom_blocked.
    intros i. apply Hsat; apply Hgrid.
Qed.

Lemma placeItem_search_witness :
  placeItem sweep 5 [mkPoint 0 0; mkPoint 1 1] = Done (mkPoint 2 2) /\
  placeItem (always (mkPoint 0 0)) 5 [mkPoint 0 0; mkPoint 1 1] = Spinning.
Proof.
  split.
  - apply (proj1 (placeItem_search sweep [mkPoint 0 0; mkPoint 1 1]) 2%nat 5%nat).
    + intros j Hj. destruct j as [|[|j]]; [left; reflexivity | right; left; reflexivity | lia].
    + intros [H|[H|[]]]; discriminate H.
    + lia.
  - apply (proj1 (proj2 (placeItem_search (always (mkPoint 0 0))
                           [mkPoint 0 0; mkPoint 1 1]))).
    intros i. left. reflexivity.
Defined.

(** *** Running the phases of a move *)

Lemma bind_Done {A B : Type} (o : Outcome A) (k : A -> Outcome B) (b : B) :
  bind o k = Done b -> exists a, o = Done a /\ k a = Done b.
Proof. destruct o; simpl; try discriminate. intros H. now exists a. Qed.

(** Case analysis on every test met while a phase runs to [Done]. *)
Ltac run_step :=
  match goal with
  | H : bind _ _ = Done _ |- _ =>
      apply bind_Done in H; destruct H as (? & ? & H)
  | H : Done _ = Done _ |- _ => inversion H; subst; clear H
  | H : Spinning = Done _ |- _ => discriminate H
  | H : TypeError = Done _ |- _ => discriminate H
  | H : (let '(_, _) := ?p in _) = Done _ |- _ => destruct p
  | H : (if ?c then _ else _) = Done _ |- _ => destruct c eqn:?
  | H : match ?o with Some _ => _ | None => _ end = Done _ |- _ => destruct o eqn:?
  | H : match ?o with PVC => _ | PVP => _ end = Done _ |- _ => destruct o eqn:?
  | H : match ?o with [] => _ | _ :: _ => _ end = Done _ |- _ => destruct o eqn:?
  end.

Ltac run := repeat run_step.

Lemma sameSetup_refl (st : Game) : sameSetup st st.
Proof. repeat split. Qed.

Lemma sameSetup_trans (a b c : Game) :
  sameSetup a b -> sameSetup b c -> sameSetup a c.
Proof.
  unfold sameSetup. intros (?&?&?&?&?) (?&?&?&?&?). repeat split; congruence.
Qed.


(** Projections of a state built by the helpers of a move. *)
Ltac unfold_helpers :=
  unfold increaseSpeed, applyPowerup1, applyPowerup2, timedEffect, playSound,
    powerupCell in *.

Ltac split_tests :=
  repeat (match goal with
          | |- context [if ?c then _ else _] => destruct c eqn:?
          | |- context [match ?k with FREEZE => _ | _ => _ end] => destruct k eqn:?
          | |- context [match ?o with Some _ => _ | None => _ end] => destruct o eqn:?
          end; cbn).

Ltac frame := unfold sameSetup; unfold_helpers; cbn; split_tests; repeat split.

Lemma pacmanInteraction_setup rnd fuel head1 dead st st' dead' eaten :
  pacmanInteraction rnd fuel head1 dead st = Done (st', dead', eaten) ->
  sameSetup st st'.
Proof. unfold pacmanInteraction. intros H. run; frame. Qed.

Lemma advanceP1_setup rnd fuel head1 eaten st st' :
  advanceP1 rnd fuel head1 eaten st = Done st' -> sameSetup st st'.
Proof. unfold advanceP1, placePowerup. intros H. run; frame. Qed.

Lemma moveP1_setup rnd fuel st head1 t :
  moveP1 rnd fuel st = Done (head1, t) -> sameSetup st (world t).
Proof.
  unfold moveP1. intros H. run.
  - eapply sameSetup_trans; [eapply pacmanInteraction_setup; eassumption|].
    eapply advanceP1_setup; eassumption.
  - eapply pacmanInteraction_setup; eassumption.
Qed.

Lemma advanceP2_setup rnd fuel head2 st st' :
  advanceP2 rnd fuel head2 st = Done st' -> sameSetup st st'.
Proof. unfold advanceP2. intros H. run; frame. Qed.

Lemma moveP2_setup rnd fuel head1 t t' :
  moveP2 rnd fuel head1 t = Done t' -> sameSetup (world t) (world t').
Proof.
  unfold moveP2. intros H. run; simpl; try apply sameSetup_refl.
  eapply advanceP2_setup; eassumption.
Qed.

Lemma moveAI_setup rnd fuel t t' :
  moveAI rnd fuel t = Done t' -> sameSetup (world t) (world t').
Proof. unfold moveAI. intros H. run; frame. Qed.

Lemma resolveGameOver_setup t : sameSetup (world t) (resolveGameOver t).
Proof. unfold resolveGameOver. frame. Qed.

Lemma move_setup rnd fuel st st' :
  move rnd fuel st = Done st' ->
  mode st' = mode st /\ dir1 st' = nextDir1 st /\ nextDir1 st' = nextDir1 st /\
  dir2 st' = (match mode st with PVP => nextDir2 st | PVC => dir2 st end) /\
  nextDir2 st' = nextDir2 st.
Proof.
  unfold move. intros H. run.
  match goal with H : moveP1 _ _ _ = Done _ |- _ => apply moveP1_setup in H end.
  match goal with H : moveP2 _ _ _ _ = Done _ |- _ => apply moveP2_setup in H end.
  match goal with H : moveAI _ _ _ = Done _ |- _ => apply moveAI_setup in H end.
  match goal with
  | H1 : sameSetup _ (world ?a), H2 : sameSetup (world ?a) (world ?b),
    H3 : sameSetup (world ?b) (world ?c) |- _ =>
      pose proof (sameSetup_trans _ _ _ H1
                    (sameSetup_trans _ _ _ H2
                       (sameSetup_trans _ _ _ H3 (resolveGameOver_setup c)))) as S
  end.
  destruct S as (Sm & S1 & Sn1 & S2 & Sn2).
  unfold commitDirs in *. cbn in *.
  destruct (mode st) eqn:Em; cbn in *; repeat split; congruence.
Qed.

(** *** Direction intents *)

Lemma reverse_fixed (d : Point) : d = reverse d -> d = origin.
Proof.
  destruct d as [a b]. unfold reverse, origin. simpl. intros E.
  inversion E. f_equal; lia.
Qed.

(** What a guarded assignment of [nextDir1] or [nextDir2] leaves alone. *)
Lemma when_next1_frame (c : bool) (d : Point) (st : Game) :
  let st' := when c (set_nextDir1 d) st in
  gameState st' = gameState st /\ mode st' = mode st /\
  dir1 st' = dir1 st /\ dir2 st' = dir2 st /\ nextDir2 st' = nextDir2 st.
Proof. destruct c; repeat split. Qed.

Lemma when_next2_frame (c : bool) (d : Point) (st : Game) :
  let st' := when c (set_nextDir2 d) st in
  gameState st' = gameState st /\ mode st' = mode st /\
  dir1 st' = dir1 st /\ dir2 st' = dir2 st /\ nextDir1 st' = nextDir1 st.
Proof. destruct c; repeat split. Qed.

Lemma dir1_when1 c d st : dir1 (when c (set_nextDir1 d) st) = dir1 st.
Proof. now destruct c. Qed.
Lemma dir2_when1 c d st : dir2 (when c (set_nextDir1 d) st) = dir2 st.
Proof. now destruct c. Qed.
Lemma mode_when1 c d st : mode (when c (set_nextDir1 d) st) = mode st.
Proof. now destruct c. Qed.
Lemma dir1_when2 c d st : dir1 (when c (set_nextDir2 d) st) = dir1 st.
Proof. now destruct c. Qed.
Lemma dir2_when2 c d st : dir2 (when c (set_nextDir2 d) st) = dir2 st.
Proof. now destruct c. Qed.
Lemma mode_when2 c d st : mode (when c (set_nextDir2 d) st) = mode st.
Proof. now destruct c. Qed.
Lemma nextDir1_when2 c d st : nextDir1 (when c (set_nextDir2 d) st) = nextDir1 st.
Proof. now destruct c. Qed.
Lemma nextDir2_when1 c d st : nextDir2 (when c (set_nextDir1 d) st) = nextDir2 st.
Proof. now destruct c. Qed.
Lemma gameState_when1 c d st : gameState (when c (set_nextDir1 d) st) = gameState st.
Proof. now destruct c. Qed.
Lemma gameState_when2 c d st : gameState (when c (set_nextDir2 d) st) = gameState st.
Proof. now destruct c. Qed.

Create Rewrite HintDb guarded.
#[local] Hint Rewrite dir1_when1 dir2_when1 mode_when1 dir1_when2 dir2_when2
  mode_when2 nextDir1_when2 nextDir2_when1 gameState_when1 gameState_when2
  : guarded.

Lemma when_next1_steady (c : bool) (d : Point) (st : Game) :
  steady st ->
  (c = true -> d <> origin /\ d <> reverse (dir1 st)) ->
  steady (when c (set_nextDir1 d) st).
Proof.
  intros S H. destruct c; [|exact S]. destruct (H eq_refl) as [H1 H2].
  destruct S as ((A1 & B1 & C1) & S2). split; [|exact S2].
  cbn. repeat split; assumption.
Qed.

Lemma when_next2_steady (c : bool) (d : Point) (st : Game) :
  steady st ->
  (c = true -> d <> origin /\ d <> reverse (dir2 st)) ->
  steady (when c (set_nextDir2 d) st).
Proof.
  intros S H. destruct c; [|exact S]. destruct (H eq_refl) as [H1 H2].
  destruct S as (S1 & (A2 & B2 & C2)). split; [exact S1|].
  cbn. repeat split; assumption.
Qed.

Ltac eqb_facts :=
  repeat match goal with
         | H : (_ =? _) = true |- _ => apply Z.eqb_eq in H
         | H : (_ =? _) = false |- _ => apply Z.eqb_neq in H
         | H : negb _ = true |- _ => apply negb_true_iff in H
         | H : negb _ = false |- _ => apply negb_false_iff in H
         | H : (_ && _) = true |- _ => apply andb_true_iff in H; destruct H
         end.

(** A turn onto the other axis is neither null nor a U-turn. *)
Ltac not_turn :=
  let E := fresh "E" in
  let C := fresh "C" in
  autorewrite with guarded; intros C; eqb_facts;
  split; intros E; unfold reverse, origin in E; inversion E; lia.

Lemma handleInput_steady (key : string) (st : Game) :
  steady st -> steady (handleInput key st).
Proof.
  intros S. unfold handleInput.
  destruct (gameState st); try exact S.
  cbv zeta. autorewrite with guarded.
    assert (S1 : steady
      (when (String.eqb (toLowerCase key) "arrowright" && (x (dir1 st) =? 0))
         (set_nextDir1 (mkPoint 1 0))
      (when (String.eqb (toLowerCase key) "arrowleft" && (x (dir1 st) =? 0))
         (set_nextDir1 (mkPoint (-1) 0))
      (when (String.eqb (toLowerCase key) "arrowdown" && (y (dir1 st) =? 0))
         (set_nextDir1 (mkPoint 0 1))
      (when (String.eqb (toLowerCase key) "arrowup" && (y (dir1 st) =? 0))
         (set_nextDir1 (mkPoint 0 (-1))) st))))).
    { repeat (apply when_next1_steady; [|not_turn]). exact S. }
    destruct (mode st); [exact S1|].
    repeat (apply when_next2_steady; [|not_turn]). exact S1.
Qed.

Lemma handleJoystick_steady (dx dy : Z) (st : Game) :
  steady st -> steady (handleJoystick dx dy st).
Proof.
  intros S. unfold handleJoystick. cbv zeta. autorewrite with guarded.
  repeat (apply when_next1_steady; [|not_turn]). exact S.
Qed.


Lemma submitIntent_frame (i : Intent) (st : Game) :
  gameState st = playing ->
  gameState (submitIntent i st) = playing /\
  mode (submitIntent i st) = mode st /\
  dir1 (submitIntent i st) = dir1 st /\ dir2 (submitIntent i st) = dir2 st.
Proof.
  intros P. destruct i as [key | dx dy]; simpl.
  - unfold handleInput. rewrite P. cbv zeta. autorewrite with guarded.
    destruct (mode st) eqn:M; autorewrite with guarded; auto.
  - unfold handleJoystick. cbv zeta. autorewrite with guarded. auto.
Qed.

Lemma submitIntent_steady (i : Intent) (st : Game) :
  steady st -> steady (submitIntent i st).
Proof.
  destruct i; simpl; [apply handleInput_steady | apply handleJoystick_steady].
Qed.

Lemma submitAll_invariant (intents : list Intent) (st : Game) :
  gameState st = playing -> steady st ->
  steady (submitAll intents st) /\
  gameState (submitAll intents st) = playing /\
  mode (submitAll intents st) = mode st /\
  dir1 (submitAll intents st) = dir1 st /\ dir2 (submitAll intents st) = dir2 st.
Proof.
  unfold submitAll. revert st.
  induction intents as [|i intents IH]; intros st P S; simpl; [auto|].
  destruct (submitIntent_frame i st P) as (P' & M' & D1 & D2).
  destruct (IH (submitIntent i st) P' (submitIntent_steady i st S))
    as (S'' & P'' & M'' & D1' & D2').
  split; [exact S''|]. repeat split; congruence.
Qed.

Lemma powerupTimers_setup (st : Game) : sameSetup st (powerupTimers st).
Proof. unfold powerupTimers. frame. Qed.

(** The committed directions after [update], in terms of the state it
    started from. *)
Lemma update_dirs (dt : Q) rnd fuel st st' :
  update dt rnd fuel st = Done st' ->
  (dir1 st' = dir1 st \/ dir1 st' = nextDir1 st) /\
  (dir2 st' = dir2 st \/ dir2 st' = nextDir2 st) /\
  nextDir1 st' = nextDir1 st /\ nextDir2 st' = nextDir2 st.
Proof.
  unfold update. intros H.
  pose proof (powerupTimers_setup (set_moveTimer (toDouble (moveTimer st + dt)) st))
    as (Sm & S1 & Sn1 & S2 & Sn2).
  cbn in Sm, S1, Sn1, S2, Sn2.
  match type of H with (if ?c then _ else _) = _ => destruct c end.
  - apply move_setup in H. destruct H as (Hm & H1 & Hn1 & H2 & Hn2).
    rewrite Sn1 in H1, Hn1. rewrite Sn2 in Hn2. rewrite Sm, S2, Sn2 in H2.
    split; [right; exact H1|]. split; [|split; assumption].
    destruct (mode st); [left | right]; exact H2.
  - inversion H; subst. repeat split; try congruence; left; congruence.
Qed.

(** [steady] is an invariant of the frame loop. *)
Lemma update_steady (dt : Q) rnd fuel st st' :
  steady st -> update dt rnd fuel st = Done st' -> steady st'.
Proof.
  intros ((A1 & B1 & C1) & (A2 & B2 & C2)) H.
  apply update_dirs in H. destruct H as (H1 & H2 & Hn1 & Hn2).
  unfold steady. rewrite Hn1, Hn2.
  split; (split; [|split; [assumption|]]).
  - destruct H1 as [-> | ->]; assumption.
  - destruct H1 as [-> | ->]; [assumption|].
    intros E. apply reverse_fixed in E. contradiction.
  - destruct H2 as [-> | ->]; assumption.
  - destruct H2 as [-> | ->]; [assumption|].
    intros E. apply reverse_fixed in E. contradiction.
Qed.

Lemma keyDir1_cases (key : string) (d : Point) :
  keyDir1 key = Some d ->
  (toLowerCase key = "arrowup"%string /\ d = up) \/
  (toLowerCase key = "arrowdown"%string /\ d = down) \/
  (toLowerCase key = "arrowleft"%string /\ d = left) \/
  (toLowerCase key = "arrowright"%string /\ d = right).
Proof.
  unfold keyDir1. cbv zeta.
  destruct (String.eqb_spec (toLowerCase key) "arrowup");
    [intros E; inversion E; auto|].
  destruct (String.eqb_spec (toLowerCase key) "arrowdown");
    [intros E; inversion E; auto|].
  destruct (String.eqb_spec (toLowerCase key) "arrowleft");
    [intros E; inversion E; auto|].
  destruct (String.eqb_spec (toLowerCase key) "arrowright");
    [intros E; inversion E; auto 6|].
  discriminate.
Qed.

Lemma unitDir_axis (c : Point) :
  unitDir c -> (x c = 0 /\ y c <> 0) \/ (y c = 0 /\ x c <> 0).
Proof. intros [-> | [-> | [-> | ->]]]; cbn; lia. Qed.

(** What [handleInput] does with an arrow key. *)
Lemma handleInput_arrow (key : string) (d : Point) (st : Game) :
  gameState st = playing -> unitDir (dir1 st) -> keyDir1 key = Some d ->
  (d <> dir1 st /\ d <> reverse (dir1 st) -> nextDir1 (handleInput key st) = d) /\
  (d = dir1 st \/ d = reverse (dir1 st) -> handleInput key st = st).
Proof.
  intros P U K. apply keyDir1_cases in K.
  unfold handleInput. rewrite P. cbv zeta. autorewrite with guarded.
  destruct K as [[-> ->] | [[-> ->] | [[-> ->] | [-> ->]]]]; cbn;
    destruct (mode st); destruct U as [E | [E | [E | E]]]; rewrite E; cbn;
    (split; [intros [N1 N2] | intros [N | N]]);
    try reflexivity;
    try (exfalso; apply N1; reflexivity);
    try (exfalso; apply N2; reflexivity);
    try discriminate N.
Qed.

(** The same for the keys of player 2, in a two-player game. *)
Lemma keyDir2_cases (key : string) (d : Point) :
  keyDir2 key = Some d ->
  (toLowerCase key = "w"%string /\ d = up) \/
  (toLowerCase key = "s"%string /\ d = down) \/
  (toLowerCase key = "a"%string /\ d = left) \/
  (toLowerCase key = "d"%string /\ d = right).
Proof.
  unfold keyDir2. cbv zeta.
  destruct (String.eqb_spec (toLowerCase key) "w");
    [intros E; inversion E; auto|].
  destruct (String.eqb_spec (toLowerCase key) "s");
    [intros E; inversion E; auto|].
  destruct (String.eqb_spec (toLowerCase key) "a");
    [intros E; inversion E; auto|].
  destruct (String.eqb_spec (toLowerCase key) "d");
    [intros E; inversion E; auto 6|].
  discriminate.
Qed.

Lemma handleInput_wasd (key : string) (d : Point) (st : Game) :
  gameState st = playing -> mode st = PVP -> unitDir (dir2 st) ->
  keyDir2 key = Some d ->
  (d <> dir2 st /\ d <> reverse (dir2 st) -> nextDir2 (handleInput key st) = d) /\
  (d = dir2 st \/ d = reverse (dir2 st) -> handleInput key st = st).
Proof.
  intros P M U K. apply keyDir2_cases in K.
  unfold handleInput. rewrite P. cbv zeta. autorewrite with guarded. rewrite M.
  destruct K as [[-> ->] | [[-> ->] | [[-> ->] | [-> ->]]]]; cbn;
    destruct U as [E | [E | [E | E]]]; rewrite E; cbn;
    (split; [intros [N1 N2] | intros [N | N]]);
    try reflexivity;
    try (exfalso; apply N1; reflexivity);
    try (exfalso; apply N2; reflexivity);
    try discriminate N.
Qed.

(** C5, as stated, fails: with the snake heading up and a left turn
    pending, the intent "up" is not the opposite of the committed
    direction, yet it is not accepted: the pending turn stays. *)
Lemma same_heading_intent_ignored :
  let st := solo [mkPoint 15 10] up left (mkPoint 20 5) None (mkPoint 3 3) 0 in
  keyDir1 "ArrowUp" = Some up /\
  up <> reverse (dir1 st) /\
  nextDir1 (handleInput "ArrowUp" st) <> up.
Proof. cbv zeta. repeat split; vm_compute; discriminate. Qed.

(** C5 (amended): a direction intent is accepted exactly when it is
    perpendicular to the committed direction, that is neither its direct
    opposite nor that direction itself; any other intent is silently
    ignored, the state being left as it was.  Consequently, after any
    sequence of intents followed by a frame of [update], the committed
    direction of a snake is never the opposite of the one committed
    before. *)
Theorem intents_turn_never_reverse (st : Game)
    (P : gameState st = playing) (S : steady st)
    (U1 : unitDir (dir1 st)) (U2 : unitDir (dir2 st)) :
  (forall key d, keyDir1 key = Some d ->
     (d <> dir1 st /\ d <> reverse (dir1 st) ->
      nextDir1 (handleInput key st) = d) /\
     (d = dir1 st \/ d = reverse (dir1 st) -> handleInput key st = st)) /\
  (forall key d, mode st = PVP -> keyDir2 key = Some d ->
     (d <> dir2 st /\ d <> reverse (dir2 st) ->
      nextDir2 (handleInput key st) = d) /\
     (d = dir2 st \/ d = reverse (dir2 st) -> handleInput key st = st)) /\
  (forall intents dt rnd fuel st',
     update dt rnd fuel (submitAll intents st) = Done st' ->
     dir1 st' <> reverse (dir1 st) /\ dir2 st' <> reverse (dir2 st)).
Proof.
  split; [|split].
  - intros key d K. now apply handleInput_arrow.
  - intros key d M K. now apply handleInput_wasd.
  - intros intents dt rnd fuel st' H.
    destruct (submitAll_invariant intents st P S)
      as (((A1 & B1 & C1) & (A2 & B2 & C2)) & _ & _ & D1 & D2).
    apply update_dirs in H. destruct H as (H1 & H2 & _).
    rewrite D1 in *. rewrite D2 in *. split.
    + destruct H1 as [-> | ->]; [|assumption].
      intros E. apply reverse_fixed in E. contradiction.
    + destruct H2 as [-> | ->]; [|assumption].
      intros E. apply reverse_fixed in E. contradiction.
Qed.

Lemma intents_turn_never_reverse_witness :
  let st := solo [mkPoint 15 10] up up (mkPoint 20 5) None (mkPoint 3 3) 0 in
  nextDir1 (handleInput "ArrowLeft" st) = left /\
  handleInput "ArrowDown" st = st /\
  exists st',
    update longFrame (dice (mkPoint 9 9) false) 3
      (submitAll [Key "ArrowLeft"; Key "ArrowDown"; Pad 1 0] st) = Done st' /\
    dir1 st' = right /\ dir1 st' <> reverse (dir1 st).
Proof.
  cbv zeta.
  set (st := solo [mkPoint 15 10] up up (mkPoint 20 5) None (mkPoint 3 3) 0).
  assert (P : gameState st = playing) by reflexivity.
  assert (S : steady st) by (repeat split; discriminate).
  assert (U1 : unitDir (dir1 st)) by (left; reflexivity).
  assert (U2 : unitDir (dir2 st)) by (left; reflexivity).
  destruct (intents_turn_never_reverse st P S U1 U2) as (K1 & _ & T).
  split; [|split].
  - apply (K1 "ArrowLeft"%string left); [reflexivity|].
    split; discriminate.
  - apply (K1 "ArrowDown"%string down); [reflexivity|].
    right. reflexivity.
  - eexists. split; [vm_compute; reflexivity|]. split; [reflexivity|].
    eapply (T [Key "ArrowLeft"; Key "ArrowDown"; Pad 1 0] longFrame
              (dice (mkPoint 9 9) false) 3%nat).
    vm_compute. reflexivity.
Defined.

(** *** The phases of a move *)

Lemma started_fields (st : Game) :
  snake1 (started st) = snake1 st /\ snake2 (started st) = snake2 st /\
  dir1 (started st) = nextDir1 st /\ mode (started st) = mode st /\
  ghostTimer (started st) = ghostTimer st /\ pacman (started st) = pacman st /\
  pacmanFrozen (started st) = pacmanFrozen st /\ food (started st) = food st /\
  powerup (started st) = powerup st /\ gameState (started st) = gameState st /\
  scores_p1 (started st) = scores_p1 st /\
  dir2 (started st) = (match mode st with PVP => nextDir2 st | PVC => dir2 st end).
Proof.
  unfold started, commitDirs. cbn.
  destruct (mode st) eqn:M; cbn; repeat split; exact M.
Qed.

Lemma move_started rnd fuel st :
  move rnd fuel st =
  (r <- moveP1 rnd fuel (started st) ;;
   let '(head1, t) := r in
   t <- moveP2 rnd fuel head1 t ;;
   t <- moveAI rnd fuel t ;;
   Done (resolveGameOver t)).
Proof. reflexivity. Qed.

(** Pacman away from the new head, "Handle Pacman Interaction" does nothing. *)
Lemma pacmanInteraction_away rnd fuel head1 dead st :
  chaserAt st head1 = false ->
  pacmanInteraction rnd fuel head1 dead st = Done (st, dead, false).
Proof.
  unfold chaserAt, pacmanInteraction.
  destruct (mode st); [|reflexivity].
  destruct (pacman st); [|reflexivity]. now intros ->.
Qed.

(** A dead snake stays dead until the end of the move, and its body is
    left to the snake alone. *)
Lemma collisionsP2_keeps head1 head2 t d1 d2 :
  collisionsP2 head1 head2 t = (d1, d2) ->
  (p1Dead t = true -> d1 = true) /\ (p2Dead t = true -> d2 = true).
Proof.
  unfold collisionsP2.
  destruct (ghostTimer (world t) =? 0); [destruct (samePoint head1 head2)|];
    intros E; inversion E; subst; split; auto.
  intros ->. reflexivity.
Qed.

Lemma moveP2_after rnd fuel head1 t t' :
  moveP2 rnd fuel head1 t = Done t' ->
  (p1Dead t = true -> p1Dead t' = true) /\
  snake1 (world t') = snake1 (world t) /\
  scores_p1 (world t') = scores_p1 (world t) /\
  gameState (world t') = gameState (world t).
Proof.
  unfold moveP2. intros H.
  destruct (mode (world t)); [inversion H; subst; auto|].
  apply bind_Done in H. destruct H as (head2 & _ & H).
  destruct (collisionsP2 head1 head2 t) as [d1 d2] eqn:C.
  apply collisionsP2_keeps in C. destruct C as [C _].
  unfold advanceP2 in H. run;
    cbn; unfold_helpers; cbn; split_tests; repeat split; auto.
Qed.

Lemma moveAI_after rnd fuel t t' :
  moveAI rnd fuel t = Done t' ->
  (p1Dead t = true -> p1Dead t' = true) /\
  (p2Dead t' = p2Dead t) /\
  snake1 (world t') = snake1 (world t) /\
  snake2 (world t') = snake2 (world t) /\
  scores_p1 (world t') = scores_p1 (world t) /\
  scores_p2 (world t') = scores_p2 (world t) /\
  gameState (world t') = gameState (world t).
Proof.
  unfold moveAI. intros H. run;
    cbn; unfold_helpers; cbn; split_tests; repeat split; auto.
Qed.

Lemma moveAI_PVP rnd fuel t :
  mode (world t) = PVP -> moveAI rnd fuel t = Done t.
Proof. unfold moveAI. now intros ->. Qed.

Lemma resolveGameOver_fields (t : Tick) :
  snake1 (resolveGameOver t) = snake1 (world t) /\
  snake2 (resolveGameOver t) = snake2 (world t) /\
  scores_p1 (resolveGameOver t) = scores_p1 (world t) /\
  scores_p2 (resolveGameOver t) = scores_p2 (world t) /\
  (p1Dead t = true \/ p2Dead t = true -> gameState (resolveGameOver t) = gameover) /\
  (p1Dead t = false -> p2Dead t = false -> resolveGameOver t = world t).
Proof.
  unfold resolveGameOver.
  destruct (p1Dead t), (p2Dead t); cbn; repeat split; auto;
    try (intros [E | E]; discriminate E); try discriminate.
Qed.


(** *** Self-collision *)

(** A plain step: no food and no power-up under the new head; the head
    is pushed and, unless Pacman was eaten, the tail is popped. *)
Lemma advanceP1_plain rnd fuel head1 eaten st :
  samePoint head1 (food st) = false ->
  powerupAt st head1 = false ->
  advanceP1 rnd fuel head1 eaten st
  = Done (set_snake1 (if eaten then head1 :: snake1 st
                      else removelast (head1 :: snake1 st)) st).
Proof.
  intros Hfood Hpu. unfold advanceP1. cbv zeta.
  change (food (set_snake1 (head1 :: snake1 st) st)) with (food st).
  rewrite Hfood.
  change (powerup (set_snake1 (head1 :: snake1 st) st)) with (powerup st).
  unfold powerupAt in Hpu.
  destruct (powerup st) as [pu|]; [rewrite Hpu|]; destruct eaten; reflexivity.
Qed.






(** *** The ghost guard *)

(** What "Move P1" never touches, and what it does to the ghost timer. *)
Lemma moveP1_after rnd fuel st head1 t :
  moveP1 rnd fuel st = Done (head1, t) ->
  nextHead (snake1 st) (dir1 st) = Done head1 /\
  snake2 (world t) = snake2 st /\
  gameState (world t) = gameState st /\
  p2Dead t = false /\
  (ghostTimer (world t) = ghostTimer st \/ ghostTimer (world t) = GHOST_DURATION).
Proof.
  unfold moveP1. intros H.
  apply bind_Done in H. destruct H as (h & Hh & H).
  apply bind_Done in H. destruct H as (((s1 & d) & e) & Hp & H).
  apply bind_Done in H. destruct H as (s2 & Ha & H).
  inversion H; subst; clear H. cbn.
  split; [exact Hh|].
  assert (P : snake2 s1 = snake2 st /\ gameState s1 = gameState st /\
              ghostTimer s1 = ghostTimer st).
  { unfold pacmanInteraction in Hp. run; cbn; auto. }
  destruct P as (P1 & P2 & P3).
  assert (A : snake2 s2 = snake2 s1 /\ gameState s2 = gameState s1 /\
              (ghostTimer s2 = ghostTimer s1 \/ ghostTimer s2 = GHOST_DURATION)).
  { destruct (negb d).
    - unfold advanceP1, placePowerup in Ha. run;
        cbn; unfold_helpers; cbn; split_tests; auto.
    - inversion Ha; subst. auto. }
  destruct A as (A1 & A2 & A3).
  rewrite A1, A2, P1, P2. repeat split; try reflexivity.
  rewrite <- P3. exact A3.
Qed.

(** In a two-player game with the ghost timer running, player 1 comes
    out of "Move P1" alive. *)
Lemma moveP1_ghost rnd fuel st head1 t :
  mode st = PVP -> ghostTimer st <> 0 ->
  moveP1 rnd fuel st = Done (head1, t) ->
  p1Dead t = false /\ ghostTimer (world t) <> 0.
Proof.
  intros M G H. pose proof (moveP1_after _ _ _ _ _ H) as (_ & _ & _ & _ & T).
  split.
  - unfold moveP1 in H.
    apply bind_Done in H. destruct H as (h & Hh & H).
    assert (C : collisionsP1 h st = false).
    { unfold collisionsP1. apply Z.eqb_neq in G. now rewrite G. }
    rewrite C in H.
    assert (Pc : chaserAt st h = false) by (unfold chaserAt; now rewrite M).
    rewrite (pacmanInteraction_away rnd fuel h false st Pc) in H.
    unfold bind at 1 in H.
    apply bind_Done in H. destruct H as (s2 & _ & H).
    inversion H; subst. reflexivity.
  - destruct T as [-> | ->]; [exact G | discriminate].
Qed.

Lemma collisionsP2_ghost head1 head2 t :
  ghostTimer (world t) <> 0 ->
  collisionsP2 head1 head2 t = (p1Dead t, p2Dead t).
Proof.
  intros G. unfold collisionsP2. apply Z.eqb_neq in G. now rewrite G.
Qed.

Lemma moveP2_flags rnd fuel head1 t t' :
  moveP2 rnd fuel head1 t = Done t' ->
  mode (world t) = PVP ->
  exists head2,
    nextHead (snake2 (world t)) (dir2 (world t)) = Done head2 /\
    (p1Dead t', p2Dead t') = collisionsP2 head1 head2 t.
Proof.
  unfold moveP2. intros H M. rewrite M in H.
  apply bind_Done in H. destruct H as (head2 & Hh & H).
  exists head2. split; [exact Hh|].
  destruct (collisionsP2 head1 head2 t) as [d1 d2].
  apply bind_Done in H. destruct H as (s2 & _ & H).
  inversion H; subst. reflexivity.
Qed.

(** While the ghost timer runs, a move of a two-player game kills nobody. *)
Lemma move_under_ghost rnd fuel st st' :
  mode st = PVP -> ghostTimer st <> 0 ->
  move rnd fuel st = Done st' ->
  gameState st' = gameState st.
Proof.
  intros M G H. rewrite move_started in H.
  destruct (started_fields st) as (_ & _ & _ & Ms & Gs & _ & _ & _ & _ & Ss & _).
  apply bind_Done in H. destruct H as ((head1 & t) & H1 & H).
  apply bind_Done in H. destruct H as (t2 & H2 & H).
  apply bind_Done in H. destruct H as (t3 & H3 & H).
  inversion H; subst; clear H.
  assert (Ms' : mode (started st) = PVP) by congruence.
  assert (Gs' : ghostTimer (started st) <> 0) by congruence.
  destruct (moveP1_ghost _ _ _ _ _ Ms' Gs' H1) as (D1 & G1).
  destruct (moveP1_after _ _ _ _ _ H1) as (_ & _ & S1 & D2 & _).
  destruct (moveP1_setup _ _ _ _ _ H1) as (M1 & _).
  assert (M1' : mode (world t) = PVP) by congruence.
  destruct (moveP2_flags _ _ _ _ _ H2 M1') as (head2 & _ & F).
  rewrite (collisionsP2_ghost head1 head2 t G1) in F.
  destruct (moveP2_after _ _ _ _ _ H2) as (_ & _ & _ & S2).
  destruct (moveP2_setup _ _ _ _ _ H2) as (M2 & _).
  rewrite moveAI_PVP in H3 by congruence.
  inversion H3; subst; clear H3.
  inversion F as [[F1 F2]].
  destruct (resolveGameOver_fields t3) as (_ & _ & _ & _ & _ & R).
  rewrite R by congruence. congruence.
Qed.

(** *** Head to head *)

(** C2, as stated, fails: under a running ghost timer the two new heads
    meet on one cell and both snakes live on, one on top of the other. *)
Lemma ghosts_pass_head_to_head :
  nextHead (snake1 (faceToFace 5)) (nextDir1 (faceToFace 5)) = Done (mkPoint 9 10) /\
  nextHead (snake2 (faceToFace 5)) (nextDir2 (faceToFace 5)) = Done (mkPoint 9 10) /\
  exists st',
    update longFrame (dice (mkPoint 0 0) false) 3 (faceToFace 5) = Done st' /\
    gameState st' = playing /\
    snake1 st' = [mkPoint 9 10] /\ snake2 st' = [mkPoint 9 10].
Proof.
  do 2 (split; [reflexivity|]).
  eexists. split; [vm_compute; reflexivity|]. repeat split.
Qed.

(** C2 (amended): in a two-player move in which the two next heads
    coincide, both snakes die and the round is a draw provided the ghost
    timer is at 0 when the checks of player 2 run; the head-to-head test
    stands under the same ghost guard as the two body tests, so that while
    the ghost timer runs the coinciding heads go unnoticed and the move
    kills neither snake. *)
Theorem head_to_head_under_ghost_guard (st : Game) (rnd : Rand) (fuel : nat)
    (head : Point) (t : Tick)
    (M : mode st = PVP)
    (H1 : moveP1 rnd fuel (started st) = Done (head, t))
    (H2 : nextHead (snake2 st) (nextDir2 st) = Done head) :
  (ghostTimer (world t) = 0 ->
   move rnd fuel st = Done (resolveGameOver (mkTick (world t) true true)) /\
   gameState (resolveGameOver (mkTick (world t) true true)) = gameover /\
   gameOverReason (resolveGameOver (mkTick (world t) true true)) = "DRAW!"%string) /\
  (ghostTimer st <> 0 ->
   p1Dead t = false /\
   collisionsP2 head head t = (false, false) /\
   forall st', move rnd fuel st = Done st' -> gameState st' = gameState st).
Proof.
  destruct (started_fields st)
    as (_ & S2 & _ & Ms & Gs & _ & _ & _ & _ & _ & _ & D2).
  rewrite M in D2.
  destruct (moveP1_after _ _ _ _ _ H1) as (_ & K2 & _ & P2 & _).
  destruct (moveP1_setup _ _ _ _ _ H1) as (M1 & _ & _ & Dd & _).
  assert (M1' : mode (world t) = PVP) by congruence.
  split.
  - intros G0. split; [|split].
    + rewrite move_started, H1. unfold bind at 1.
      unfold moveP2. rewrite M1', K2, Dd, S2, D2, H2. unfold bind at 2.
      unfold collisionsP2. rewrite G0. rewrite samePoint_refl.
      change (0 =? 0) with true. cbv iota beta. unfold negb.
      unfold bind at 2. unfold bind at 1.
      rewrite moveAI_PVP by exact M1'. reflexivity.
    + apply resolveGameOver_fields. left. reflexivity.
    + unfold resolveGameOver. cbn. rewrite M1'. reflexivity.
  - intros G.
    assert (Ms' : mode (started st) = PVP) by congruence.
    assert (Gs' : ghostTimer (started st) <> 0) by congruence.
    destruct (moveP1_ghost _ _ _ _ _ Ms' Gs' H1) as (D1 & G1).
    split; [exact D1|]. split.
    + rewrite (collisionsP2_ghost head head t G1). now rewrite D1, P2.
    + intros st' H. now apply (move_under_ghost rnd fuel st st').
Qed.

Lemma head_to_head_under_ghost_guard_witness :
  exists st',
    move (dice (mkPoint 0 0) false) 3 (faceToFace 0) = Done st' /\
    gameState st' = gameover /\ gameOverReason st' = "DRAW!"%string.
Proof.
  assert (H1 : moveP1 (dice (mkPoint 0 0) false) 3 (started (faceToFace 0))
               = Done (mkPoint 9 10,
                       mkTick (set_snake1 [mkPoint 9 10] (started (faceToFace 0)))
                         false false))
    by (vm_compute; reflexivity).
  destruct (head_to_head_under_ghost_guard (faceToFace 0)
              (dice (mkPoint 0 0) false) 3 (mkPoint 9 10) _
              eq_refl H1 eq_refl) as [D _].
  destruct (D eq_refl) as (A & B & C).
  eexists. split; [exact A|]. split; [exact B | exact C].
Defined.

(** *** Collecting a power-up *)

Lemma advanceP1_collect rnd fuel head1 eaten st pu :
  samePoint head1 (food st) = false ->
  powerup st = Some pu ->
  samePoint head1 (at_ pu) = true ->
  advanceP1 rnd fuel head1 eaten st
  = Done (set_powerup None
            (applyPowerup1 (type pu)
               (playSound snd_powerup
                  (set_scores_p1 (scores_p1 st + 5)
                     (set_snake1 (head1 :: snake1 st) st))))).
Proof.
  intros Hfood Hpu Hat. unfold advanceP1. cbv zeta.
  change (food (set_snake1 (head1 :: snake1 st) st)) with (food st).
  rewrite Hfood.
  change (powerup (set_snake1 (head1 :: snake1 st) st)) with (powerup st).
  rewrite Hpu, Hat. reflexivity.
Qed.

Lemma advanceP2_collect rnd fuel head2 st pu :
  samePoint head2 (food st) = false ->
  powerup st = Some pu ->
  samePoint head2 (at_ pu) = true ->
  advanceP2 rnd fuel head2 st
  = Done (set_powerup None
            (applyPowerup2 (type pu)
               (playSound snd_powerup
                  (set_scores_p2 (scores_p2 st + 5)
                     (set_snake2 (head2 :: snake2 st) st))))).
Proof.
  intros Hfood Hpu Hat. unfold advanceP2. cbv zeta.
  change (food (set_snake2 (head2 :: snake2 st) st)) with (food st).
  rewrite Hfood.
  change (powerup (set_snake2 (head2 :: snake2 st) st)) with (powerup st).
  rewrite Hpu, Hat. reflexivity.
Qed.

Lemma advanceP2_plain rnd fuel head2 st :
  samePoint head2 (food st) = false ->
  powerupAt st head2 = false ->
  advanceP2 rnd fuel head2 st
  = Done (set_snake2 (removelast (head2 :: snake2 st)) st).
Proof.
  intros Hfood Hpu. unfold advanceP2. cbv zeta.
  change (food (set_snake2 (head2 :: snake2 st) st)) with (food st).
  rewrite Hfood.
  change (powerup (set_snake2 (head2 :: snake2 st) st)) with (powerup st).
  unfold powerupAt in Hpu.
  destruct (powerup st) as [pu|]; [rewrite Hpu|]; reflexivity.
Qed.

Lemma powerupTimers_ghost (st : Game) :
  ghostTimer (powerupTimers st)
  = if ghostTimer st >? 0 then ghostTimer st - 1 else ghostTimer st.
Proof.
  unfold powerupTimers. cbv zeta.
  destruct (speedBoostTimer st >? 0); cbn;
    [destruct (speedBoostTimer st - 1 =? 0); cbn|];
    destruct (ghostTimer st >? 0); reflexivity.
Qed.

(** *** One ghost timer *)

(** C10: the ghost timer is one cell shared by the two snakes.  A Ghost
    power-up collected by either snake sets it to its full duration;
    while it is not 0 the body checks of player 1 and all the checks of
    player 2 are skipped, whoever collected the power-up, so that a move
    of a two-player game kills nobody; it is counted down by one on every
    frame and, once at 0, the checks are run again. *)
Theorem one_ghost_timer_for_both (st : Game) (rnd : Rand) (fuel : nat)
    (M : mode st = PVP) :
  (forall head pu eaten,
     samePoint head (food st) = false -> powerup st = Some pu ->
     samePoint head (at_ pu) = true -> type pu = GHOST ->
     exists st', advanceP1 rnd fuel head eaten st = Done st' /\
                 ghostTimer st' = GHOST_DURATION) /\
  (forall head pu,
     samePoint head (food st) = false -> powerup st = Some pu ->
     samePoint head (at_ pu) = true -> type pu = GHOST ->
     exists st', advanceP2 rnd fuel head st = Done st' /\
                 ghostTimer st' = GHOST_DURATION) /\
  (ghostTimer st <> 0 ->
   (forall head1, collisionsP1 head1 st = false) /\
   (forall head1 head2 d1 d2,
      collisionsP2 head1 head2 (mkTick st d1 d2) = (d1, d2)) /\
   (forall st', move rnd fuel st = Done st' -> gameState st' = gameState st)) /\
  ghostTimer (powerupTimers st)
  = (if ghostTimer st >? 0 then ghostTimer st - 1 else ghostTimer st) /\
  (ghostTimer st = 0 ->
   (forall head1,
      collisionsP1 head1 st
      = checkCollision head1 (snake1 st) || checkCollision head1 (snake2 st)) /\
   (forall head1 head2,
      collisionsP2 head1 head2 (mkTick st false false)
      = if samePoint head1 head2 then (true, true)
        else (false, checkCollision head2 (snake2 st)
                     || checkCollision head2 (snake1 st)))).
Proof.
  split; [|split; [|split; [|split]]].
  - intros head pu eaten Hf Hp Ha Hk. eexists. split.
    + apply advanceP1_collect; eassumption.
    + rewrite Hk. reflexivity.
  - intros head pu Hf Hp Ha Hk. eexists. split.
    + apply advanceP2_collect; eassumption.
    + rewrite Hk. reflexivity.
  - intros G. split; [|split].
    + intros head1. unfold collisionsP1. apply Z.eqb_neq in G. now rewrite G.
    + intros head1 head2 d1 d2.
      now rewrite (collisionsP2_ghost head1 head2 (mkTick st d1 d2) G).
    + intros st' H. now apply (move_under_ghost rnd fuel st st').
  - apply powerupTimers_ghost.
  - intros G. split.
    + intros head1. unfold collisionsP1. now rewrite G.
    + intros head1 head2. unfold collisionsP2. cbn. now rewrite G.
Qed.

Lemma one_ghost_timer_for_both_witness :
  (exists st',
     advanceP1 (dice (mkPoint 0 0) false) 3 (mkPoint 15 9) false ghostAhead
     = Done st' /\ ghostTimer st' = GHOST_DURATION) /\
  collisionsP2 (mkPoint 9 10) (mkPoint 9 10) (mkTick (faceToFace 4) false false)
  = (false, false).
Proof.
  split.
  - destruct (one_ghost_timer_for_both ghostAhead (dice (mkPoint 0 0) false) 3
                eq_refl) as (A & _).
    apply (A (mkPoint 15 9) (mkPowerup (mkPoint 15 9) GHOST) false);
      reflexivity.
  - destruct (one_ghost_timer_for_both (faceToFace 4) (dice (mkPoint 0 0) false) 3
                eq_refl) as (_ & _ & B & _).
    assert (G : ghostTimer (faceToFace 4) <> 0) by discriminate.
    destruct (B G) as (_ & C & _).
    apply (C (mkPoint 9 10) (mkPoint 9 10) false false).
Defined.

(** *** Growth *)

Lemma len_cons (p : Point) (l : list Point) : len (p :: l) = len l + 1.
Proof. unfold len. cbn [List.length]. lia. Qed.

Lemma len_removelast (p : Point) (l : list Point) :
  len (removelast (p :: l)) = len l.
Proof.
  revert p. induction l as [|q l IH]; intros p; [reflexivity|].
  change (removelast (p :: q :: l)) with (p :: removelast (q :: l)).
  rewrite len_cons, IH, len_cons. reflexivity.
Qed.

Lemma len_shrink (l : list Point) : len (shrink l) = shrunk (len l).
Proof.
  unfold shrink, shrunk. destruct (len l >? 3) eqn:E; [|reflexivity].
  unfold len in *. rewrite length_firstn.
  assert (Z.of_nat (List.length l) / 2 <= Z.of_nat (List.length l))
    by (apply Z.div_le_upper_bound; lia).
  lia.
Qed.

(** What "Handle Pacman Interaction" leaves to a snake that is not dead
    after it. *)
Lemma pacmanInteraction_alive rnd fuel head1 dead st s1 eaten :
  pacmanInteraction rnd fuel head1 dead st = Done (s1, false, eaten) ->
  eaten = chaserAt st head1 /\
  snake1 s1 = snake1 st /\ snake2 s1 = snake2 st /\
  food s1 = food st /\ powerup s1 = powerup st /\
  scores_p1 s1 = scores_p1 st + chaserBonus st head1.
Proof.
  unfold pacmanInteraction, chaserBonus, chaserAt. intros H.
  destruct (mode st); [|inversion H; subst; repeat split; lia].
  destruct (pacman st) as [pac|]; [|inversion H; subst; repeat split; lia].
  destruct (samePoint head1 pac); [|inversion H; subst; repeat split; lia].
  destruct (pacmanFrozen st >? 0); [|discriminate H].
  cbv zeta in H. apply bind_Done in H. destruct H as (p & _ & H).
  inversion H; subst. repeat split.
Qed.

Lemma advanceP1_food rnd fuel head1 eaten st st' :
  samePoint head1 (food st) = true ->
  advanceP1 rnd fuel head1 eaten st = Done st' ->
  snake1 st' = head1 :: snake1 st /\ scores_p1 st' = scores_p1 st + 1.
Proof.
  intros Hfood H. unfold advanceP1, placePowerup in H. cbv zeta in H.
  change (food (set_snake1 (head1 :: snake1 st) st)) with (food st) in H.
  rewrite Hfood in H. run; cbn; unfold_helpers; cbn; split_tests; auto.
Qed.

Lemma advanceP2_food rnd fuel head2 st st' :
  samePoint head2 (food st) = true ->
  advanceP2 rnd fuel head2 st = Done st' ->
  snake2 st' = head2 :: snake2 st /\ scores_p2 st' = scores_p2 st + 1.
Proof.
  intros Hfood H. unfold advanceP2 in H. cbv zeta in H.
  change (food (set_snake2 (head2 :: snake2 st) st)) with (food st) in H.
  rewrite Hfood in H. run; cbn; unfold_helpers; cbn; split_tests; auto.
Qed.

(** C3, as stated, fails: a move onto a power-up, away from the food,
    keeps the tail as well and the body grows by one. *)
Lemma powerup_move_grows :
  nextHead (snake1 powerupAhead) (nextDir1 powerupAhead) = Done (mkPoint 15 9) /\
  samePoint (mkPoint 15 9) (food powerupAhead) = false /\
  exists st',
    update longFrame (dice (mkPoint 0 0) false) 3 powerupAhead = Done st' /\
    gameState st' = playing /\
    len (snake1 st') = len (snake1 powerupAhead) + 1.
Proof.
  do 2 (split; [reflexivity|]).
  eexists. split; [vm_compute; reflexivity|]. split; reflexivity.
Qed.

Lemma placeItemFrom_returns (draw : nat -> Point) (exclude : list Point) :
  forall fuel i,
    (exists k, (k < fuel)%nat /\ ~ In (draw (i + k)%nat) exclude) ->
    exists p, placeItemFrom draw exclude fuel i = Done p.
Proof.
  induction fuel as [|fuel IH]; intros i (k & Hk & Hfree); [lia|].
  simpl. destruct (validAgainst (draw i) exclude) eqn:E; [eauto|].
  apply IH. destruct k as [|k].
  - rewrite Nat.add_0_r in Hfree. apply validAgainst_false_In in E.
    contradiction.
  - exists k. split; [lia|].
    replace (S i + k)%nat with (i + S k)%nat by lia. exact Hfree.
Qed.

(** With a free cell among the draws that the fuel allows, [placeItem]
    returns. *)
Lemma placeItem_returns (draw : nat -> Point) (fuel : nat) (exclude : list Point) :
  findsFree draw fuel exclude -> exists p, placeItem draw fuel exclude = Done p.
Proof. intros H. apply placeItemFrom_returns. exact H. Qed.

Lemma advanceP1_returns rnd fuel head1 eaten st :
  (samePoint head1 (food st) = true ->
   let grown := (head1 :: snake1 st) ++ snake2 st in
   findsFree (rndFood1 rnd) fuel (grown ++ powerupCell st) /\
   (powerup st = None -> rndRoll rnd = true ->
    forall f, placeItem (rndFood1 rnd) fuel (grown ++ powerupCell st) = Done f ->
              findsFree (rndPowerup rnd) fuel (grown ++ [f]))) ->
  exists st', advanceP1 rnd fuel head1 eaten st = Done st'.
Proof.
  intros S. destruct (samePoint head1 (food st)) eqn:Hf.
  - destruct (S eq_refl) as (Ff & Fp). cbv zeta in Ff, Fp.
    destruct (placeItem_returns _ _ _ Ff) as (f & Ef).
    unfold advanceP1. cbv zeta.
    change (food (set_snake1 (head1 :: snake1 st) st)) with (food st).
    rewrite Hf.
    assert (I : forall s : Game,
               (snake1 (increaseSpeed s) ++ snake2 (increaseSpeed s))
               ++ powerupCell (increaseSpeed s)
               = (snake1 s ++ snake2 s) ++ powerupCell s /\
               snake1 (increaseSpeed s) = snake1 s /\
               snake2 (increaseSpeed s) = snake2 s /\
               powerup (increaseSpeed s) = powerup s).
    { intros s. unfold increaseSpeed, powerupCell. cbv zeta.
      match goal with |- context [if ?c then _ else _] => destruct c end;
        repeat split. }
    destruct (I (playSound snd_eat
                   (set_scores_p1
                      (scores_p1 (set_snake1 (head1 :: snake1 st) st) + 1)
                      (set_snake1 (head1 :: snake1 st) st))))
      as (I0 & I1 & I2 & I3).
    rewrite I0.
    match goal with |- exists st', bind ?o _ = _ =>
      change o with (placeItem (rndFood1 rnd) fuel
                       (((head1 :: snake1 st) ++ snake2 st) ++ powerupCell st))
    end.
    rewrite Ef. cbn [bind].
    change (powerup (set_food f ?s)) with (powerup s).
    rewrite I3.
    change (powerup (playSound snd_eat _)) with (powerup st).
    destruct (powerup st) as [pu0|] eqn:Epu; [eauto|].
    destruct (rndRoll rnd) eqn:Er; [|eauto].
    change (snake1 (set_food f ?s)) with (snake1 s).
    change (snake2 (set_food f ?s)) with (snake2 s).
    change (food (set_food f ?s)) with f.
    rewrite I1, I2.
    destruct (placeItem_returns _ _ _ (Fp eq_refl eq_refl f Ef)) as (q & Eq).
    unfold placePowerup.
    match goal with |- exists st', bind (bind ?o _) _ = _ =>
      change o with (placeItem (rndPowerup rnd) fuel
                       (((head1 :: snake1 st) ++ snake2 st) ++ [f]))
    end.
    rewrite Eq. cbn [bind]. eauto.
  - destruct (powerupAt st head1) eqn:Hpu.
    + unfold powerupAt in Hpu.
      destruct (powerup st) as [pu|] eqn:E; [|discriminate].
      rewrite (advanceP1_collect _ _ _ _ _ _ Hf E Hpu). eauto.
    + rewrite (advanceP1_plain _ _ _ _ _ Hf Hpu). eauto.
Qed.

Lemma advanceP2_returns rnd fuel head2 st :
  supplied2 rnd fuel st head2 ->
  exists st', advanceP2 rnd fuel head2 st = Done st'.
Proof.
  intros S. destruct (samePoint head2 (food st)) eqn:Hf.
  - destruct (placeItem_returns _ _ _ (S Hf)) as (f & Ef).
    unfold advanceP2. cbv zeta.
    change (food (set_snake2 (head2 :: snake2 st) st)) with (food st).
    rewrite Hf.
    assert (I : forall s : Game,
               (snake1 (increaseSpeed s) ++ snake2 (increaseSpeed s))
               ++ powerupCell (increaseSpeed s)
               = (snake1 s ++ snake2 s) ++ powerupCell s).
    { intros s. unfold increaseSpeed, powerupCell. cbv zeta.
      match goal with |- context [if ?c then _ else _] => destruct c end;
        reflexivity. }
    rewrite I.
    match goal with |- exists st', bind ?o _ = _ =>
      change o with (placeItem (rndFood2 rnd) fuel
                       ((snake1 st ++ head2 :: snake2 st) ++ powerupCell st))
    end.
    rewrite Ef. cbn [bind]. eauto.
  - destruct (powerupAt st head2) eqn:Hpu.
    + unfold powerupAt in Hpu.
      destruct (powerup st) as [pu|] eqn:E; [|discriminate].
      rewrite (advanceP2_collect _ _ _ _ _ Hf E Hpu). eauto.
    + rewrite (advanceP2_plain _ _ _ _ Hf Hpu). eauto.
Qed.

(** A snake that survives, with every placement supplied, ends "Move P1"
    alive. *)
Lemma moveP1_returns rnd fuel st head1 :
  nextHead (snake1 st) (dir1 st) = Done head1 ->
  survives1 st head1 -> supplied1 rnd fuel st head1 ->
  exists t, moveP1 rnd fuel st = Done (head1, t) /\ p1Dead t = false.
Proof.
  intros Hh (Hc & Hz) (Sp & Sf).
  unfold moveP1. rewrite Hh. cbn [bind]. rewrite Hc.
  destruct (chaserAt st head1) eqn:Ec.
  - specialize (Hz eq_refl).
    destruct (placeItem_returns _ _ _ (Sp eq_refl)) as (p & Ep).
    assert (Ei : pacmanInteraction rnd fuel head1 false st
                 = Done (chaserEaten p st, false, true)).
    { unfold pacmanInteraction, chaserAt in *.
      destruct (mode st); [|discriminate Ec].
      destruct (pacman st) as [pac|]; [|discriminate Ec].
      rewrite Ec.
      assert (F : (pacmanFrozen st >? 0) = true) by (apply Z.gtb_lt; lia).
      rewrite F. cbv zeta.
      match goal with |- bind ?o _ = _ =>
        change o with (placeItem (rndPacman rnd) fuel
                         ((snake1 st ++ [food st]) ++ powerupCell st))
      end.
      rewrite Ep. reflexivity. }
    rewrite Ei. cbn [bind negb].
    destruct (advanceP1_returns rnd fuel head1 true (chaserEaten p st) Sf)
      as (s2 & E2).
    rewrite E2. cbn [bind]. eexists. split; reflexivity.
  - rewrite (pacmanInteraction_away _ _ _ _ _ Ec). cbn [bind negb].
    destruct (advanceP1_returns rnd fuel head1 false st Sf) as (s2 & E2).
    rewrite E2. cbn [bind]. eexists. split; reflexivity.
Qed.

Lemma moveP2_returns rnd fuel head1 head2 t :
  mode (world t) = PVP ->
  nextHead (snake2 (world t)) (dir2 (world t)) = Done head2 ->
  snd (collisionsP2 head1 head2 t) = false ->
  supplied2 rnd fuel (world t) head2 ->
  exists t', moveP2 rnd fuel head1 t = Done t' /\ p2Dead t' = false.
Proof.
  intros M Hh Hc S. unfold moveP2. rewrite M, Hh. cbn [bind].
  destruct (collisionsP2 head1 head2 t) as [d1 d2]. cbn [snd] in Hc. subst d2.
  cbn [negb].
  destruct (advanceP2_returns rnd fuel head2 (world t) S) as (s2 & E2).
  rewrite E2. cbn [bind]. eexists. split; reflexivity.
Qed.

Lemma placeItemFrom_found (draw : nat -> Point) (exclude : list Point) (p : Point) :
  forall fuel i,
    placeItemFrom draw exclude fuel i = Done p ->
    exists k, (k < fuel)%nat /\ ~ In (draw (i + k)%nat) exclude.
Proof.
  induction fuel as [|fuel IH]; intros i; simpl; [discriminate|].
  destruct (validAgainst (draw i) exclude) eqn:E.
  - intros _. exists 0%nat. split; [lia|]. rewrite Nat.add_0_r.
    intros K. apply validAgainst_false_In in K. congruence.
  - intros H. destruct (IH (S i) H) as (k & Hk & Hfree).
    exists (S k). split; [lia|].
    replace (i + S k)%nat with (S i + k)%nat by lia. exact Hfree.
Qed.

(** A placement that returns has met a free cell within its fuel. *)
Lemma placeItem_found (draw : nat -> Point) (fuel : nat) (exclude : list Point)
    (p : Point) :
  placeItem draw fuel exclude = Done p -> findsFree draw fuel exclude.
Proof. intros H. exact (placeItemFrom_found draw exclude p fuel 0 H). Qed.

Lemma advanceP1_supplied rnd fuel head1 eaten st st' :
  advanceP1 rnd fuel head1 eaten st = Done st' ->
  samePoint head1 (food st) = true ->
  let grown := (head1 :: snake1 st) ++ snake2 st in
  findsFree (rndFood1 rnd) fuel (grown ++ powerupCell st) /\
  (powerup st = None -> rndRoll rnd = true ->
   forall f, placeItem (rndFood1 rnd) fuel (grown ++ powerupCell st) = Done f ->
             findsFree (rndPowerup rnd) fuel (grown ++ [f])).
Proof.
  intros H Hf. cbv zeta. unfold advanceP1 in H. cbv zeta in H.
  change (food (set_snake1 (head1 :: snake1 st) st)) with (food st) in H.
  rewrite Hf in H.
  apply bind_Done in H. destruct H as (f & Ef & H).
  assert (I : forall s : Game,
             (snake1 (increaseSpeed s) ++ snake2 (increaseSpeed s))
             ++ powerupCell (increaseSpeed s)
             = (snake1 s ++ snake2 s) ++ powerupCell s /\
             snake1 (increaseSpeed s) = snake1 s /\
             snake2 (increaseSpeed s) = snake2 s /\
             powerup (increaseSpeed s) = powerup s).
  { intros s. unfold increaseSpeed, powerupCell. cbv zeta.
    match goal with |- context [if ?c then _ else _] => destruct c end;
      repeat split. }
  destruct (I (playSound snd_eat
                 (set_scores_p1
                    (scores_p1 (set_snake1 (head1 :: snake1 st) st) + 1)
                    (set_snake1 (head1 :: snake1 st) st))))
    as (I0 & I1 & I2 & I3).
  rewrite I0 in Ef.
  change (placeItem (rndFood1 rnd) fuel
            (((head1 :: snake1 st) ++ snake2 st) ++ powerupCell st) = Done f)
    in Ef.
  split; [exact (placeItem_found _ _ _ _ Ef)|].
  intros Epu Er f' Ef'. rewrite Ef in Ef'. injection Ef' as <-.
  change (powerup (set_food f ?s)) with (powerup s) in H.
  rewrite I3 in H.
  change (powerup (playSound snd_eat _)) with (powerup st) in H.
  rewrite Epu, Er in H.
  change (snake1 (set_food f ?s)) with (snake1 s) in H.
  change (snake2 (set_food f ?s)) with (snake2 s) in H.
  change (food (set_food f ?s)) with f in H.
  rewrite I1, I2 in H.
  apply bind_Done in H. destruct H as (pu & Epl & _).
  unfold placePowerup in Epl. apply bind_Done in Epl.
  destruct Epl as (q & Eq & _).
  exact (placeItem_found _ _ _ _ Eq).
Qed.

Lemma advanceP2_supplied rnd fuel head2 st st' :
  advanceP2 rnd fuel head2 st = Done st' -> supplied2 rnd fuel st head2.
Proof.
  intros H Hf. unfold advanceP2 in H. cbv zeta in H.
  change (food (set_snake2 (head2 :: snake2 st) st)) with (food st) in H.
  rewrite Hf in H.
  apply bind_Done in H. destruct H as (f & Ef & _).
  assert (I : forall s : Game,
             (snake1 (increaseSpeed s) ++ snake2 (increaseSpeed s))
             ++ powerupCell (increaseSpeed s)
             = (snake1 s ++ snake2 s) ++ powerupCell s).
  { intros s. unfold increaseSpeed, powerupCell. cbv zeta.
    match goal with |- context [if ?c then _ else _] => destruct c end;
      reflexivity. }
  rewrite I in Ef.
  exact (placeItem_found _ _ _ _ Ef).
Qed.

(** "Handle Pacman Interaction" leaves alive only a snake that passed the
    collision checks and met no Pacman, or a frozen one whose respawn
    was supplied. *)
Lemma pacmanInteraction_survives rnd fuel head1 dead st s1 eaten :
  pacmanInteraction rnd fuel head1 dead st = Done (s1, false, eaten) ->
  dead = false /\
  (chaserAt st head1 = true ->
   pacmanFrozen st > 0 /\
   findsFree (rndPacman rnd) fuel ((snake1 st ++ [food st]) ++ powerupCell st)).
Proof.
  unfold pacmanInteraction, chaserAt. intros H.
  destruct (mode st);
    [|injection H as _ E _; split; [exact E | intros K; discriminate K]].
  destruct (pacman st) as [pac|];
    [|injection H as _ E _; split; [exact E | intros K; discriminate K]].
  destruct (samePoint head1 pac);
    [|injection H as _ E _; split; [exact E | intros K; discriminate K]].
  destruct (pacmanFrozen st >? 0) eqn:F; [|discriminate H].
  cbv zeta in H. apply bind_Done in H. destruct H as (p & Ep & H).
  injection H as _ E _. split; [exact E|]. intros _.
  apply Z.gtb_lt in F. split; [lia|].
  exact (placeItem_found _ _ _ _ Ep).
Qed.

(** The growth of a snake that has ended "Move P1" alive. *)
Lemma moveP1_growth rnd fuel st head1 t :
  moveP1 rnd fuel st = Done (head1, t) -> p1Dead t = false ->
  let L := len (snake1 st) in
  let L' := len (snake1 (world t)) in
  let gain := scores_p1 (world t) - scores_p1 st - chaserBonus st head1 in
  (samePoint head1 (food st) = true -> L' = L + 1 /\ gain = 1) /\
  (samePoint head1 (food st) = false ->
   forall pu, powerup st = Some pu -> samePoint head1 (at_ pu) = true ->
     L' = (match type pu with SHRINK => shrunk (L + 1) | _ => L + 1 end) /\
     gain = 5) /\
  (samePoint head1 (food st) = false -> powerupAt st head1 = false ->
   L' = (if chaserAt st head1 then L + 1 else L) /\ gain = 0).
Proof.
  intros H Alive. cbv zeta.
  unfold moveP1 in H.
  apply bind_Done in H. destruct H as (h & Hh & H).
  apply bind_Done in H. destruct H as (((s1 & d) & e) & Hp & H).
  apply bind_Done in H. destruct H as (s2 & Ha & H).
  inversion H; subst; clear H. cbn in Alive. subst d.
  cbn [world]. unfold negb in Ha.
  destruct (pacmanInteraction_alive _ _ _ _ _ _ _ Hp)
    as (He & K1 & K2 & Kf & Kp & Ks).
  split; [|split].
  + intros Hf. rewrite <- Kf in Hf.
    destruct (advanceP1_food _ _ _ _ _ _ Hf Ha) as [A1 A2].
    rewrite A1, A2, len_cons, K1, Ks. split; lia.
  + intros Hf pu Hpu Hat. rewrite <- Kf in Hf. rewrite <- Kp in Hpu.
    rewrite (advanceP1_collect _ _ _ _ _ _ Hf Hpu Hat) in Ha.
    inversion Ha; subst; clear Ha.
    destruct (type pu); cbn; rewrite ?len_shrink, len_cons, K1, Ks;
      split; lia.
  + intros Hf Hpu. rewrite <- Kf in Hf.
    assert (Hpu' : powerupAt s1 head1 = false)
      by (unfold powerupAt in *; now rewrite Kp).
    rewrite (advanceP1_plain _ _ _ _ _ Hf Hpu') in Ha.
    injection Ha as Ha. subst s2 e.
    change (len (if chaserAt st head1 then head1 :: snake1 s1
                 else removelast (head1 :: snake1 s1))
            = (if chaserAt st head1 then len (snake1 st) + 1
               else len (snake1 st)) /\
            scores_p1 s1 - scores_p1 st - chaserBonus st head1 = 0).
    destruct (chaserAt st head1);
      rewrite ?len_removelast, ?len_cons, K1, Ks; split; lia.
Qed.

(** The growth of a snake that has ended "Move P2" alive. *)
Lemma moveP2_growth rnd fuel head1 t t' head2 :
  mode (world t) = PVP ->
  nextHead (snake2 (world t)) (dir2 (world t)) = Done head2 ->
  moveP2 rnd fuel head1 t = Done t' -> p2Dead t' = false ->
  let st := world t in
  let L := len (snake2 st) in
  let L' := len (snake2 (world t')) in
  let gain := scores_p2 (world t') - scores_p2 st in
  (samePoint head2 (food st) = true -> L' = L + 1 /\ gain = 1) /\
  (samePoint head2 (food st) = false ->
   forall pu, powerup st = Some pu -> samePoint head2 (at_ pu) = true ->
     L' = (match type pu with SHRINK => shrunk (L + 1) | _ => L + 1 end) /\
     gain = 5) /\
  (samePoint head2 (food st) = false -> powerupAt st head2 = false ->
   L' = L /\ gain = 0).
Proof.
  intros M Hh H Alive. cbv zeta.
  unfold moveP2 in H. rewrite M, Hh in H. unfold bind at 1 in H.
  destruct (collisionsP2 head1 head2 t) as [d1 d2].
  apply bind_Done in H. destruct H as (s2 & Ha & H).
  inversion H; subst; clear H. cbn in Alive. subst d2.
  cbn [world]. unfold negb in Ha.
  split; [|split].
  + intros Hf.
    destruct (advanceP2_food _ _ _ _ _ Hf Ha) as [A1 A2].
    rewrite A1, A2, len_cons. split; lia.
  + intros Hf pu Hpu Hat.
    rewrite (advanceP2_collect _ _ _ _ _ Hf Hpu Hat) in Ha.
    inversion Ha; subst; clear Ha.
    destruct (type pu); cbn; rewrite ?len_shrink, len_cons; split; lia.
  + intros Hf Hpu.
    rewrite (advanceP2_plain _ _ _ _ Hf Hpu) in Ha.
    injection Ha as Ha. subst s2.
    change (len (removelast (head2 :: snake2 (world t))) = len (snake2 (world t))
            /\ scores_p2 (world t) - scores_p2 (world t) = 0).
    rewrite len_removelast. split; lia.
Qed.

(** Only a snake that survives, with every placement supplied, ends
    "Move P1" alive. *)
Lemma moveP1_alive rnd fuel st head1 t :
  moveP1 rnd fuel st = Done (head1, t) -> p1Dead t = false ->
  nextHead (snake1 st) (dir1 st) = Done head1 /\
  survives1 st head1 /\ supplied1 rnd fuel st head1.
Proof.
  intros H Alive. unfold moveP1 in H.
  apply bind_Done in H. destruct H as (h & Hh & H).
  apply bind_Done in H. destruct H as (((s1 & d) & e) & Hp & H).
  apply bind_Done in H. destruct H as (s2 & Ha & H).
  inversion H; subst; clear H. cbn in Alive. subst d.
  unfold negb in Ha.
  destruct (pacmanInteraction_survives _ _ _ _ _ _ _ Hp) as (Hc & Hz).
  destruct (pacmanInteraction_alive _ _ _ _ _ _ _ Hp)
    as (_ & K1 & K2 & Kf & Kp & _).
  split; [exact Hh|]. split; [|split].
  - split; [exact Hc|]. intros E. exact (proj1 (Hz E)).
  - intros E. exact (proj2 (Hz E)).
  - intros Hf. rewrite <- Kf in Hf.
    pose proof (advanceP1_supplied _ _ _ _ _ _ Ha Hf) as S.
    cbv zeta in S |- *. unfold powerupCell in *.
    rewrite K1, K2, Kp in S. exact S.
Qed.

Lemma moveP2_alive rnd fuel head1 t t' head2 :
  mode (world t) = PVP ->
  nextHead (snake2 (world t)) (dir2 (world t)) = Done head2 ->
  moveP2 rnd fuel head1 t = Done t' -> p2Dead t' = false ->
  snd (collisionsP2 head1 head2 t) = false /\
  supplied2 rnd fuel (world t) head2.
Proof.
  intros M Hh H Alive.
  unfold moveP2 in H. rewrite M, Hh in H. unfold bind at 1 in H.
  destruct (collisionsP2 head1 head2 t) as [d1 d2].
  apply bind_Done in H. destruct H as (s2 & Ha & H).
  inversion H; subst; clear H. cbn in Alive. subst d2.
  unfold negb in Ha. split; [reflexivity|].
  exact (advanceP2_supplied _ _ _ _ _ Ha).
Qed.

(** C3 (amended): for a snake that survives its move, a new head on the
    food makes the body one longer and adds 1 to the score of that
    player; a new head on the power-up (the food being elsewhere) keeps
    the tail too, so the body is one longer, or is cut to
    [max 3 (floor (n / 2))] by a Shrink when the grown body has more than
    3 segments, and adds 5 to the score; any other move leaves the length
    unchanged, except that eating the frozen Pacman keeps the tail.
    Eating Pacman adds its own 5 points to whatever else the move earns.
    The move does end, with the snake alive and these lengths and
    scores, whenever the snake survives and each placement loop it
    enters meets a free cell within the fuel; and no other move ends
    with the snake alive. *)
Theorem growth_accounting (rnd : Rand) (fuel : nat) :
  (forall st head1,
     nextHead (snake1 st) (dir1 st) = Done head1 ->
     survives1 st head1 -> supplied1 rnd fuel st head1 ->
     exists t,
       moveP1 rnd fuel st = Done (head1, t) /\ p1Dead t = false /\
       let L := len (snake1 st) in
       let L' := len (snake1 (world t)) in
       let gain := scores_p1 (world t) - scores_p1 st - chaserBonus st head1 in
       (samePoint head1 (food st) = true -> L' = L + 1 /\ gain = 1) /\
       (samePoint head1 (food st) = false ->
        forall pu, powerup st = Some pu -> samePoint head1 (at_ pu) = true ->
          L' = (match type pu with SHRINK => shrunk (L + 1) | _ => L + 1 end) /\
          gain = 5) /\
       (samePoint head1 (food st) = false -> powerupAt st head1 = false ->
        L' = (if chaserAt st head1 then L + 1 else L) /\ gain = 0)) /\
  (forall head1 t head2,
     mode (world t) = PVP ->
     nextHead (snake2 (world t)) (dir2 (world t)) = Done head2 ->
     snd (collisionsP2 head1 head2 t) = false ->
     supplied2 rnd fuel (world t) head2 ->
     exists t',
       moveP2 rnd fuel head1 t = Done t' /\ p2Dead t' = false /\
       let st := world t in
       let L := len (snake2 st) in
       let L' := len (snake2 (world t')) in
       let gain := scores_p2 (world t') - scores_p2 st in
       (samePoint head2 (food st) = true -> L' = L + 1 /\ gain = 1) /\
       (samePoint head2 (food st) = false ->
        forall pu, powerup st = Some pu -> samePoint head2 (at_ pu) = true ->
          L' = (match type pu with SHRINK => shrunk (L + 1) | _ => L + 1 end) /\
          gain = 5) /\
       (samePoint head2 (food st) = false -> powerupAt st head2 = false ->
        L' = L /\ gain = 0)) /\
  (forall st head1 t,
     moveP1 rnd fuel st = Done (head1, t) -> p1Dead t = false ->
     nextHead (snake1 st) (dir1 st) = Done head1 /\
     survives1 st head1 /\ supplied1 rnd fuel st head1) /\
  (forall head1 t t' head2,
     mode (world t) = PVP ->
     nextHead (snake2 (world t)) (dir2 (world t)) = Done head2 ->
     moveP2 rnd fuel head1 t = Done t' -> p2Dead t' = false ->
     snd (collisionsP2 head1 head2 t) = false /\
     supplied2 rnd fuel (world t) head2).
Proof.
  split; [|split; [|split]].
  - intros st head1 Hh Hs Hp.
    destruct (moveP1_returns _ _ _ _ Hh Hs Hp) as (t & H & Alive).
    exists t. split; [exact H|]. split; [exact Alive|].
    exact (moveP1_growth _ _ _ _ _ H Alive).
  - intros head1 t head2 M Hh Hc Hp.
    destruct (moveP2_returns _ _ _ _ _ M Hh Hc Hp) as (t' & H & Alive).
    exists t'. split; [exact H|]. split; [exact Alive|].
    exact (moveP2_growth _ _ _ _ _ _ M Hh H Alive).
  - intros st head1 t. apply moveP1_alive.
  - intros head1 t t' head2. apply moveP2_alive.
Qed.

Lemma growth_accounting_witness :
  exists t,
    moveP1 (dice (mkPoint 0 0) false) 3 (started foodAhead)
    = Done (mkPoint 15 9, t) /\
    p1Dead t = false /\
    len (snake1 (world t)) = len (snake1 (started foodAhead)) + 1 /\
    scores_p1 (world t) = 1.
Proof.
  assert (Hh : nextHead (snake1 (started foodAhead)) (dir1 (started foodAhead))
               = Done (mkPoint 15 9)) by reflexivity.
  assert (Hs : survives1 (started foodAhead) (mkPoint 15 9))
    by (split; [reflexivity | discriminate]).
  assert (Hp : supplied1 (dice (mkPoint 0 0) false) 3 (started foodAhead)
                 (mkPoint 15 9)).
  { split; [discriminate|]. intros _. cbv zeta. split.
    - exists 0%nat. split; [lia|].
      intros [K | [K | []]]; discriminate K.
    - intros _ R. discriminate R. }
  destruct (proj1 (growth_accounting (dice (mkPoint 0 0) false) 3)
              (started foodAhead) (mkPoint 15 9) Hh Hs Hp)
    as (t & H & Alive & A & _).
  exists t. split; [exact H|]. split; [exact Alive|].
  destruct (A eq_refl) as [A1 A2]. split; [exact A1|].
  change (scores_p1 (started foodAhead)) with 0 in A2.
  change (chaserBonus (started foodAhead) (mkPoint 15 9)) with 0 in A2.
  lia.
Defined.

(** *** Eating the frozen Pacman *)

(** The frozen Pacman under the new head is eaten as soon as the search
    for his new cell ends: 5 points, the sound of a meal, a new cell off
    the body, the food and the power-up, and the freeze is over. *)
Lemma frozen_chaser_is_eaten rnd fuel head1 dead st p :
  chaserAt st head1 = true ->
  pacmanFrozen st > 0 ->
  placeItem (rndPacman rnd) fuel ((snake1 st ++ [food st]) ++ powerupCell st)
  = Done p ->
  pacmanInteraction rnd fuel head1 dead st
  = Done (set_pacmanFrozen 0
            (set_pacman (Some p)
               (playSound snd_eat (set_scores_p1 (scores_p1 st + 5) st))),
          dead, true) /\
  ~ In p (snake1 st) /\ p <> food st /\ ~ In p (powerupCell st).
Proof.
  intros Hat Hfrozen Hplace. split.
  - unfold pacmanInteraction. unfold chaserAt in Hat.
    destruct (mode st); [|discriminate].
    destruct (pacman st) as [pac|]; [|discriminate]. rewrite Hat.
    assert (F : (pacmanFrozen st >? 0) = true) by (apply Z.gtb_lt; lia).
    rewrite F. cbv zeta.
    change (snake1 (playSound snd_eat (set_scores_p1 (scores_p1 st + 5) st)))
      with (snake1 st).
    change (food (playSound snd_eat (set_scores_p1 (scores_p1 st + 5) st)))
      with (food st).
    change (powerupCell (playSound snd_eat (set_scores_p1 (scores_p1 st + 5) st)))
      with (powerupCell st).
    rewrite Hplace. reflexivity.
  - apply placeItem_free in Hplace. repeat split.
    + intros H. apply Hplace. apply in_or_app. left. apply in_or_app. now left.
    + intros H. apply Hplace. apply in_or_app. left. apply in_or_app. right.
      left. now symmetry.
    + intros H. apply Hplace. apply in_or_app. now right.
Qed.

(** C6 at its failing input: the snake steps onto the frozen Pacman and
    eats him, the search for his new cell draws the very cell of the new
    head, which is not excluded, and the thawed Pacman, walled in by the
    body, catches the snake in the same move: the round is over. *)
Theorem eaten_chaser_respawns_on_the_head :
  chaserAt cornered (mkPoint 5 5) = true /\
  pacmanFrozen cornered = 10 /\
  nextHead (snake1 cornered) (nextDir1 cornered) = Done (mkPoint 5 5) /\
  exists st',
    update longFrame (dice (mkPoint 5 5) false) 3 cornered = Done st' /\
    scores_p1 st' = 5 /\ pacmanFrozen st' = 0 /\
    pacman st' = Some (mkPoint 5 5) /\
    snake1 st' = [mkPoint 5 5; mkPoint 5 6; mkPoint 4 6; mkPoint 4 5] /\
    gameState st' = gameover.
Proof.
  do 3 (split; [reflexivity|]).
  eexists. split; [vm_compute; reflexivity|]. repeat split.
Qed.

(** *** Placing the food *)

Lemma increaseSpeed_fields (st : Game) :
  snake1 (increaseSpeed st) = snake1 st /\
  snake2 (increaseSpeed st) = snake2 st /\
  powerupCell (increaseSpeed st) = powerupCell st.
Proof.
  unfold increaseSpeed, powerupCell. cbv zeta.
  match goal with |- context [if ?c then _ else _] => destruct c end;
    repeat split.
Qed.

(** The food that replaces the one eaten by player 1 is on no segment of
    either snake and not on the power-up. *)
Lemma new_food_off_the_snakes rnd fuel head1 eaten st st' :
  samePoint head1 (food st) = true ->
  advanceP1 rnd fuel head1 eaten st = Done st' ->
  ~ In (food st') (head1 :: snake1 st) /\ ~ In (food st') (snake2 st) /\
  ~ In (food st') (powerupCell st).
Proof.
  intros Hfood H. unfold advanceP1, placePowerup in H. cbv zeta in H.
  change (food (set_snake1 (head1 :: snake1 st) st)) with (food st) in H.
  rewrite Hfood in H.
  apply bind_Done in H. destruct H as (f & Hf & H).
  assert (E : food st' = f) by (run; reflexivity).
  rewrite E. clear H E. apply placeItem_free in Hf.
  destruct (increaseSpeed_fields
              (playSound snd_eat
                 (set_scores_p1
                    (scores_p1 (set_snake1 (head1 :: snake1 st) st) + 1)
                    (set_snake1 (head1 :: snake1 st) st))))
    as (I1 & I2 & I3).
  rewrite I1, I2, I3 in Hf.
  change (~ In f (((head1 :: snake1 st) ++ snake2 st) ++ powerupCell st)) in Hf.
  repeat split; intros K; apply Hf.
  - apply in_or_app; left; apply in_or_app; left; exact K.
  - apply in_or_app; left; apply in_or_app; right; exact K.
  - apply in_or_app; right; exact K.
Qed.

(** C7 at its failing inputs.  Pacman steps onto the food, whose new cell
    is searched off the body of the snake only: the draw of the cell on
    which Pacman stands is accepted.  Likewise the food eaten by the
    snake is placed without regard for Pacman. *)
Theorem new_food_lands_on_the_chaser :
  (exists st',
     update longFrame (dice (mkPoint 3 4) false) 3 chaserFeeds = Done st' /\
     scores_pacman st' = 1 /\
     pacman st' = Some (mkPoint 3 4) /\ food st' = mkPoint 3 4) /\
  (exists t,
     moveP1 (dice (mkPoint 3 3) false) 3 (started foodAhead)
     = Done (mkPoint 15 9, t) /\
     scores_p1 (world t) = 1 /\
     pacman (world t) = Some (mkPoint 3 3) /\ food (world t) = mkPoint 3 3).
Proof.
  split.
  - eexists. split; [vm_compute; reflexivity|]. repeat split.
  - eexists. split; [vm_compute; reflexivity|]. repeat split.
Qed.

(** At the start of a round the food is on no snake and not on Pacman,
    no power-up is out, and both timers of the collision guard are 0. *)
Lemma resetGame_round newMode rnd fuel st st' :
  resetGame newMode rnd fuel st = Done st' ->
  gameState st' = playing /\ mode st' = newMode /\
  dir1 st' = up /\ nextDir1 st' = up /\
  ghostTimer st' = 0 /\ pacmanFrozen st' = 0 /\ powerup st' = None /\
  snake1 st' <> [] /\
  ~ In (food st') (snake1 st') /\ ~ In (food st') (snake2 st') /\
  pacman st' <> Some (food st').
Proof.
  unfold resetGame. cbv zeta. intros H.
  apply bind_Done in H. destruct H as (s1 & H1 & H).
  apply bind_Done in H. destruct H as (f & Hf & H).
  injection H as <-. apply placeItem_free in Hf.
  destruct newMode.
  - apply bind_Done in H1. destruct H1 as (p & _ & H1).
    injection H1 as <-. cbn in Hf |- *.
    repeat split; try discriminate; intros K.
    + apply Hf. destruct K as [K | []]. left. exact K.
    + exact K.
    + apply Hf. right. left. now injection K.
  - injection H1 as <-. cbn in Hf |- *.
    repeat split; try discriminate; intros K.
    + apply Hf. destruct K as [K | []]. left. exact K.
    + apply Hf. destruct K as [K | []]. right. left. exact K.
Qed.

(** The directions of a fresh round are steady, whatever was pending for
    player 2 in the round before. *)
Lemma mounted_steady : steady mounted.
Proof. repeat split; discriminate. Qed.

(** ** Further properties of the code *)

(** *** Collisions and placement *)

(** X1: [checkCollision] answers [true] exactly when some segment of the
    body has both coordinates of the head; on an empty body it answers
    [false]. *)
Theorem checkCollision_iff_segment (head : Point) (body : list Point) :
  (checkCollision head body = true <->
   exists part, In part body /\ x head = x part /\ y head = y part) /\
  checkCollision head [] = false.
Proof.
  split; [|reflexivity]. rewrite checkCollision_In. split.
  - intros H. exists head. auto.
  - intros (part & Hin & Hx & Hy).
    replace head with part; [exact Hin|].
    destruct head, part; simpl in *; subst; reflexivity.
Qed.

Lemma placeItemFrom_sound (draw : nat -> Point) (exclude : list Point) (p : Point) :
  forall fuel i,
    placeItemFrom draw exclude fuel i = Done p ->
    exists k, (k < fuel)%nat /\ p = draw (i + k)%nat /\
              (forall j, (j < k)%nat -> In (draw (i + j)%nat) exclude) /\
              ~ In p exclude.
Proof.
  induction fuel as [|fuel IH]; intros i; simpl; [discriminate|].
  destruct (validAgainst (draw i) exclude) eqn:E.
  - intros H. injection H as <-. exists 0%nat. rewrite Nat.add_0_r.
    repeat split; [lia | intros j Hj; lia |].
    intros Hin. apply validAgainst_false_In in Hin. congruence.
  - intros H. destruct (IH (S i) H) as (k & Hk & Hp & Hbefore & Hfree).
    exists (S k). repeat split; [lia | | | exact Hfree].
    + rewrite Hp. f_equal. lia.
    + intros j Hj. destruct j as [|j].
      * rewrite Nat.add_0_r. now apply validAgainst_false_In.
      * replace (i + S j)%nat with (S i + j)%nat by lia. apply Hbefore. lia.
Qed.

Lemma placeItemFrom_never_throws (draw : nat -> Point) (exclude : list Point) :
  forall fuel i, placeItemFrom draw exclude fuel i <> TypeError.
Proof.
  induction fuel as [|fuel IH]; intros i; simpl; [discriminate|].
  destruct (validAgainst (draw i) exclude); [discriminate | apply IH].
Qed.

(** X2: a cell returned by [placeItem] is one of the cells it drew, the
    first that is on no excluded cell; every draw before it was excluded
    and the result itself is not.  The search never throws. *)
Theorem placeItem_returns_first_free_draw (draw : nat -> Point) (fuel : nat)
    (exclude : list Point) (p : Point)
    (H : placeItem draw fuel exclude = Done p) :
  (exists k, (k < fuel)%nat /\ p = draw k /\
             forall j, (j < k)%nat -> In (draw j) exclude) /\
  ~ In p exclude /\
  checkCollision p exclude = false.
Proof.
  destruct (placeItemFrom_sound draw exclude p fuel 0 H)
    as (k & Hk & Hp & Hbefore & Hfree).
  split; [|split].
  - exists k. repeat split; assumption.
  - exact Hfree.
  - destruct (checkCollision p exclude) eqn:E; [|reflexivity].
    apply checkCollision_In in E. contradiction.
Qed.

Lemma placeItem_returns_first_free_draw_witness :
  ~ In (mkPoint 2 2) [mkPoint 0 0; mkPoint 1 1].
Proof.
  apply (placeItem_returns_first_free_draw sweep 5 [mkPoint 0 0; mkPoint 1 1]
           (mkPoint 2 2)).
  reflexivity.
Defined.

(** *** One step on the torus *)

(** X3: the new head of a snake whose head is on the grid, moving in one
    of the four directions, is on the grid again, is one step from the
    old head in that direction modulo the size of the grid, and is never
    the cell the head was on.  An empty body makes the step throw. *)
Theorem head_moves_one_cell (h : Point) (rest : list Point) (dir : Point)
    (Hh : onGrid h) (Hd : unitDir dir) :
  (exists head,
     nextHead (h :: rest) dir = Done head /\
     onGrid head /\
     x head = (x h + x dir) mod COLS /\
     y head = (y h + y dir) mod ROWS /\
     head <> h) /\
  nextHead [] dir = TypeError.
Proof.
  split; [|reflexivity]. eexists. split; [reflexivity|].
  destruct Hh as [Hx Hy].
  assert (Dx : -1 <= x dir <= 1 /\ -1 <= y dir <= 1 /\
               (x dir <> 0 \/ y dir <> 0)).
  { destruct Hd as [-> | [-> | [-> | ->]]]; cbn; lia. }
  destruct Dx as (Dx & Dy & Dn).
  pose proof (wrap_range (x h + x dir) COLS eq_refl) as Wx.
  pose proof (wrap_range (y h + y dir) ROWS eq_refl) as Wy.
  unfold onGrid. cbn [x y]. repeat split; try lia.
  - apply wrap_step_mod; [reflexivity | lia].
  - apply wrap_step_mod; [reflexivity | lia].
  - intros E. destruct h as [hx hy]. cbn [x y] in *.
    injection E as Ex Ey. unfold wrap in Ex, Ey.
    rewrite COLS_val, ROWS_val in *.
    destruct (hx + x dir <? 0) eqn:A; destruct (hx + x dir >=? 30) eqn:B;
      destruct (hy + y dir <? 0) eqn:C; destruct (hy + y dir >=? 20) eqn:D;
      lia.
Qed.

Lemma head_moves_one_cell_witness :
  exists head,
    nextHead [mkPoint 0 0] left = Done head /\ x head = 29 /\ y head = 0.
Proof.
  assert (G : onGrid (mkPoint 0 0)) by (unfold onGrid; cbn; grid_lia).
  assert (U : unitDir left) by (right; right; left; reflexivity).
  destruct (head_moves_one_cell (mkPoint 0 0) [] left G U)
    as ((head & H & _ & Hx & Hy & _) & _).
  exists head. split; [exact H|]. split; [rewrite Hx | rewrite Hy]; reflexivity.
Defined.

(** X4: the folded delta really leads from [a] to [b]: going [toroidalDelta]
    cells from [a] and wrapping around ends on [b]. *)
Theorem toroidalDelta_reaches (a b N : Z) (Ha : 0 <= a < N) (Hb : 0 <= b < N) :
  (a + toroidalDelta a b N) mod N = b.
Proof.
  unfold toroidalDelta.
  destruct (2 * Z.abs (b - a) >? N) eqn:E1; [destruct (b - a >? 0) eqn:E2|].
  - replace (a + (b - a - N)) with (b + (-1) * N) by lia.
    rewrite Z.mod_add by lia. apply Z.mod_small. lia.
  - replace (a + (b - a + N)) with (b + 1 * N) by lia.
    rewrite Z.mod_add by lia. apply Z.mod_small. lia.
  - replace (a + (b - a)) with b by lia. apply Z.mod_small. lia.
Qed.

Lemma toroidalDelta_reaches_witness :
  (28 + toroidalDelta 28 2 COLS) mod COLS = 2.
Proof. apply toroidalDelta_reaches; grid_lia. Defined.

(** X5: a step of Pacman along an axis, in the direction of a delta that
    is not 0, leaves him exactly one cell nearer on that axis: the delta
    from the cell he steps on has the same sign and is one smaller in
    absolute value. *)
Theorem greedy_step_closes_in (a b N : Z)
    (Ha : 0 <= a < N) (Hb : 0 <= b < N)
    (Hd : toroidalDelta a b N <> 0) :
  let d := toroidalDelta a b N in
  let a' := wrap (a + signStep d) N in
  0 <= a' < N /\
  toroidalDelta a' b N = d - signStep d /\
  Z.abs (toroidalDelta a' b N) = Z.abs d - 1.
Proof.
  cbv zeta. unfold toroidalDelta, signStep, wrap in *.
  destruct (2 * Z.abs (b - a) >? N) eqn:E1;
    destruct (b - a >? 0) eqn:E2;
    repeat match goal with
           | |- context [if ?c then _ else _] => destruct c eqn:?
           end; lia.
Qed.

Lemma greedy_step_closes_in_witness :
  toroidalDelta (wrap (0 + signStep (toroidalDelta 0 28 COLS)) COLS) 28 COLS = -1.
Proof.
  assert (H : toroidalDelta 0 28 COLS <> 0) by (vm_compute; discriminate).
  destruct (greedy_step_closes_in 0 28 COLS) as (_ & E & _);
    [grid_lia | grid_lia | exact H |].
  rewrite E. reflexivity.
Defined.

(** *** The outcomes of each phase *)

(** [increaseSpeed] only assigns the two intervals. *)
Lemma increaseSpeed_speedBoostTimer (st : Game) : speedBoostTimer (increaseSpeed st) = speedBoostTimer st.
Proof.
  unfold increaseSpeed. cbv zeta.
  match goal with |- context [if ?c then _ else _] => destruct c end;
    reflexivity.
Qed.

Lemma increaseSpeed_ghostTimer (st : Game) : ghostTimer (increaseSpeed st) = ghostTimer st.
Proof.
  unfold increaseSpeed. cbv zeta.
  match goal with |- context [if ?c then _ else _] => destruct c end;
    reflexivity.
Qed.

Lemma increaseSpeed_pacmanFrozen (st : Game) : pacmanFrozen (increaseSpeed st) = pacmanFrozen st.
Proof.
  unfold increaseSpeed. cbv zeta.
  match goal with |- context [if ?c then _ else _] => destruct c end;
    reflexivity.
Qed.

Lemma increaseSpeed_scores_p1 (st : Game) : scores_p1 (increaseSpeed st) = scores_p1 st.
Proof.
  unfold increaseSpeed. cbv zeta.
  match goal with |- context [if ?c then _ else _] => destruct c end;
    reflexivity.
Qed.

Lemma increaseSpeed_scores_p2 (st : Game) : scores_p2 (increaseSpeed st) = scores_p2 st.
Proof.
  unfold increaseSpeed. cbv zeta.
  match goal with |- context [if ?c then _ else _] => destruct c end;
    reflexivity.
Qed.

Lemma increaseSpeed_scores_pacman (st : Game) : scores_pacman (increaseSpeed st) = scores_pacman st.
Proof.
  unfold increaseSpeed. cbv zeta.
  match goal with |- context [if ?c then _ else _] => destruct c end;
    reflexivity.
Qed.

Lemma increaseSpeed_snake1 (st : Game) : snake1 (increaseSpeed st) = snake1 st.
Proof.
  unfold increaseSpeed. cbv zeta.
  match goal with |- context [if ?c then _ else _] => destruct c end;
    reflexivity.
Qed.

Lemma increaseSpeed_snake2 (st : Game) : snake2 (increaseSpeed st) = snake2 st.
Proof.
  unfold increaseSpeed. cbv zeta.
  match goal with |- context [if ?c then _ else _] => destruct c end;
    reflexivity.
Qed.

Lemma increaseSpeed_food (st : Game) : food (increaseSpeed st) = food st.
Proof.
  unfold increaseSpeed. cbv zeta.
  match goal with |- context [if ?c then _ else _] => destruct c end;
    reflexivity.
Qed.

Lemma increaseSpeed_powerup (st : Game) : powerup (increaseSpeed st) = powerup st.
Proof.
  unfold increaseSpeed. cbv zeta.
  match goal with |- context [if ?c then _ else _] => destruct c end;
    reflexivity.
Qed.

Lemma increaseSpeed_pacman (st : Game) : pacman (increaseSpeed st) = pacman st.
Proof.
  unfold increaseSpeed. cbv zeta.
  match goal with |- context [if ?c then _ else _] => destruct c end;
    reflexivity.
Qed.

Lemma increaseSpeed_mode (st : Game) : mode (increaseSpeed st) = mode st.
Proof.
  unfold increaseSpeed. cbv zeta.
  match goal with |- context [if ?c then _ else _] => destruct c end;
    reflexivity.
Qed.

Lemma increaseSpeed_gameState (st : Game) : gameState (increaseSpeed st) = gameState st.
Proof.
  unfold increaseSpeed. cbv zeta.
  match goal with |- context [if ?c then _ else _] => destruct c end;
    reflexivity.
Qed.

Lemma increaseSpeed_pacmanMoveTick (st : Game) : pacmanMoveTick (increaseSpeed st) = pacmanMoveTick st.
Proof.
  unfold increaseSpeed. cbv zeta.
  match goal with |- context [if ?c then _ else _] => destruct c end;
    reflexivity.
Qed.

Create Rewrite HintDb play.
#[local] Hint Rewrite increaseSpeed_speedBoostTimer increaseSpeed_ghostTimer increaseSpeed_pacmanFrozen increaseSpeed_scores_p1 increaseSpeed_scores_p2 increaseSpeed_scores_pacman increaseSpeed_snake1
  increaseSpeed_snake2 increaseSpeed_food increaseSpeed_powerup increaseSpeed_pacman increaseSpeed_mode increaseSpeed_gameState increaseSpeed_pacmanMoveTick : play.

(** "Handle Pacman Interaction" ends in one of three ways. *)
Lemma pacmanInteraction_cases rnd fuel head1 dead st s1 dead' eaten :
  pacmanInteraction rnd fuel head1 dead st = Done (s1, dead', eaten) ->
  (chaserAt st head1 = false /\ s1 = st /\ dead' = dead /\ eaten = false) \/
  (chaserAt st head1 = true /\ pacmanFrozen st <= 0 /\
   s1 = st /\ dead' = true /\ eaten = false) \/
  (chaserAt st head1 = true /\ pacmanFrozen st > 0 /\
   exists p,
     placeItem (rndPacman rnd) fuel ((snake1 st ++ [food st]) ++ powerupCell st)
     = Done p /\
     s1 = chaserEaten p st /\ dead' = dead /\ eaten = true).
Proof.
  unfold pacmanInteraction, chaserAt. intros H.
  destruct (mode st); [|injection H as <- <- <-; left; auto].
  destruct (pacman st) as [pac|]; [|injection H as <- <- <-; left; auto].
  destruct (samePoint head1 pac); [|injection H as <- <- <-; left; auto].
  destruct (pacmanFrozen st >? 0) eqn:F.
  - cbv zeta in H. apply bind_Done in H. destruct H as (p & Hp & H).
    injection H as <- <- <-. right. right.
    apply Z.gtb_lt in F. repeat split; [lia|]. exists p. auto.
  - injection H as <- <- <-. right. left.
    rewrite Z.gtb_ltb in F. apply Z.ltb_ge in F. auto.
Qed.

(** The body of [if (!p1Dead)] ends in one of three ways. *)
Lemma advanceP1_cases rnd fuel head1 eaten st st' :
  advanceP1 rnd fuel head1 eaten st = Done st' ->
  (samePoint head1 (food st) = true /\
   exists f,
     placeItem (rndFood1 rnd) fuel
       (((head1 :: snake1 st) ++ snake2 st) ++ powerupCell st) = Done f /\
     (st' = fed1 head1 f st \/
      exists pu,
        powerup st = None /\
        placePowerup (rndPowerup rnd) (rndKind rnd) fuel
          (((head1 :: snake1 st) ++ snake2 st) ++ [f]) = Done pu /\
        st' = set_powerup (Some pu) (fed1 head1 f st))) \/
  (samePoint head1 (food st) = false /\
   exists pu, powerup st = Some pu /\ samePoint head1 (at_ pu) = true /\
              st' = collected1 head1 pu st) \/
  (samePoint head1 (food st) = false /\ powerupAt st head1 = false /\
   st' = stepped1 head1 eaten st).
Proof.
  intros H. destruct (samePoint head1 (food st)) eqn:Hf.
  - left. split; [reflexivity|].
    unfold advanceP1 in H. cbv zeta in H.
    change (food (set_snake1 (head1 :: snake1 st) st)) with (food st) in H.
    rewrite Hf in H.
    apply bind_Done in H. destruct H as (f & Hp & H).
    destruct (increaseSpeed_fields
                (playSound snd_eat
                   (set_scores_p1
                      (scores_p1 (set_snake1 (head1 :: snake1 st) st) + 1)
                      (set_snake1 (head1 :: snake1 st) st))))
      as (I1 & I2 & I3).
    rewrite I1, I2, I3 in Hp.
    exists f. split; [exact Hp|].
    change (powerup (set_food f ?s)) with (powerup s) in H.
    rewrite increaseSpeed_powerup in H.
    change (powerup (playSound snd_eat _)) with (powerup st) in H.
    destruct (powerup st) as [pu0|]; [injection H as <-; left; reflexivity|].
    destruct (rndRoll rnd); [|injection H as <-; left; reflexivity].
    apply bind_Done in H. destruct H as (pu & Hpu & H).
    injection H as <-. right. exists pu. split; [reflexivity|]. split; [|reflexivity].
    change (snake1 (set_food f ?s)) with (snake1 s) in Hpu.
    change (snake2 (set_food f ?s)) with (snake2 s) in Hpu.
    rewrite I1, I2 in Hpu. exact Hpu.
  - right. destruct (powerupAt st head1) eqn:Hpu.
    + left. split; [reflexivity|]. unfold powerupAt in Hpu.
      destruct (powerup st) as [pu|] eqn:E; [|discriminate].
      exists pu. split; [reflexivity|]. split; [exact Hpu|].
      rewrite (advanceP1_collect _ _ _ _ _ _ Hf E Hpu) in H.
      injection H as <-. reflexivity.
    + right. split; [reflexivity|]. split; [reflexivity|].
      rewrite (advanceP1_plain _ _ _ _ _ Hf Hpu) in H.
      injection H as <-. reflexivity.
Qed.

(** The body of [if (!p2Dead)] ends in one of three ways. *)
Lemma advanceP2_cases rnd fuel head2 st st' :
  advanceP2 rnd fuel head2 st = Done st' ->
  (samePoint head2 (food st) = true /\
   exists f,
     placeItem (rndFood2 rnd) fuel
       ((snake1 st ++ head2 :: snake2 st) ++ powerupCell st) = Done f /\
     st' = fed2 head2 f st) \/
  (samePoint head2 (food st) = false /\
   exists pu, powerup st = Some pu /\ samePoint head2 (at_ pu) = true /\
              st' = collected2 head2 pu st) \/
  (samePoint head2 (food st) = false /\ powerupAt st head2 = false /\
   st' = stepped2 head2 st).
Proof.
  intros H. destruct (samePoint head2 (food st)) eqn:Hf.
  - left. split; [reflexivity|].
    unfold advanceP2 in H. cbv zeta in H.
    change (food (set_snake2 (head2 :: snake2 st) st)) with (food st) in H.
    rewrite Hf in H.
    apply bind_Done in H. destruct H as (f & Hp & H).
    destruct (increaseSpeed_fields
                (playSound snd_eat
                   (set_scores_p2
                      (scores_p2 (set_snake2 (head2 :: snake2 st) st) + 1)
                      (set_snake2 (head2 :: snake2 st) st))))
      as (I1 & I2 & I3).
    rewrite I1, I2, I3 in Hp.
    exists f. split; [exact Hp|]. injection H as <-. reflexivity.
  - right. destruct (powerupAt st head2) eqn:Hpu.
    + left. split; [reflexivity|]. unfold powerupAt in Hpu.
      destruct (powerup st) as [pu|] eqn:E; [|discriminate].
      exists pu. split; [reflexivity|]. split; [exact Hpu|].
      rewrite (advanceP2_collect _ _ _ _ _ Hf E Hpu) in H.
      injection H as <-. reflexivity.
    + right. split; [reflexivity|]. split; [reflexivity|].
      rewrite (advanceP2_plain _ _ _ _ Hf Hpu) in H.
      injection H as <-. reflexivity.
Qed.

(** "Move P1" is the interaction with Pacman followed, for a snake still
    alive, by the advance of the body. *)
Lemma moveP1_cases rnd fuel st head1 t :
  moveP1 rnd fuel st = Done (head1, t) ->
  nextHead (snake1 st) (dir1 st) = Done head1 /\
  p2Dead t = false /\
  exists s1 eaten,
    pacmanInteraction rnd fuel head1 (collisionsP1 head1 st) st
    = Done (s1, p1Dead t, eaten) /\
    ((p1Dead t = true /\ world t = s1) \/
     (p1Dead t = false /\ advanceP1 rnd fuel head1 eaten s1 = Done (world t))).
Proof.
  unfold moveP1. intros H.
  apply bind_Done in H. destruct H as (h & Hh & H).
  apply bind_Done in H. destruct H as (((s1 & d) & e) & Hp & H).
  apply bind_Done in H. destruct H as (s2 & Ha & H).
  injection H as <- <-. cbn [world p1Dead p2Dead].
  split; [exact Hh|]. split; [reflexivity|].
  exists s1, e. split; [exact Hp|].
  destruct d; cbn [negb] in Ha.
  - left. injection Ha as <-. auto.
  - right. auto.
Qed.

(** "Move P2" does nothing in a single-player game; in a two-player game
    it is the checks of player 2 followed, for a snake still alive, by
    the advance of the body. *)
Lemma moveP2_cases rnd fuel head1 t t' :
  moveP2 rnd fuel head1 t = Done t' ->
  (mode (world t) = PVC /\ t' = t) \/
  (mode (world t) = PVP /\
   exists head2,
     nextHead (snake2 (world t)) (dir2 (world t)) = Done head2 /\
     (p1Dead t', p2Dead t') = collisionsP2 head1 head2 t /\
     ((p2Dead t' = true /\ world t' = world t) \/
      (p2Dead t' = false /\
       advanceP2 rnd fuel head2 (world t) = Done (world t')))).
Proof.
  unfold moveP2. intros H.
  destruct (mode (world t)); [left; injection H as <-; auto|].
  right. split; [reflexivity|].
  apply bind_Done in H. destruct H as (head2 & Hh & H).
  exists head2. split; [exact Hh|].
  destruct (collisionsP2 head1 head2 t) as [d1 d2].
  apply bind_Done in H. destruct H as (s2 & Ha & H).
  injection H as <-. cbn [world p1Dead p2Dead]. split; [reflexivity|].
  destruct d2; cbn [negb] in Ha.
  - left. injection Ha as <-. auto.
  - right. auto.
Qed.

(** "AI" ends in one of four ways: no Pacman to move, a frozen Pacman
    thawing by one, a move that only counts, or a move in which Pacman
    steps, possibly eats the food, possibly catches the snake and
    possibly destroys the power-up. *)
Lemma moveAI_cases rnd fuel t t' :
  moveAI rnd fuel t = Done t' ->
  let st := world t in
  ((mode st = PVP \/ pacman st = None) /\ t' = t) \/
  (exists pac,
     mode st = PVC /\ pacman st = Some pac /\
     ((pacmanFrozen st > 0 /\
       t' = mkTick (set_pacmanFrozen (pacmanFrozen st - 1) st)
              (p1Dead t) (p2Dead t)) \/
      (pacmanFrozen st <= 0 /\
       Z.rem (pacmanMoveTick st + 1) 2 <> 0 /\
       t' = mkTick (set_pacmanMoveTick (pacmanMoveTick st + 1) st)
              (p1Dead t) (p2Dead t)) \/
      (pacmanFrozen st <= 0 /\
       Z.rem (pacmanMoveTick st + 1) 2 = 0 /\
       exists h rest s2,
         let pac' := chaserStep (rndSign rnd) pac st in
         let s1 := set_pacman (Some pac')
                     (set_pacmanMoveTick (pacmanMoveTick st + 1) st) in
         snake1 st = h :: rest /\
         ((samePoint pac' (food st) = false /\ s2 = s1) \/
          (samePoint pac' (food st) = true /\
           exists f, placeItem (rndFoodAI rnd) fuel (snake1 st) = Done f /\
                     s2 = chaserFed f s1)) /\
         t' = mkTick (chaserTramples pac' s2)
                (if samePoint pac' h then true else p1Dead t) (p2Dead t)))).
Proof.
  cbv zeta. unfold moveAI. intros H.
  destruct (mode (world t)) eqn:M;
    [|left; injection H as <-; auto].
  destruct (pacman (world t)) as [pac|] eqn:P;
    [|left; injection H as <-; auto].
  right. exists pac. split; [reflexivity|]. split; [reflexivity|].
  destruct (pacmanFrozen (world t) >? 0) eqn:F.
  - left. injection H as <-. apply Z.gtb_lt in F. split; [lia | reflexivity].
  - right. rewrite Z.gtb_ltb in F. apply Z.ltb_ge in F. cbv zeta in H.
    change (pacmanMoveTick
              (set_pacmanMoveTick (pacmanMoveTick (world t) + 1) (world t)))
      with (pacmanMoveTick (world t) + 1) in H.
    destruct (Z.rem (pacmanMoveTick (world t) + 1) 2 =? 0) eqn:E.
    + right. apply Z.eqb_eq in E. split; [exact F|]. split; [exact E|].
      apply bind_Done in H. destruct H as (s2 & Hs & H).
      apply bind_Done in H. destruct H as (d1 & Hd & H).
      injection H as <-.
      change (snake1 (set_pacmanMoveTick (pacmanMoveTick (world t) + 1) (world t)))
        with (snake1 (world t)) in *.
      change (food (set_pacmanMoveTick (pacmanMoveTick (world t) + 1) (world t)))
        with (food (world t)) in *.
      fold (chaserStep (rndSign rnd) pac (world t)) in *.
      set (pac' := chaserStep (rndSign rnd) pac (world t)) in *.
      change (food (set_pacman (Some pac') ?s)) with (food s) in Hs.
      change (food (set_pacmanMoveTick ?v ?s)) with (food s) in Hs.
      assert (S2 : snake1 s2 = snake1 (world t)).
      { destruct (samePoint pac' (food (world t))).
        - apply bind_Done in Hs. destruct Hs as (f & _ & Hs).
          injection Hs as <-. reflexivity.
        - injection Hs as <-. reflexivity. }
      rewrite S2 in Hd.
      destruct (snake1 (world t)) as [|h rest] eqn:S1; [discriminate|].
      injection Hd as <-.
      exists h, rest, s2. split; [reflexivity|]. split; [|reflexivity].
      destruct (samePoint pac' (food (world t))).
      * right. split; [reflexivity|].
        apply bind_Done in Hs. destruct Hs as (f & Hf & Hs).
        injection Hs as <-. exists f. split; [|reflexivity].
        rewrite <- S1. exact Hf.
      * left. injection Hs as <-. auto.
    + left. apply Z.eqb_neq in E. injection H as <-. auto.
Qed.

(** *** Timers and scores over a frame *)

Ltac durations :=
  unfold SPEED_BOOST_DURATION, GHOST_DURATION, FREEZE_DURATION in *.

Ltac z_facts :=
  repeat match goal with
         | H : (_ >? _) = true |- _ => apply Z.gtb_lt in H
         | H : (_ >? _) = false |- _ => rewrite Z.gtb_ltb in H
         | H : (_ <? _) = false |- _ => apply Z.ltb_ge in H
         | H : (_ =? _) = true |- _ => apply Z.eqb_eq in H
         | H : (_ =? _) = false |- _ => apply Z.eqb_neq in H
         end.

Ltac open_states :=
  unfold chaserEaten, fed1, collected1, stepped1, fed2, collected2, stepped2,
    chaserFed, chaserTramples, applyPowerup1, applyPowerup2, timedEffect,
    playSound.

(** The fields of the state a phase ends in, test by test. *)
Ltac settle :=
  open_states; cbn; autorewrite with play; cbn; split_tests;
  autorewrite with play; cbn; repeat split; intros; durations; z_facts;
  try lia.

(** What each phase of a move does to the timers and the scores. *)
Lemma pacmanInteraction_counts rnd fuel head1 dead st s1 dead' eaten :
  pacmanInteraction rnd fuel head1 dead st = Done (s1, dead', eaten) ->
  (timersInRange st -> timersInRange s1) /\
  scores_p1 st <= scores_p1 s1 <= scores_p1 st + 5 /\
  scores_p2 s1 = scores_p2 st /\
  scores_pacman s1 = scores_pacman st.
Proof.
  intros H. unfold timersInRange.
  destruct (pacmanInteraction_cases _ _ _ _ _ _ _ _ H)
    as [(_ & -> & _) | [(_ & _ & -> & _) | (_ & _ & p & _ & -> & _)]];
    settle.
Qed.

Lemma advanceP1_counts rnd fuel head1 eaten st st' :
  advanceP1 rnd fuel head1 eaten st = Done st' ->
  (timersInRange st -> timersInRange st') /\
  scores_p1 st <= scores_p1 st' <= scores_p1 st + 5 /\
  scores_p2 st' = scores_p2 st /\
  scores_pacman st' = scores_pacman st.
Proof.
  intros H. unfold timersInRange.
  destruct (advanceP1_cases _ _ _ _ _ _ H)
    as [(_ & f & _ & [-> | (pu & _ & _ & ->)])
       | [(_ & pu & _ & _ & ->) | (_ & _ & ->)]];
    settle.
Qed.

Lemma advanceP2_counts rnd fuel head2 st st' :
  advanceP2 rnd fuel head2 st = Done st' ->
  (timersInRange st -> timersInRange st') /\
  scores_p1 st' = scores_p1 st /\
  scores_p2 st <= scores_p2 st' <= scores_p2 st + 5 /\
  scores_pacman st' = scores_pacman st.
Proof.
  intros H. unfold timersInRange.
  destruct (advanceP2_cases _ _ _ _ _ H)
    as [(_ & f & _ & ->) | [(_ & pu & _ & _ & ->) | (_ & _ & ->)]];
    settle.
Qed.

Lemma moveP1_counts rnd fuel st head1 t :
  moveP1 rnd fuel st = Done (head1, t) ->
  (timersInRange st -> timersInRange (world t)) /\
  scores_p1 st <= scores_p1 (world t) <= scores_p1 st + 10 /\
  scores_p2 (world t) = scores_p2 st /\
  scores_pacman (world t) = scores_pacman st.
Proof.
  intros H.
  destruct (moveP1_cases _ _ _ _ _ H) as (_ & _ & s1 & e & Hp & Ha).
  destruct (pacmanInteraction_counts _ _ _ _ _ _ _ _ Hp) as (T1 & A1 & B1 & C1).
  destruct Ha as [(_ & ->) | (_ & Ha)].
  - split; [exact T1|]. lia.
  - destruct (advanceP1_counts _ _ _ _ _ _ Ha) as (T2 & A2 & B2 & C2).
    split; [auto|]. lia.
Qed.

Lemma moveP2_counts rnd fuel head1 t t' :
  moveP2 rnd fuel head1 t = Done t' ->
  (timersInRange (world t) -> timersInRange (world t')) /\
  scores_p1 (world t') = scores_p1 (world t) /\
  scores_p2 (world t) <= scores_p2 (world t') <= scores_p2 (world t) + 5 /\
  scores_pacman (world t') = scores_pacman (world t).
Proof.
  intros H.
  destruct (moveP2_cases _ _ _ _ _ H)
    as [(_ & ->) | (_ & head2 & _ & _ & [(_ & ->) | (_ & Ha)])].
  - split; [auto|]. lia.
  - split; [auto|]. lia.
  - exact (advanceP2_counts _ _ _ _ _ Ha).
Qed.

Lemma moveAI_counts rnd fuel t t' :
  moveAI rnd fuel t = Done t' ->
  (timersInRange (world t) -> timersInRange (world t')) /\
  scores_p1 (world t') = scores_p1 (world t) /\
  scores_p2 (world t') = scores_p2 (world t) /\
  scores_pacman (world t) <= scores_pacman (world t')
                          <= scores_pacman (world t) + 1.
Proof.
  intros H. unfold timersInRange.
  destruct (moveAI_cases _ _ _ _ H)
    as [(_ & ->)
       | (pac & _ & _ &
          [(F & ->) | [(_ & _ & ->)
                      | (_ & _ & h & rest & s2 & _ &
                         [(_ & ->) | (_ & f & _ & ->)] & ->)]])];
    settle.
Qed.

Lemma powerupTimers_counts (st : Game) :
  (timersInRange st -> timersInRange (powerupTimers st)) /\
  scores_p1 (powerupTimers st) = scores_p1 st /\
  scores_p2 (powerupTimers st) = scores_p2 st /\
  scores_pacman (powerupTimers st) = scores_pacman st.
Proof.
  unfold powerupTimers, timersInRange. cbn. split_tests; repeat split; intros;
    cbn in *; durations; z_facts; lia.
Qed.

Lemma resolveGameOver_counts (t : Tick) :
  (timersInRange (world t) -> timersInRange (resolveGameOver t)) /\
  scores_p1 (resolveGameOver t) = scores_p1 (world t) /\
  scores_p2 (resolveGameOver t) = scores_p2 (world t) /\
  scores_pacman (resolveGameOver t) = scores_pacman (world t).
Proof. unfold resolveGameOver, timersInRange. settle. Qed.

Lemma started_counts (st : Game) :
  (timersInRange st -> timersInRange (started st)) /\
  scores_p1 (started st) = scores_p1 st /\
  scores_p2 (started st) = scores_p2 st /\
  scores_pacman (started st) = scores_pacman st.
Proof.
  unfold started, commitDirs, timersInRange. cbn.
  destruct (mode st); cbn; repeat split; intros; lia.
Qed.

Lemma update_counts (dt : Q) rnd fuel st st' :
  update dt rnd fuel st = Done st' ->
  (timersInRange st -> timersInRange st') /\ scoresGrow st st'.
Proof.
  unfold update, scoresGrow. intros H.
  set (s0 := set_moveTimer (toDouble (moveTimer st + dt)) st) in *.
  destruct (powerupTimers_counts s0) as (T0 & A0 & B0 & C0).
  change (timersInRange s0) with (timersInRange st) in T0.
  change (scores_p1 s0) with (scores_p1 st) in A0.
  change (scores_p2 s0) with (scores_p2 st) in B0.
  change (scores_pacman s0) with (scores_pacman st) in C0.
  match type of H with (if ?c then _ else _) = _ => destruct c end.
  - rewrite move_started in H.
    destruct (started_counts (powerupTimers s0)) as (Ts & As & Bs & Cs).
    apply bind_Done in H. destruct H as ((head1 & t1) & H1 & H).
    apply bind_Done in H. destruct H as (t2 & H2 & H).
    apply bind_Done in H. destruct H as (t3 & H3 & H).
    injection H as <-.
    destruct (moveP1_counts _ _ _ _ _ H1) as (T1 & A1 & B1 & C1).
    destruct (moveP2_counts _ _ _ _ _ H2) as (T2 & A2 & B2 & C2).
    destruct (moveAI_counts _ _ _ _ H3) as (T3 & A3 & B3 & C3).
    destruct (resolveGameOver_counts t3) as (T4 & A4 & B4 & C4).
    split; [intros T; apply T4, T3, T2, T1, Ts, T0, T|]. lia.
  - injection H as <-. split; [exact T0|]. lia.
Qed.

(** X6: over a frame of [update] the three timers stay within their
    ranges: the speed and ghost timers between 0 and 200, the freeze of
    Pacman between 0 and 150. *)
Theorem timers_stay_in_range (dt : Q) (rnd : Rand) (fuel : nat) (st st' : Game)
    (H : update dt rnd fuel st = Done st')
    (T : timersInRange st) :
  timersInRange st'.
Proof. now apply (update_counts dt rnd fuel st st' H). Qed.

Lemma timers_stay_in_range_witness :
  exists st',
    update longFrame (dice (mkPoint 0 0) false) 3 ghostAhead = Done st' /\
    timersInRange st' /\ ghostTimer st' = 200.
Proof.
  eexists. split; [vm_compute; reflexivity|]. split; [|reflexivity].
  eapply (timers_stay_in_range longFrame (dice (mkPoint 0 0) false) 3 ghostAhead).
  - vm_compute. reflexivity.
  - unfold timersInRange. cbn. durations. lia.
Defined.

(** X7: no frame of [update] takes a point away: each of the three scores
    is at least what it was, player 1 has earned at most 10 points (the
    frozen Pacman and a power-up), player 2 at most 5 and Pacman at most 1. *)
Theorem scores_never_decrease (dt : Q) (rnd : Rand) (fuel : nat) (st st' : Game)
    (H : update dt rnd fuel st = Done st') :
  scoresGrow st st'.
Proof. now apply (update_counts dt rnd fuel st st' H). Qed.

Lemma scores_never_decrease_witness :
  exists st',
    update longFrame (dice (mkPoint 0 0) false) 3 foodAhead = Done st' /\
    scoresGrow foodAhead st' /\ scores_p1 st' = 1.
Proof.
  eexists. split; [vm_compute; reflexivity|]. split; [|reflexivity].
  eapply (scores_never_decrease longFrame (dice (mkPoint 0 0) false) 3 foodAhead).
  vm_compute. reflexivity.
Defined.

(** *** Bodies never run out *)

Lemma bind_TypeError {A B : Type} (o : Outcome A) (k : A -> Outcome B) :
  bind o k = TypeError ->
  o = TypeError \/ exists a, o = Done a /\ k a = TypeError.
Proof.
  destruct o; simpl; [|discriminate|auto]. intros H. right. now exists a.
Qed.

Lemma placeItem_never_throws draw fuel exclude :
  placeItem draw fuel exclude <> TypeError.
Proof. apply placeItemFrom_never_throws. Qed.

Lemma shrink_nonempty (l : list Point) : l <> [] -> shrink l <> [].
Proof.
  intros H E. assert (L : len (shrink l) = 0) by (rewrite E; reflexivity).
  rewrite len_shrink in L. unfold shrunk in L.
  assert (0 < len l).
  { destruct l; [contradiction|]. rewrite len_cons. unfold len. lia. }
  destruct (len l >? 3); lia.
Qed.

Lemma removelast_nonempty (p : Point) (l : list Point) :
  l <> [] -> removelast (p :: l) <> [].
Proof. destruct l; [contradiction | discriminate]. Qed.

Lemma pacmanInteraction_never_throws rnd fuel head1 dead st :
  pacmanInteraction rnd fuel head1 dead st <> TypeError.
Proof.
  unfold pacmanInteraction.
  destruct (mode st); [|discriminate].
  destruct (pacman st); [|discriminate].
  destruct (samePoint head1 p); [|discriminate].
  destruct (pacmanFrozen st >? 0); [|discriminate].
  cbv zeta. intros H. apply bind_TypeError in H.
  destruct H as [H | (a & _ & H)]; [|discriminate].
  now apply placeItem_never_throws in H.
Qed.

Lemma bind_never_throws {A B : Type} (o : Outcome A) (k : A -> Outcome B) :
  o <> TypeError -> (forall a, k a <> TypeError) -> bind o k <> TypeError.
Proof.
  intros Ho Hk. destruct o; simpl; [apply Hk | discriminate | now contradiction Ho].
Qed.

Ltac no_throw :=
  repeat match goal with
         | |- bind _ _ <> TypeError => apply bind_never_throws; [|intros ?]
         | |- placeItem _ _ _ <> TypeError => apply placeItem_never_throws
         | |- (if ?c then _ else _) <> TypeError => destruct c
         | |- match ?o with Some _ => _ | None => _ end <> TypeError =>
             destruct o
         | |- Done _ <> TypeError => discriminate
         end.

Lemma advanceP1_never_throws rnd fuel head1 eaten st :
  advanceP1 rnd fuel head1 eaten st <> TypeError.
Proof. unfold advanceP1, placePowerup. cbv zeta. no_throw. Qed.

Lemma advanceP2_never_throws rnd fuel head2 st :
  advanceP2 rnd fuel head2 st <> TypeError.
Proof. unfold advanceP2. cbv zeta. no_throw. Qed.

Lemma moveP1_throws rnd fuel st :
  moveP1 rnd fuel st = TypeError -> snake1 st = [].
Proof.
  unfold moveP1. intros H.
  apply bind_TypeError in H. destruct H as [H | (h & _ & H)].
  - destruct (snake1 st); [reflexivity | discriminate].
  - apply bind_TypeError in H. destruct H as [H | (((s1 & d) & e) & _ & H)].
    + now apply pacmanInteraction_never_throws in H.
    + apply bind_TypeError in H. destruct H as [H | (s2 & _ & H)];
        [|discriminate].
      destruct (negb d); [|discriminate].
      now apply advanceP1_never_throws in H.
Qed.

Lemma moveP2_throws rnd fuel head1 t :
  moveP2 rnd fuel head1 t = TypeError ->
  mode (world t) = PVP /\ snake2 (world t) = [].
Proof.
  unfold moveP2. intros H.
  destruct (mode (world t)); [discriminate|]. split; [reflexivity|].
  apply bind_TypeError in H. destruct H as [H | (h & _ & H)].
  - destruct (snake2 (world t)); [reflexivity | discriminate].
  - destruct (collisionsP2 head1 h t) as [d1 d2].
    apply bind_TypeError in H. destruct H as [H | (s2 & _ & H)];
      [|discriminate].
    destruct (negb d2); [|discriminate].
    now apply advanceP2_never_throws in H.
Qed.

Lemma moveAI_throws rnd fuel t :
  moveAI rnd fuel t = TypeError -> snake1 (world t) = [].
Proof.
  unfold moveAI. intros H.
  destruct (mode (world t)); [|discriminate].
  destruct (pacman (world t)) as [pac|]; [|discriminate].
  destruct (pacmanFrozen (world t) >? 0); [discriminate|]. cbv zeta in H.
  match type of H with (if ?c then _ else _) = _ => destruct c end;
    [|discriminate].
  apply bind_TypeError in H. destruct H as [H | (s2 & Hs & H)].
  - match type of H with (if ?c then _ else _) = _ => destruct c end;
      [|discriminate].
    apply bind_TypeError in H. destruct H as [H | (f & _ & H)];
      [|discriminate].
    now apply placeItem_never_throws in H.
  - assert (S2 : snake1 s2 = snake1 (world t)).
    { match type of Hs with (if ?c then _ else _) = _ => destruct c end.
      - apply bind_Done in Hs. destruct Hs as (f & _ & Hs).
        injection Hs as <-. reflexivity.
      - injection Hs as <-. reflexivity. }
    apply bind_TypeError in H. destruct H as [H | (d & _ & H)];
      [|discriminate].
    rewrite S2 in H. destruct (snake1 (world t)); [reflexivity | discriminate].
Qed.

(** The bodies after each phase. *)
Lemma advanceP1_body rnd fuel head1 eaten st st' :
  advanceP1 rnd fuel head1 eaten st = Done st' ->
  snake1 st <> [] ->
  snake1 st' <> [] /\ snake2 st' = snake2 st.
Proof.
  intros H N.
  destruct (advanceP1_cases _ _ _ _ _ _ H)
    as [(_ & f & _ & [-> | (pu & _ & _ & ->)])
       | [(_ & pu & _ & _ & ->) | (_ & _ & ->)]].
  - unfold fed1. cbn. autorewrite with play. cbn. split; [discriminate|reflexivity].
  - unfold fed1. cbn. autorewrite with play. cbn. split; [discriminate|reflexivity].
  - unfold collected1, applyPowerup1, timedEffect.
    destruct (type pu); cbn; (split; [|reflexivity]); try discriminate.
    apply shrink_nonempty. discriminate.
  - unfold stepped1. cbn. split; [|reflexivity].
    destruct eaten; [discriminate | now apply removelast_nonempty].
Qed.

Lemma advanceP2_body rnd fuel head2 st st' :
  advanceP2 rnd fuel head2 st = Done st' ->
  snake2 st <> [] ->
  snake2 st' <> [] /\ snake1 st' = snake1 st.
Proof.
  intros H N.
  destruct (advanceP2_cases _ _ _ _ _ H)
    as [(_ & f & _ & ->) | [(_ & pu & _ & _ & ->) | (_ & _ & ->)]].
  - unfold fed2. cbn. autorewrite with play. cbn. split; [discriminate|reflexivity].
  - unfold collected2, applyPowerup2, timedEffect.
    destruct (type pu); cbn; (split; [|reflexivity]); try discriminate.
    apply shrink_nonempty. discriminate.
  - unfold stepped2. cbn. split; [|reflexivity].
    now apply removelast_nonempty.
Qed.

Lemma moveP1_body rnd fuel st head1 t :
  moveP1 rnd fuel st = Done (head1, t) ->
  snake1 st <> [] ->
  snake1 (world t) <> [] /\ snake2 (world t) = snake2 st.
Proof.
  intros H N.
  destruct (moveP1_cases _ _ _ _ _ H) as (_ & _ & s1 & e & Hp & Ha).
  assert (P : snake1 s1 = snake1 st /\ snake2 s1 = snake2 st).
  { destruct (pacmanInteraction_cases _ _ _ _ _ _ _ _ Hp)
      as [(_ & -> & _) | [(_ & _ & -> & _) | (_ & _ & p & _ & -> & _)]];
      split; reflexivity. }
  destruct P as [P1 P2].
  destruct Ha as [(_ & ->) | (_ & Ha)].
  - rewrite P1, P2. auto.
  - rewrite <- P1 in N. destruct (advanceP1_body _ _ _ _ _ _ Ha N) as [A B].
    split; [exact A | congruence].
Qed.

Lemma moveP2_body rnd fuel head1 t t' :
  moveP2 rnd fuel head1 t = Done t' ->
  snake1 (world t') = snake1 (world t) /\
  (snake2 (world t) <> [] -> snake2 (world t') <> []) /\
  (mode (world t) = PVC -> snake2 (world t') = snake2 (world t)).
Proof.
  intros H.
  destruct (moveP2_cases _ _ _ _ _ H)
    as [(_ & ->) | (M & head2 & _ & _ & [(_ & ->) | (_ & Ha)])].
  - auto.
  - auto.
  - split; [|split].
    + now apply (moveP2_after _ _ _ _ _ H).
    + intros N. now apply (advanceP2_body _ _ _ _ _ Ha N).
    + intros M'. congruence.
Qed.

Lemma moveAI_body rnd fuel t t' :
  moveAI rnd fuel t = Done t' ->
  snake1 (world t') = snake1 (world t) /\ snake2 (world t') = snake2 (world t).
Proof.
  intros H. destruct (moveAI_after _ _ _ _ H) as (_ & _ & A & B & _). auto.
Qed.

(** What the timers and the commit of the directions leave alone. *)
Lemma powerupTimers_fields (st : Game) :
  snake1 (powerupTimers st) = snake1 st /\
  snake2 (powerupTimers st) = snake2 st /\
  mode (powerupTimers st) = mode st /\
  food (powerupTimers st) = food st /\
  pacman (powerupTimers st) = pacman st /\
  powerup (powerupTimers st) = powerup st /\
  gameState (powerupTimers st) = gameState st /\
  baseMoveInterval (powerupTimers st) = baseMoveInterval st.
Proof. unfold powerupTimers. cbn. split_tests; repeat split. Qed.

Lemma move_never_throws rnd fuel st :
  crewed st ->
  move rnd fuel st <> TypeError /\
  forall st', move rnd fuel st = Done st' -> crewed st'.
Proof.
  intros [N1 N2]. rewrite move_started.
  destruct (started_fields st) as (S1 & S2 & _ & M & _).
  assert (N1' : snake1 (started st) <> []) by congruence.
  split.
  - intros H. apply bind_TypeError in H.
    destruct H as [H | ((head1 & t1) & H1 & H)].
    { apply moveP1_throws in H. contradiction. }
    destruct (moveP1_body _ _ _ _ _ H1 N1') as (B1 & B2).
    destruct (moveP1_setup _ _ _ _ _ H1) as (M1 & _).
    apply bind_TypeError in H. destruct H as [H | (t2 & H2 & H)].
    { apply moveP2_throws in H. destruct H as [Hm Hs].
      apply N2; congruence. }
    destruct (moveP2_body _ _ _ _ _ H2) as (C1 & _).
    apply bind_TypeError in H. destruct H as [H | (t3 & _ & H)];
      [|discriminate].
    apply moveAI_throws in H. congruence.
  - intros st' H.
    apply bind_Done in H. destruct H as ((head1 & t1) & H1 & H).
    apply bind_Done in H. destruct H as (t2 & H2 & H).
    apply bind_Done in H. destruct H as (t3 & H3 & H).
    injection H as <-.
    destruct (moveP1_body _ _ _ _ _ H1 N1') as (B1 & B2).
    destruct (moveP1_setup _ _ _ _ _ H1) as (M1 & _).
    destruct (moveP2_body _ _ _ _ _ H2) as (C1 & C2 & _).
    destruct (moveP2_setup _ _ _ _ _ H2) as (M2 & _).
    destruct (moveAI_body _ _ _ _ H3) as (D1 & D2).
    destruct (moveAI_setup _ _ _ _ H3) as (M3 & _).
    destruct (resolveGameOver_fields t3) as (R1 & R2 & _).
    destruct (resolveGameOver_setup t3) as (M4 & _).
    unfold crewed. rewrite R1, R2, D1, D2, C1, M4, M3, M2, M1, M.
    split; [exact B1|]. intros Hm. apply C2. rewrite B2, S2. now apply N2.
Qed.

Lemma update_crew (dt : Q) rnd fuel st :
  crewed st ->
  update dt rnd fuel st <> TypeError /\
  forall st', update dt rnd fuel st = Done st' -> crewed st'.
Proof.
  intros C. unfold update.
  set (s0 := powerupTimers (set_moveTimer (toDouble (moveTimer st + dt)) st)).
  assert (C0 : crewed s0).
  { destruct (powerupTimers_fields (set_moveTimer (toDouble (moveTimer st + dt)) st))
      as (F1 & F2 & F3 & _).
    unfold crewed, s0. rewrite F1, F2, F3. exact C. }
  match goal with |- context [if ?c then _ else _] => destruct c end.
  - now apply move_never_throws.
  - split; [discriminate|]. intros st' H. injection H as <-. exact C0.
Qed.

(** X8: [update] never reads the head of an empty body.  From a state in
    which every playing snake has at least one segment, a frame of
    [update] does not throw, and every playing snake still has at least
    one segment after it. *)
Theorem update_never_throws (dt : Q) (rnd : Rand) (fuel : nat) (st : Game)
    (C : crewed st) :
  update dt rnd fuel st <> TypeError /\
  forall st', update dt rnd fuel st = Done st' -> crewed st'.
Proof. exact (update_crew dt rnd fuel st C). Qed.

Lemma update_never_throws_witness :
  update longFrame (dice (mkPoint 9 9) false) 3 coiled <> TypeError.
Proof.
  apply (update_never_throws longFrame (dice (mkPoint 9 9) false) 3 coiled).
  split; [discriminate|]. intros M. discriminate M.
Defined.

(** *** Everything stays on the grid *)

Lemma placeItem_draws (draw : nat -> Point) fuel exclude p :
  placeItem draw fuel exclude = Done p -> exists k, p = draw k.
Proof.
  intros H. destruct (placeItemFrom_sound draw exclude p fuel 0 H)
    as (k & _ & Hp & _).
  now exists k.
Qed.

Lemma Forall_firstn_grid (n : nat) (l : list Point) :
  Forall onGrid l -> Forall onGrid (firstn n l).
Proof.
  revert l. induction n as [|n IH]; intros l H; [constructor|].
  destruct l as [|p l]; [constructor|]. inversion H; subst.
  cbn. constructor; auto.
Qed.

Lemma Forall_shrink_grid (l : list Point) :
  Forall onGrid l -> Forall onGrid (shrink l).
Proof.
  intros H. unfold shrink. destruct (len l >? 3); [|exact H].
  now apply Forall_firstn_grid.
Qed.

Lemma Forall_removelast_grid (l : list Point) :
  Forall onGrid l -> Forall onGrid (removelast l).
Proof.
  induction l as [|p l IH]; intros H; [constructor|]. inversion H; subst.
  destruct l as [|q l]; [constructor|].
  change (removelast (p :: q :: l)) with (p :: removelast (q :: l)).
  constructor; auto.
Qed.

Lemma pacmanTarget_on_grid sign pac foodAt snake :
  onGrid (pacmanTarget sign pac foodAt snake).
Proof.
  unfold pacmanTarget. cbv zeta.
  match goal with |- context [if checkCollision ?p ?l then _ else _] =>
    destruct (checkCollision p l) end;
    split; cbn [x y]; apply wrap_range; reflexivity.
Qed.

Lemma chaserStep_on_grid sign pac st :
  onGrid pac -> onGrid (chaserStep sign pac st).
Proof.
  intros H. unfold chaserStep. cbv zeta.
  match goal with |- context [if ?c then _ else _] => destruct c end;
    [apply pacmanTarget_on_grid | exact H].
Qed.

Ltac board :=
  open_states; unfold onBoard; cbn; autorewrite with play; cbn;
  (split; [|split; [|split; [|split]]]).

Lemma pacmanInteraction_board rnd fuel head1 dead st s1 dead' eaten :
  fairDice rnd ->
  pacmanInteraction rnd fuel head1 dead st = Done (s1, dead', eaten) ->
  onBoard st -> onBoard s1.
Proof.
  intros D H B.
  destruct (pacmanInteraction_cases _ _ _ _ _ _ _ _ H)
    as [(_ & -> & _) | [(_ & _ & -> & _) | (_ & _ & p & Hp & -> & _)]];
    try exact B.
  destruct B as (B1 & B2 & B3 & B4 & B5).
  apply placeItem_draws in Hp. destruct Hp as (k & ->).
  board; try assumption.
  intros p E. injection E as <-. apply (D k).
Qed.

Lemma advanceP1_board rnd fuel head1 eaten st st' :
  fairDice rnd -> onGrid head1 ->
  advanceP1 rnd fuel head1 eaten st = Done st' ->
  onBoard st -> onBoard st'.
Proof.
  intros D G H (B1 & B2 & B3 & B4 & B5).
  destruct (advanceP1_cases _ _ _ _ _ _ H)
    as [(_ & f & Hf & [-> | (pu & _ & Hpu & ->)])
       | [(_ & pu & _ & _ & ->) | (_ & _ & ->)]].
  - apply placeItem_draws in Hf. destruct Hf as (k & ->).
    board; try assumption; [constructor; assumption | apply (D k)].
  - apply placeItem_draws in Hf. destruct Hf as (k & ->).
    unfold placePowerup in Hpu. apply bind_Done in Hpu.
    destruct Hpu as (q & Hq & Hpu). injection Hpu as <-.
    apply placeItem_draws in Hq. destruct Hq as (j & ->).
    board; try assumption;
      [constructor; assumption | apply (D k) |].
    intros pu E. injection E as <-. apply (D j).
  - unfold collected1. destruct (type pu); board; try assumption;
      try (constructor; assumption); try discriminate.
    apply Forall_shrink_grid. constructor; assumption.
  - board; try assumption.
    destruct eaten; [constructor; assumption|].
    apply (Forall_removelast_grid (head1 :: snake1 st)).
    constructor; assumption.
Qed.

Lemma advanceP2_board rnd fuel head2 st st' :
  fairDice rnd -> onGrid head2 ->
  advanceP2 rnd fuel head2 st = Done st' ->
  onBoard st -> onBoard st'.
Proof.
  intros D G H (B1 & B2 & B3 & B4 & B5).
  destruct (advanceP2_cases _ _ _ _ _ H)
    as [(_ & f & Hf & ->) | [(_ & pu & _ & _ & ->) | (_ & _ & ->)]].
  - apply placeItem_draws in Hf. destruct Hf as (k & ->).
    board; try assumption; [constructor; assumption | apply (D k)].
  - unfold collected2. destruct (type pu); board; try assumption;
      try (constructor; assumption); try discriminate.
    apply Forall_shrink_grid. constructor; assumption.
  - board; try assumption.
    apply (Forall_removelast_grid (head2 :: snake2 st)).
    constructor; assumption.
Qed.

Lemma moveP1_board rnd fuel st head1 t :
  fairDice rnd ->
  moveP1 rnd fuel st = Done (head1, t) ->
  onBoard st -> onGrid head1 /\ onBoard (world t).
Proof.
  intros D H B.
  destruct (moveP1_cases _ _ _ _ _ H) as (Hh & _ & s1 & e & Hp & Ha).
  pose proof (nextHead_on_grid _ _ _ Hh) as G.
  split; [exact G|].
  pose proof (pacmanInteraction_board _ _ _ _ _ _ _ _ D Hp B) as B1.
  destruct Ha as [(_ & ->) | (_ & Ha)]; [exact B1|].
  exact (advanceP1_board _ _ _ _ _ _ D G Ha B1).
Qed.

Lemma moveP2_board rnd fuel head1 t t' :
  fairDice rnd ->
  moveP2 rnd fuel head1 t = Done t' ->
  onBoard (world t) -> onBoard (world t').
Proof.
  intros D H B.
  destruct (moveP2_cases _ _ _ _ _ H)
    as [(_ & ->) | (_ & head2 & Hh & _ & [(_ & ->) | (_ & Ha)])];
    try exact B.
  pose proof (nextHead_on_grid _ _ _ Hh) as G.
  exact (advanceP2_board _ _ _ _ _ D G Ha B).
Qed.

Lemma chaserTramples_board pac st : onBoard st -> onBoard (chaserTramples pac st).
Proof.
  intros B. unfold chaserTramples.
  destruct (powerup st) as [pu|] eqn:E; [|exact B].
  destruct (samePoint pac (at_ pu)); [|exact B].
  destruct B as (B1 & B2 & B3 & B4 & B5).
  unfold onBoard. cbn. split; [|split; [|split; [|split]]]; try assumption.
  discriminate.
Qed.

Lemma moveAI_board rnd fuel t t' :
  fairDice rnd ->
  moveAI rnd fuel t = Done t' ->
  onBoard (world t) -> onBoard (world t').
Proof.
  intros D H B.
  destruct (moveAI_cases _ _ _ _ H)
    as [(_ & ->)
       | (pac & _ & P &
          [(F & ->) | [(_ & _ & ->)
                      | (_ & _ & h & rest & s2 & _ & Hs & ->)]])];
    try exact B.
  cbn [world]. apply chaserTramples_board.
  destruct B as (B1 & B2 & B3 & B4 & B5).
  pose proof (chaserStep_on_grid (rndSign rnd) pac (world t) (B4 pac P)) as G.
  destruct Hs as [(_ & ->) | (_ & f & Hf & ->)].
  - board; try assumption. intros p E. injection E as <-. exact G.
  - apply placeItem_draws in Hf. destruct Hf as (k & ->).
    board; try assumption; [apply (D k)|].
    intros p E. injection E as <-. exact G.
Qed.

Lemma prelude_board (v : Q) (st : Game) :
  onBoard st -> onBoard (started (powerupTimers (set_moveTimer v st))).
Proof.
  intros B.
  destruct (started_fields (powerupTimers (set_moveTimer v st)))
    as (S1 & S2 & _ & _ & _ & Pc & _ & F & Pu & _).
  destruct (powerupTimers_fields (set_moveTimer v st))
    as (T1 & T2 & _ & T4 & T5 & T6 & _).
  unfold onBoard. rewrite S1, S2, F, Pc, Pu, T1, T2, T4, T5, T6. exact B.
Qed.

Lemma update_board (dt : Q) rnd fuel st st' :
  fairDice rnd -> onBoard st -> update dt rnd fuel st = Done st' ->
  onBoard st'.
Proof.
  intros D B H. unfold update in H.
  match type of H with (if ?c then _ else _) = _ => destruct c end.
  - rewrite move_started in H.
    apply bind_Done in H. destruct H as ((head1 & t1) & H1 & H).
    apply bind_Done in H. destruct H as (t2 & H2 & H).
    apply bind_Done in H. destruct H as (t3 & H3 & H).
    injection H as <-.
    pose proof (prelude_board (toDouble (moveTimer st + dt)) st B) as B0.
    destruct (moveP1_board _ _ _ _ _ D H1 B0) as (_ & B1).
    pose proof (moveP2_board _ _ _ _ _ D H2 B1) as B2.
    pose proof (moveAI_board _ _ _ _ D H3 B2) as B3.
    unfold resolveGameOver. destruct (p1Dead t3 || p2Dead t3); exact B3.
  - injection H as <-.
    destruct (powerupTimers_fields (set_moveTimer (toDouble (moveTimer st + dt)) st))
      as (T1 & T2 & _ & T4 & T5 & T6 & _).
    unfold onBoard. rewrite T1, T2, T4, T5, T6. exact B.
Qed.

(** X9: with draws that are cells of the grid, a frame of [update] keeps
    everything on the grid: every segment of both snakes, the food,
    Pacman and the power-up. *)
Theorem everything_stays_on_the_grid (dt : Q) (rnd : Rand) (fuel : nat)
    (st st' : Game)
    (D : fairDice rnd) (B : onBoard st)
    (H : update dt rnd fuel st = Done st') :
  onBoard st'.
Proof. exact (update_board dt rnd fuel st st' D B H). Qed.

Lemma everything_stays_on_the_grid_witness :
  exists st',
    update longFrame (dice (mkPoint 9 9) false) 3 powerupAhead = Done st' /\
    onBoard st'.
Proof.
  eexists. split; [vm_compute; reflexivity|].
  apply (everything_stays_on_the_grid longFrame (dice (mkPoint 9 9) false) 3
           powerupAhead).
  - intros i. unfold onGrid. cbn. grid_lia.
  - unfold onBoard. split; [|split; [|split; [|split]]].
    + repeat constructor; cbn; grid_lia.
    + constructor.
    + unfold onGrid. cbn. grid_lia.
    + intros p E. injection E as <-. unfold onGrid. cbn. grid_lia.
    + intros pu E. injection E as <-. unfold onGrid. cbn. grid_lia.
  - vm_compute. reflexivity.
Defined.

(** *** The start of a round *)

Lemma pacmanStartFrom_sound (draw : nat -> Point) (startX : Z) (p : Point) :
  forall fuel i,
    pacmanStartFrom draw startX fuel i = Done p ->
    5 <= Z.abs (x p - startX) /\ exists k, p = draw k.
Proof.
  induction fuel as [|fuel IH]; intros i; simpl; [discriminate|].
  destruct (Z.abs (x (draw i) - startX) <? 5) eqn:E.
  - apply IH.
  - intros H. injection H as <-. apply Z.ltb_ge in E. split; [exact E|].
    now exists i.
Qed.

(** X10: [resetGame] starts a sound round.  The game is being played in
    the mode asked for, the scores and the timers are at 0, no power-up is
    out, player 1 is one segment heading up, everything is on the grid,
    and the food is on no snake and not on Pacman.  In a single-player
    round Pacman starts at least 5 columns away from the snake and there
    is no second snake; in a two-player round there is no Pacman. *)
Theorem resetGame_starts_a_sound_round (newMode : GameMode) (rnd : Rand)
    (fuel : nat) (st st' : Game)
    (D : fairDice rnd)
    (H : resetGame newMode rnd fuel st = Done st') :
  gameState st' = playing /\ mode st' = newMode /\
  (scores_p1 st' = 0 /\ scores_p2 st' = 0 /\ scores_pacman st' = 0) /\
  (speedBoostTimer st' = 0 /\ ghostTimer st' = 0 /\ pacmanFrozen st' = 0) /\
  powerup st' = None /\
  (exists h, snake1 st' = [h] /\ dir1 st' = up /\ nextDir1 st' = up) /\
  crewed st' /\ onBoard st' /\
  ~ In (food st') (snake1 st') /\ ~ In (food st') (snake2 st') /\
  pacman st' <> Some (food st') /\
  match newMode with
  | PVC => snake2 st' = [] /\
           exists p h, pacman st' = Some p /\ snake1 st' = [h] /\
                       5 <= Z.abs (x p - x h)
  | PVP => pacman st' = None /\
           exists h2, snake2 st' = [h2] /\ dir2 st' = up /\ nextDir2 st' = up
  end.
Proof.
  unfold resetGame in H. cbv zeta in H.
  apply bind_Done in H. destruct H as (s1 & H1 & H).
  apply bind_Done in H. destruct H as (f & Hf & H).
  injection H as <-.
  pose proof (placeItem_free _ _ _ _ Hf) as Free.
  apply placeItem_draws in Hf. destruct Hf as (k & ->).
  assert (Gf : onGrid (rndFood1 rnd k)) by apply (D k).
  destruct newMode.
  - apply bind_Done in H1. destruct H1 as (p & Hp & H1).
    injection H1 as <-.
    apply pacmanStartFrom_sound in Hp. destruct Hp as (Far & j & Ej).
    assert (Gp : onGrid p) by (rewrite Ej; apply (D j)).
    cbn in Free |- *.
    repeat match goal with |- _ /\ _ => split end; try reflexivity;
      try discriminate.
    + eexists. repeat split.
    + split; [discriminate | intros M; discriminate M].
    + unfold onBoard. cbn. split; [|split; [|split; [|split]]].
      * repeat constructor; cbn; grid_lia.
      * constructor.
      * exact Gf.
      * intros q E. injection E as <-. exact Gp.
      * intros q E. discriminate E.
    + intros [K | []]. apply Free. left. exact K.
    + intros [].
    + intros K. injection K as K. apply Free. right. left. exact K.
    + exists p. eexists. repeat split. exact Far.
  - injection H1 as <-. cbn in Free |- *.
    repeat match goal with |- _ /\ _ => split end; try reflexivity;
      try discriminate.
    + eexists. repeat split.
    + split; [discriminate | intros _; discriminate].
    + unfold onBoard. cbn. split; [|split; [|split; [|split]]].
      * repeat constructor; cbn; grid_lia.
      * repeat constructor; cbn; grid_lia.
      * exact Gf.
      * intros q E. discriminate E.
      * intros q E. discriminate E.
    + intros [K | []]. apply Free. left. exact K.
    + intros [K | []]. apply Free. right. left. exact K.
    + eexists. repeat split.
Qed.

Lemma resetGame_starts_a_sound_round_witness :
  exists st',
    resetGame PVC (startDice (mkPoint 3 3) (mkPoint 9 9)) 3 mounted = Done st' /\
    crewed st' /\ onBoard st' /\ pacman st' = Some (mkPoint 3 3).
Proof.
  eexists. split; [vm_compute; reflexivity|].
  assert (D : fairDice (startDice (mkPoint 3 3) (mkPoint 9 9)))
    by (intros i; unfold onGrid; cbn; grid_lia).
  destruct (resetGame_starts_a_sound_round PVC
              (startDice (mkPoint 3 3) (mkPoint 9 9)) 3
              mounted _ D ltac:(vm_compute; reflexivity))
    as (_ & _ & _ & _ & _ & _ & C & B & _).
  split; [exact C|]. split; [exact B | reflexivity].
Defined.

(** *** Pacman and the snake *)

(** X11: Pacman never steps onto the snake.  After the AI phase he is
    either where he was or on the cell he aimed at, which is then on no
    segment of the snake; and when that phase kills player 1, Pacman has
    not moved: he was already standing on the cell of the head. *)
Theorem chaser_never_steps_onto_the_snake (rnd : Rand) (fuel : nat)
    (t t' : Tick) (pac : Point)
    (H : moveAI rnd fuel t = Done t')
    (P : pacman (world t) = Some pac) :
  exists pac',
    pacman (world t') = Some pac' /\
    (pac' = pac \/
     (pac' = pacmanTarget (rndSign rnd) pac (food (world t)) (snake1 (world t))
      /\ ~ In pac' (snake1 (world t')))) /\
    (p1Dead t = false -> p1Dead t' = true ->
     pac' = pac /\ exists rest, snake1 (world t') = pac :: rest).
Proof.
  destruct (moveAI_body _ _ _ _ H) as (S1 & _).
  destruct (moveAI_cases _ _ _ _ H)
    as [(_ & ->)
       | (pac0 & _ & P0 &
          [(F & ->) | [(_ & _ & ->)
                      | (_ & _ & h & rest & s2 & Hs1 & Hs & ->)]])].
  - exists pac. split; [exact P|]. split; [auto|]. congruence.
  - exists pac. cbn. split; [exact P|]. split; [auto|]. congruence.
  - exists pac. cbn. split; [exact P|]. split; [auto|]. congruence.
  - rewrite P in P0. injection P0 as <-.
    cbn [world p1Dead] in *.
    set (pac' := chaserStep (rndSign rnd) pac (world t)) in *.
    exists pac'.
    assert (Pp : pacman (chaserTramples pac' s2) = Some pac').
    { unfold chaserTramples.
      assert (E : pacman s2 = Some pac')
        by (destruct Hs as [(_ & ->) | (_ & f & _ & ->)]; reflexivity).
      destruct (powerup s2) as [pu|]; [|exact E].
      destruct (samePoint pac' (at_ pu)); exact E. }
    split; [exact Pp|].
    assert (Step : pac' = pac \/
                   (pac' = pacmanTarget (rndSign rnd) pac (food (world t))
                             (snake1 (world t)) /\
                    ~ In pac' (snake1 (world t)))).
    { unfold pac', chaserStep. cbv zeta.
      destruct (checkCollision
                  (pacmanTarget (rndSign rnd) pac (food (world t))
                     (snake1 (world t))) (snake1 (world t))) eqn:E; cbn [negb].
      - left. reflexivity.
      - right. split; [reflexivity|]. intros K.
        apply checkCollision_In in K. congruence. }
    split.
    + destruct Step as [E | (E & N)]; [left; exact E|].
      right. split; [exact E|]. rewrite S1. exact N.
    + intros D0 D1. rewrite D0 in D1.
      destruct (samePoint pac' h) eqn:E; [|discriminate].
      apply samePoint_eq in E.
      destruct Step as [Ep | (_ & N)].
      * split; [exact Ep|]. exists rest. rewrite S1, Hs1. congruence.
      * exfalso. apply N. rewrite Hs1, E. left. reflexivity.
Qed.

Lemma chaser_never_steps_onto_the_snake_witness :
  exists t',
    moveAI (dice (mkPoint 0 0) false) 3
      (mkTick (started chaserFeeds) false false) = Done t' /\
    exists pac', pacman (world t') = Some pac' /\
                 ~ In pac' (snake1 (world t')).
Proof.
  assert (H : moveAI (dice (mkPoint 0 0) false) 3
                (mkTick (started chaserFeeds) false false)
              = Done (mkTick
                        (chaserFed (mkPoint 0 0)
                           (set_pacman (Some (mkPoint 3 4))
                              (set_pacmanMoveTick 2 (started chaserFeeds))))
                        false false))
    by (vm_compute; reflexivity).
  eexists. split; [exact H|].
  destruct (chaser_never_steps_onto_the_snake _ _ _ _ (mkPoint 3 5) H eq_refl)
    as (pac' & E & [K | (_ & N)] & _).
  - exfalso. rewrite K in E. discriminate E.
  - exists pac'. split; [exact E | exact N].
Defined.

(** *** The leaderboard *)

Lemma insertByScore_perm (e : HighScore) (l : list HighScore) :
  Permutation (insertByScore e l) (e :: l).
Proof.
  induction l as [|s l IH]; simpl; [reflexivity|].
  destruct (score s >=? score e); [|reflexivity].
  rewrite IH. apply perm_swap.
Qed.

Lemma insertByScore_sorted (e : HighScore) (l : list HighScore) :
  byDecreasingScore l -> byDecreasingScore (insertByScore e l).
Proof.
  induction l as [|s l IH]; simpl; [intros _; split; [intros ? []|exact I]|].
  intros [Hs Hl]. destruct (score s >=? score e) eqn:E;
    rewrite Z.geb_leb in E; [apply Z.leb_le in E | apply Z.leb_gt in E].
  - simpl. split; [|auto]. intros e' Hin.
    apply (Permutation_in _ (insertByScore_perm e l)) in Hin.
    destruct Hin as [<- | Hin]; [lia | auto].
  - simpl. split; [|split; assumption]. intros e' [<- | Hin]; [lia|].
    specialize (Hs e' Hin). lia.
Qed.

Lemma insertByScore_last (e : HighScore) (l : list HighScore) :
  (forall s, In s l -> score e <= score s) -> insertByScore e l = l ++ [e].
Proof.
  induction l as [|s l IH]; simpl; [reflexivity|]. intros H.
  assert (E : (score s >=? score e) = true).
  { specialize (H s (or_introl eq_refl)). rewrite Z.geb_leb. apply Z.leb_le. lia. }
  rewrite E. f_equal. apply IH. intros s' Hs'. apply H. now right.
Qed.

Lemma sortInto_spec (entries acc : list HighScore) :
  byDecreasingScore acc ->
  byDecreasingScore (fold_left (fun sorted e => insertByScore e sorted) entries acc)
  /\ Permutation (fold_left (fun sorted e => insertByScore e sorted) entries acc)
       (acc ++ entries).
Proof.
  revert acc. induction entries as [|e entries IH]; intros acc H; simpl.
  - split; [exact H|]. now rewrite app_nil_r.
  - destruct (IH (insertByScore e acc) (insertByScore_sorted e acc H)) as [S P].
    split; [exact S|]. rewrite P. rewrite insertByScore_perm.
    apply Permutation_middle.
Qed.

Lemma sortByScore_spec (entries : list HighScore) :
  byDecreasingScore (sortByScore entries) /\
  Permutation (sortByScore entries) entries.
Proof. apply (sortInto_spec entries []). exact I. Qed.

(** Entries already in order are left in their order. *)
Lemma sortInto_sorted (entries acc : list HighScore) :
  byDecreasingScore (acc ++ entries) ->
  fold_left (fun sorted e => insertByScore e sorted) entries acc = acc ++ entries.
Proof.
  revert acc. induction entries as [|e entries IH]; intros acc H; simpl.
  - now rewrite app_nil_r.
  - assert (L : insertByScore e acc = acc ++ [e]).
    { apply insertByScore_last. clear IH.
      induction acc as [|a acc IHa]; [intros ? []|].
      simpl in H. destruct H as [Ha Hrest]. intros s [<- | Hs].
      - apply Ha. apply in_or_app. right. now left.
      - now apply IHa. }
    rewrite L, IH; rewrite <- app_assoc; [reflexivity | exact H].
Qed.

Lemma byDecreasingScore_app (a b : list HighScore) :
  byDecreasingScore (a ++ b) ->
  byDecreasingScore a /\
  forall e d, In e a -> In d b -> score d <= score e.
Proof.
  induction a as [|s a IH]; simpl; [intros _; split; [exact I | intros ? ? []]|].
  intros [Hs Hrest]. destruct (IH Hrest) as [Sa Hab]. split.
  - split; [|exact Sa]. intros e' Hin. apply Hs. apply in_or_app. now left.
  - intros e d [<- | He] Hd; [|now apply Hab].
    apply Hs. apply in_or_app. now right.
Qed.

(** X12: the list of high scores that [saveScore] stores is in order of
    decreasing score and holds at most [MAX_HIGH_SCORES] entries: the old
    entries and the new one, less the ones dropped, none of which has a
    better score than an entry that was kept. *)
Theorem saveScore_keeps_the_best (today name_ : string) (score_ : Z)
    (highScores : list HighScore) :
  let board := saveScore today name_ score_ highScores in
  byDecreasingScore board /\
  List.length board = Nat.min (S (List.length highScores)) 10 /\
  exists dropped,
    Permutation (board ++ dropped)
      (highScores ++ [mkHighScore name_ score_ today]) /\
    forall e d, In e board -> In d dropped -> score d <= score e.
Proof.
  cbv zeta. unfold saveScore. cbv zeta.
  set (entries := highScores ++ [mkHighScore name_ score_ today]).
  destruct (sortByScore_spec entries) as [S P].
  change (Z.to_nat MAX_HIGH_SCORES) with 10%nat.
  pose proof (firstn_skipn 10 (sortByScore entries)) as Split.
  rewrite <- Split in S. apply byDecreasingScore_app in S. destruct S as [S1 S2].
  split; [exact S1|]. split.
  - rewrite length_firstn. rewrite (Permutation_length P).
    unfold entries. rewrite length_app. cbn [List.length]. lia.
  - exists (skipn 10 (sortByScore entries)). split; [|exact S2].
    rewrite Split. exact P.
Qed.

(** X13: on a full board in order, a score that does not beat the last
    place changes nothing, ties included: the entries of equal score
    that were there first stay ahead of the new one. *)
Theorem saveScore_needs_a_better_score (today name_ : string) (score_ : Z)
    (highScores : list HighScore)
    (Full : List.length highScores = 10%nat)
    (Sorted : byDecreasingScore highScores)
    (Low : forall e, In e highScores -> score_ <= score e) :
  saveScore today name_ score_ highScores = highScores.
Proof.
  unfold saveScore. cbv zeta. change (Z.to_nat MAX_HIGH_SCORES) with 10%nat.
  unfold sortByScore.
  rewrite (sortInto_sorted (highScores ++ [mkHighScore name_ score_ today]) []).
  - rewrite app_nil_l, <- Full, firstn_app, Nat.sub_diag, firstn_all.
    cbn [firstn]. apply app_nil_r.
  - rewrite app_nil_l. clear Full. induction highScores as [|h hs IH].
    + simpl. split; [intros ? []|exact I].
    + simpl in *. destruct Sorted as [Hh Hs]. split.
      * intros e' Hin. apply in_app_or in Hin.
        destruct Hin as [Hin | [<- | []]]; [now apply Hh|].
        simpl. apply Low. now left.
      * apply IH; [exact Hs|]. intros e He. apply Low. now right.
Qed.

Lemma saveScore_needs_a_better_score_witness :
  saveScore "2/2/2025" "BBB" 10 fullBoard = fullBoard.
Proof.
  apply saveScore_needs_a_better_score.
  - reflexivity.
  - vm_compute. repeat split; intros e' H;
      repeat (destruct H as [<- | H]; [vm_compute; discriminate|]);
      destruct H.
  - intros e H. vm_compute in H.
    repeat (destruct H as [<- | H]; [vm_compute; discriminate|]).
    destruct H.
Defined.

(** *** The pace of the game *)

Lemma paced_same (st st' : Game) :
  baseMoveInterval st' = baseMoveInterval st ->
  moveInterval st' = moveInterval st ->
  paced st -> paced st'.
Proof. unfold paced. intros -> ->. auto. Qed.

Lemma increaseSpeed_paced (st : Game) : paced st -> paced (increaseSpeed st).
Proof.
  unfold paced, increaseSpeed. cbv zeta. intros [[B1 B2] [I1 I2]].
  assert (K : (inject_Z 60 <= Qmax (inject_Z 60) (baseMoveInterval st - inject_Z 1)
               <= inject_Z 120)%Q).
  { split; [apply Q.le_max_l|]. apply Q.max_lub.
    - unfold inject_Z. lra.
    - unfold inject_Z in *. lra. }
  match goal with |- context [if ?c then _ else _] => destruct c end; cbn.
  - split; [exact K|]. destruct K as [K1 K2]. unfold inject_Z in *. split; lra.
  - split; [exact K | split; assumption].
Qed.

Lemma timedEffect_paced (kind : PowerupType) (st : Game) :
  paced st -> paced (timedEffect kind st).
Proof.
  unfold paced. intros [[B1 B2] [I1 I2]].
  destruct kind; cbn; (split; [split; assumption|]); try (split; assumption).
  - split.
    + apply Q.le_max_l.
    + apply Q.max_lub; [unfold inject_Z; lra|].
      unfold inject_Z, Qdiv in *. change (/ (2 # 1))%Q with (1 # 2)%Q. lra.
  - split.
    + apply Q.min_glb; unfold inject_Z in *; lra.
    + eapply Qle_trans; [apply Q.le_min_r|]. unfold inject_Z in *. lra.
Qed.

Lemma applyPowerup1_paced kind st : paced st -> paced (applyPowerup1 kind st).
Proof.
  intros P. destruct kind; try exact (timedEffect_paced _ st P). exact P.
Qed.

Lemma applyPowerup2_paced kind st : paced st -> paced (applyPowerup2 kind st).
Proof.
  intros P. destruct kind; try exact (timedEffect_paced _ st P). exact P.
Qed.

Lemma powerupTimers_paced (st : Game) : paced st -> paced (powerupTimers st).
Proof.
  unfold paced, powerupTimers. cbv zeta. intros [[B1 B2] [I1 I2]].
  destruct (speedBoostTimer st >? 0); cbn;
    [destruct (speedBoostTimer st - 1 =? 0); cbn|];
    destruct (ghostTimer st >? 0); cbn;
    (split; [split; assumption|]); split;
    try assumption; unfold inject_Z in *; lra.
Qed.

Lemma advanceP1_paced rnd fuel head1 eaten st st' :
  advanceP1 rnd fuel head1 eaten st = Done st' -> paced st -> paced st'.
Proof.
  intros H P.
  destruct (advanceP1_cases _ _ _ _ _ _ H)
    as [(_ & f & _ & [-> | (pu & _ & _ & ->)])
       | [(_ & pu & _ & _ & ->) | (_ & _ & ->)]].
  - unfold fed1.
    eapply paced_same; [reflexivity | reflexivity | apply increaseSpeed_paced].
    exact P.
  - unfold fed1.
    eapply paced_same; [reflexivity | reflexivity | apply increaseSpeed_paced].
    exact P.
  - unfold collected1.
    eapply paced_same; [reflexivity | reflexivity | apply applyPowerup1_paced].
    exact P.
  - exact P.
Qed.

Lemma advanceP2_paced rnd fuel head2 st st' :
  advanceP2 rnd fuel head2 st = Done st' -> paced st -> paced st'.
Proof.
  intros H P.
  destruct (advanceP2_cases _ _ _ _ _ H)
    as [(_ & f & _ & ->) | [(_ & pu & _ & _ & ->) | (_ & _ & ->)]].
  - unfold fed2.
    eapply paced_same; [reflexivity | reflexivity | apply increaseSpeed_paced].
    exact P.
  - unfold collected2.
    eapply paced_same; [reflexivity | reflexivity | apply applyPowerup2_paced].
    exact P.
  - exact P.
Qed.

Lemma moveP1_paced rnd fuel st head1 t :
  moveP1 rnd fuel st = Done (head1, t) -> paced st -> paced (world t).
Proof.
  intros H P.
  destruct (moveP1_cases _ _ _ _ _ H) as (_ & _ & s1 & e & Hp & Ha).
  assert (P1 : paced s1).
  { destruct (pacmanInteraction_cases _ _ _ _ _ _ _ _ Hp)
      as [(_ & -> & _) | [(_ & _ & -> & _) | (_ & _ & p & _ & -> & _)]];
      exact P. }
  destruct Ha as [(_ & ->) | (_ & Ha)]; [exact P1|].
  exact (advanceP1_paced _ _ _ _ _ _ Ha P1).
Qed.

Lemma moveP2_paced rnd fuel head1 t t' :
  moveP2 rnd fuel head1 t = Done t' -> paced (world t) -> paced (world t').
Proof.
  intros H P.
  destruct (moveP2_cases _ _ _ _ _ H)
    as [(_ & ->) | (_ & head2 & _ & _ & [(_ & ->) | (_ & Ha)])];
    try exact P.
  exact (advanceP2_paced _ _ _ _ _ Ha P).
Qed.

Lemma moveAI_paced rnd fuel t t' :
  moveAI rnd fuel t = Done t' -> paced (world t) -> paced (world t').
Proof.
  intros H P.
  destruct (moveAI_cases _ _ _ _ H)
    as [(_ & ->)
       | (pac & _ & _ &
          [(F & ->) | [(_ & _ & ->)
                      | (_ & _ & h & rest & s2 & _ & Hs & ->)]])];
    try exact P.
  cbn [world]. unfold chaserTramples.
  assert (P2 : paced s2)
    by (destruct Hs as [(_ & ->) | (_ & f & _ & ->)]; exact P).
  destruct (powerup s2) as [pu|]; [|exact P2].
  destruct (samePoint _ (at_ pu)); exact P2.
Qed.

Lemma update_paced (dt : Q) rnd fuel st st' :
  paced st -> update dt rnd fuel st = Done st' -> paced st'.
Proof.
  intros P H. unfold update in H.
  assert (P0 : paced (powerupTimers (set_moveTimer (toDouble (moveTimer st + dt)) st)))
    by (apply powerupTimers_paced; exact P).
  match type of H with (if ?c then _ else _) = _ => destruct c end.
  - rewrite move_started in H.
    apply bind_Done in H. destruct H as ((head1 & t1) & H1 & H).
    apply bind_Done in H. destruct H as (t2 & H2 & H).
    apply bind_Done in H. destruct H as (t3 & H3 & H).
    injection H as <-.
    assert (Ps : paced (started (powerupTimers
                                   (set_moveTimer (toDouble (moveTimer st + dt)) st)))).
    { unfold started, commitDirs. cbn.
      match goal with |- context [match ?m with PVC => _ | PVP => _ end] =>
        destruct m end; exact P0. }
    pose proof (moveP1_paced _ _ _ _ _ H1 Ps) as P1.
    pose proof (moveP2_paced _ _ _ _ _ H2 P1) as P2.
    pose proof (moveAI_paced _ _ _ _ H3 P2) as P3.
    unfold resolveGameOver. destruct (p1Dead t3 || p2Dead t3); exact P3.
  - injection H as <-. exact P0.
Qed.

(** X14: the pace of the game stays within its bounds.  Over a frame of
    [update] the base interval stays between 60 and 120 ms and the
    interval in force between 30 and 180 ms, whatever is eaten or
    collected. *)
Theorem pace_stays_within_bounds (dt : Q) (rnd : Rand) (fuel : nat)
    (st st' : Game)
    (P : paced st)
    (H : update dt rnd fuel st = Done st') :
  paced st'.
Proof. exact (update_paced dt rnd fuel st st' P H). Qed.

Lemma pace_stays_within_bounds_witness :
  exists st',
    update longFrame (dice (mkPoint 0 0) false) 3 foodAhead = Done st' /\
    paced st' /\ (baseMoveInterval st' == inject_Z 119)%Q.
Proof.
  eexists. split; [vm_compute; reflexivity|]. split; [|reflexivity].
  apply (pace_stays_within_bounds longFrame (dice (mkPoint 0 0) false) 3
           foodAhead).
  - unfold paced. cbn. unfold inject_Z. split; split; lra.
  - vm_compute. reflexivity.
Defined.

(** *** Where things are placed *)

(** X15: what is placed during a move avoids the snakes.  The food that
    replaces the one eaten by player 1 or by player 2 is on no segment of
    either snake, new head included, and not on the power-up; a power-up
    spawned by the meal of player 1 is on no segment of either snake and
    not on the new food; the food that replaces the one eaten by Pacman is
    on no segment of the snake. *)
Theorem placements_avoid_the_snakes (rnd : Rand) (fuel : nat) :
  (forall head1 eaten st st',
     advanceP1 rnd fuel head1 eaten st = Done st' ->
     samePoint head1 (food st) = true ->
     snake1 st' = head1 :: snake1 st /\
     ~ In (food st') (snake1 st') /\ ~ In (food st') (snake2 st') /\
     forall pu, powerup st' = Some pu ->
       at_ pu <> food st' /\
       (powerup st = None ->
        ~ In (at_ pu) (snake1 st') /\ ~ In (at_ pu) (snake2 st'))) /\
  (forall head2 st st',
     advanceP2 rnd fuel head2 st = Done st' ->
     samePoint head2 (food st) = true ->
     snake2 st' = head2 :: snake2 st /\
     ~ In (food st') (snake1 st') /\ ~ In (food st') (snake2 st') /\
     forall pu, powerup st' = Some pu -> at_ pu <> food st') /\
  (forall t t',
     moveAI rnd fuel t = Done t' ->
     food (world t') <> food (world t) ->
     ~ In (food (world t')) (snake1 (world t'))).
Proof.
  split; [|split].
  - intros head1 eaten st st' H Hf.
    destruct (advanceP1_cases _ _ _ _ _ _ H)
      as [(_ & f & Hp & Hs) | [(E & _) | (E & _)]]; try congruence.
    pose proof (placeItem_free _ _ _ _ Hp) as Free.
    assert (F1 : ~ In f (head1 :: snake1 st))
      by (intros K; apply Free; apply in_or_app; left;
          apply in_or_app; left; exact K).
    assert (F2 : ~ In f (snake2 st))
      by (intros K; apply Free; apply in_or_app; left;
          apply in_or_app; right; exact K).
    assert (F3 : ~ In f (powerupCell st))
      by (intros K; apply Free; apply in_or_app; right; exact K).
    destruct Hs as [-> | (pu & Hnone & Hpu & ->)].
    + unfold fed1. cbn. autorewrite with play. cbn.
      split; [reflexivity|]. split; [exact F1|]. split; [exact F2|].
      intros pu Hpu. split.
      * intros K. apply F3. unfold powerupCell. rewrite Hpu. left. exact K.
      * intros N. congruence.
    + unfold placePowerup in Hpu. apply bind_Done in Hpu.
      destruct Hpu as (q & Hq & Hpu). injection Hpu as <-.
      pose proof (placeItem_free _ _ _ _ Hq) as FreeQ.
      unfold fed1. cbn. autorewrite with play. cbn.
      split; [reflexivity|]. split; [exact F1|]. split; [exact F2|].
      intros pu Hpu. injection Hpu as <-. cbn [at_]. split; [|intros _; split].
      * intros K. apply FreeQ. apply in_or_app. right. left. symmetry. exact K.
      * intros K. apply FreeQ. apply in_or_app. left. apply in_or_app. left.
        exact K.
      * intros K. apply FreeQ. apply in_or_app. left. apply in_or_app. right.
        exact K.
  - intros head2 st st' H Hf.
    destruct (advanceP2_cases _ _ _ _ _ H)
      as [(_ & f & Hp & ->) | [(E & _) | (E & _)]]; try congruence.
    pose proof (placeItem_free _ _ _ _ Hp) as Free.
    unfold fed2. cbn. autorewrite with play. cbn.
    split; [reflexivity|]. split; [|split].
    + intros K. apply Free. apply in_or_app. left. apply in_or_app. left. exact K.
    + intros K. apply Free. apply in_or_app. left. apply in_or_app. right. exact K.
    + intros pu Hpu K. apply Free. apply in_or_app. right.
      unfold powerupCell. rewrite Hpu. left. exact K.
  - intros t t' H Hne.
    destruct (moveAI_body _ _ _ _ H) as (S1 & _).
    destruct (moveAI_cases _ _ _ _ H)
      as [(_ & ->)
         | (pac & _ & _ &
            [(F & ->) | [(_ & _ & ->)
                        | (_ & _ & h & rest & s2 & _ & Hs & ->)]])];
      try (exfalso; apply Hne; reflexivity).
    cbn [world] in *.
    assert (Ft : forall s, food (chaserTramples
                                   (chaserStep (rndSign rnd) pac (world t)) s)
                           = food s).
    { intros s. unfold chaserTramples. destruct (powerup s) as [pu|]; [|reflexivity].
      destruct (samePoint _ (at_ pu)); reflexivity. }
    rewrite Ft in *. rewrite S1.
    destruct Hs as [(_ & ->) | (_ & f & Hf & ->)].
    + exfalso. apply Hne. reflexivity.
    + apply placeItem_free in Hf. exact Hf.
Qed.

Lemma placements_avoid_the_snakes_witness :
  exists st',
    advanceP1 (dice (mkPoint 0 0) false) 3 (mkPoint 15 9) false
      (started foodAhead) = Done st' /\
    ~ In (food st') (snake1 st').
Proof.
  eexists. split; [vm_compute; reflexivity|].
  destruct (proj1 (placements_avoid_the_snakes (dice (mkPoint 0 0) false) 3)
              (mkPoint 15 9) false (started foodAhead) _
              ltac:(vm_compute; reflexivity) eq_refl) as (_ & N & _).
  exact N.
Defined.

(** *** Once the round is over *)

Lemma frames_idle (inputs : list (Q * Rand)) (fuel : nat) (st : Game) :
  gameState st <> playing -> frames inputs fuel st = Done st.
Proof.
  intros N. induction inputs as [|[dt rnd] rest IH]; [reflexivity|].
  simpl. unfold frame. destruct (gameState st); try exact IH.
  contradiction.
Qed.

Lemma handleInput_idle (key : string) (st : Game) :
  gameState st <> playing -> gameState st <> intro -> handleInput key st = st.
Proof.
  intros N1 N2. unfold handleInput.
  destruct (gameState st); try reflexivity; contradiction.
Qed.

(** X16: a round that is over stays over.  Once [update] has ended the
    round, no run of frames and no key changes anything: the state stays
    what it was, snakes, scores and reason included, until [resetGame]. *)
Theorem round_over_is_sticky (st : Game) (keys : list string)
    (inputs : list (Q * Rand)) (fuel : nat)
    (Over : gameState st = gameover) :
  frames inputs fuel (fold_left (fun s key => handleInput key s) keys st)
  = Done st.
Proof.
  assert (K : fold_left (fun s key => handleInput key s) keys st = st).
  { induction keys as [|key keys IH]; [reflexivity|]. simpl.
    rewrite handleInput_idle; [exact IH | |]; rewrite Over; discriminate. }
  rewrite K. apply frames_idle. rewrite Over. discriminate.
Qed.

Lemma round_over_is_sticky_witness :
  exists st',
    update longFrame (dice (mkPoint 9 9) false) 3 coiled = Done st' /\
    frames [(longFrame, dice (mkPoint 9 9) false)] 3
      (fold_left (fun s key => handleInput key s) ["ArrowLeft"%string] st')
    = Done st'.
Proof.
  eexists. split; [vm_compute; reflexivity|].
  apply round_over_is_sticky. reflexivity.
Defined.

(** *** Keys *)

Lemma lowerAscii_idempotent (c : ascii) : lowerAscii (lowerAscii c) = lowerAscii c.
Proof. destruct c as [[] [] [] [] [] [] [] []]; reflexivity. Qed.

Lemma toLowerCase_idempotent (s : string) :
  toLowerCase (toLowerCase s) = toLowerCase s.
Proof.
  induction s as [|c s IH]; [reflexivity|]. simpl.
  now rewrite lowerAscii_idempotent, IH.
Qed.

(** X17: keys are read without regard to case: a key and its lower-case
    form do the same to every state, so that the eight keys work with
    Caps Lock or Shift held; and a key that is none of the eight changes
    nothing while the game is played. *)
Theorem keys_ignore_case (key : string) (st : Game) :
  handleInput (toLowerCase key) st = handleInput key st /\
  (gameState st = playing -> keyDir1 key = None -> keyDir2 key = None ->
   handleInput key st = st).
Proof.
  split.
  - unfold handleInput. now rewrite toLowerCase_idempotent.
  - intros P K1 K2. unfold handleInput. rewrite P. cbv zeta.
    unfold keyDir1, keyDir2 in *. cbv zeta in *.
    destruct (String.eqb (toLowerCase key) "arrowup"); [discriminate|].
    destruct (String.eqb (toLowerCase key) "arrowdown"); [discriminate|].
    destruct (String.eqb (toLowerCase key) "arrowleft"); [discriminate|].
    destruct (String.eqb (toLowerCase key) "arrowright"); [discriminate|].
    destruct (String.eqb (toLowerCase key) "w"); [discriminate|].
    destruct (String.eqb (toLowerCase key) "s"); [discriminate|].
    destruct (String.eqb (toLowerCase key) "a"); [discriminate|].
    destruct (String.eqb (toLowerCase key) "d"); [discriminate|].
    cbn. destruct (mode st); reflexivity.
Qed.

Lemma keys_ignore_case_witness :
  handleInput "x" foodAhead = foodAhead.
Proof.
  apply (proj2 (keys_ignore_case "x" foodAhead)); reflexivity.
Defined.

(** *** Headings *)

Lemma when_next1_unit (c : bool) (d : Point) (st : Game) :
  (c = true -> unitDir d) -> unitDirs st ->
  unitDirs (when c (set_nextDir1 d) st).
Proof.
  intros U (A & B & C & D). destruct c; repeat split; auto.
Qed.

Lemma when_next2_unit (c : bool) (d : Point) (st : Game) :
  (c = true -> unitDir d) -> unitDirs st ->
  unitDirs (when c (set_nextDir2 d) st).
Proof.
  intros U (A & B & C & D). destruct c; repeat split; auto.
Qed.

Ltac unit_heading :=
  first [ left; reflexivity
        | right; left; reflexivity
        | right; right; left; reflexivity
        | right; right; right; reflexivity ].

Lemma handleInput_unit (key : string) (st : Game) :
  unitDirs st -> unitDirs (handleInput key st).
Proof.
  intros U. unfold handleInput.
  destruct (gameState st); try exact U. cbv zeta.
  match goal with |- unitDirs (match mode ?s with PVC => _ | PVP => _ end) =>
    assert (U1 : unitDirs s)
      by (repeat (apply when_next1_unit; [intros _; unit_heading|]); exact U);
    destruct (mode s)
  end; [exact U1|].
  repeat (apply when_next2_unit; [intros _; unit_heading|]). exact U1.
Qed.

Lemma Joystick_unit (b : JoystickButton) (st : Game) :
  unitDirs st -> unitDirs (Joystick handleJoystick b st).
Proof.
  intros U. destruct b; unfold Joystick, handleJoystick; cbv zeta;
    repeat (apply when_next1_unit;
            [intros C; cbn in C; try discriminate C; unit_heading|]);
    exact U.
Qed.

Lemma update_unit (dt : Q) rnd fuel st st' :
  unitDirs st -> update dt rnd fuel st = Done st' -> unitDirs st'.
Proof.
  intros (A & B & C & D) H.
  apply update_dirs in H. destruct H as (H1 & H2 & Hn1 & Hn2).
  unfold unitDirs. rewrite Hn1, Hn2.
  repeat split; try assumption.
  - destruct H1 as [-> | ->]; assumption.
  - destruct H2 as [-> | ->]; assumption.
Qed.

(** X18: the four direction cells only ever hold one of the four
    headings: from a state where they do, no key, no button of the
    joystick and no frame of [update] puts anything else in them. *)
Theorem headings_stay_unit (st : Game) (U : unitDirs st) :
  (forall key, unitDirs (handleInput key st)) /\
  (forall b, unitDirs (Joystick handleJoystick b st)) /\
  (forall dt rnd fuel st',
     update dt rnd fuel st = Done st' -> unitDirs st').
Proof.
  split; [|split].
  - intros key. now apply handleInput_unit.
  - intros b. now apply Joystick_unit.
  - intros dt rnd fuel st'. now apply update_unit.
Qed.

Lemma headings_stay_unit_witness :
  unitDirs (Joystick handleJoystick ButtonLeft foodAhead) /\
  nextDir1 (Joystick handleJoystick ButtonLeft foodAhead) = left.
Proof.
  assert (U : unitDirs foodAhead) by (repeat split; left; reflexivity).
  split; [|reflexivity].
  apply (proj1 (proj2 (headings_stay_unit foodAhead U)) ButtonLeft).
Defined.

(** *** Shrinking *)

(** X19: a Shrink power-up cuts the body from the tail only and never
    below 3 segments: what is left is the front of the body, the head
    first, a body of 3 segments or fewer is left whole, and a longer one
    keeps [max 3 (floor (n / 2))] segments. *)
Theorem shrink_cuts_the_tail (snake : list Point) :
  (exists tail, snake = shrink snake ++ tail) /\
  (len snake <= 3 -> shrink snake = snake) /\
  (3 < len snake ->
   len (shrink snake) = Z.max 3 (len snake / 2) /\
   3 <= len (shrink snake) < len snake /\
   hd origin (shrink snake) = hd origin snake).
Proof.
  split; [|split].
  - unfold shrink. destruct (len snake >? 3).
    + eexists. symmetry. apply firstn_skipn.
    + exists []. now rewrite app_nil_r.
  - intros L. unfold shrink.
    destruct (len snake >? 3) eqn:E; [|reflexivity].
    apply Z.gtb_lt in E. lia.
  - intros L. pose proof (len_shrink snake) as K. unfold shrunk in K.
    assert (E : (len snake >? 3) = true) by (apply Z.gtb_lt; lia).
    rewrite E in K.
    assert (D : len snake / 2 < len snake)
      by (apply Z.div_lt_upper_bound; lia).
    split; [exact K|]. split; [lia|].
    unfold shrink. rewrite E.
    destruct snake as [|h rest]; [reflexivity|].
    assert (N : exists n, Z.to_nat (Z.max 3 (len (h :: rest) / 2)) = S n).
    { exists (Z.to_nat (Z.max 3 (len (h :: rest) / 2)) - 1)%nat. lia. }
    destruct N as [n ->]. reflexivity.
Qed.

Lemma shrink_cuts_the_tail_witness :
  len (shrink [mkPoint 1 1; mkPoint 2 1; mkPoint 2 2; mkPoint 1 2]) = 3.
Proof.
  destruct (shrink_cuts_the_tail
              [mkPoint 1 1; mkPoint 2 1; mkPoint 2 2; mkPoint 1 2])
    as (_ & _ & K).
  destruct K as (E & _); [reflexivity|]. rewrite E. reflexivity.
Defined.

(** ** The game as a whole *)

(** *** A frame, phase by phase *)

Lemma update_phases (dt : Q) rnd fuel st st' :
  update dt rnd fuel st = Done st' ->
  let s0 := powerupTimers (set_moveTimer (toDouble (moveTimer st + dt)) st) in
  st' = s0 \/
  exists head1 t1 t2 t3,
    moveP1 rnd fuel (started s0) = Done (head1, t1) /\
    moveP2 rnd fuel head1 t1 = Done t2 /\
    moveAI rnd fuel t2 = Done t3 /\
    st' = resolveGameOver t3.
Proof.
  cbv zeta. unfold update. intros H.
  match type of H with (if ?c then _ else _) = _ => destruct c end.
  - right. rewrite move_started in H.
    apply bind_Done in H. destruct H as ((head1 & t1) & H1 & H).
    apply bind_Done in H. destruct H as (t2 & H2 & H).
    apply bind_Done in H. destruct H as (t3 & H3 & H).
    injection H as <-. exists head1, t1, t2, t3. auto.
  - left. injection H as <-. reflexivity.
Qed.

(** *** The interval in force and the base interval *)

Lemma synced_same (st st' : Game) :
  speedBoostTimer st' = speedBoostTimer st ->
  moveInterval st' = moveInterval st ->
  baseMoveInterval st' = baseMoveInterval st ->
  synced st -> synced st'.
Proof. unfold synced. intros -> -> ->. auto. Qed.

Lemma increaseSpeed_synced (st : Game) : synced (increaseSpeed st).
Proof.
  unfold synced, increaseSpeed. cbv zeta.
  change (speedBoostTimer (set_baseMoveInterval ?v st)) with (speedBoostTimer st).
  destruct (speedBoostTimer st =? 0) eqn:E; cbn.
  - reflexivity.
  - apply Z.eqb_neq in E. intros K. contradiction.
Qed.

Lemma timedEffect_synced (kind : PowerupType) (st : Game) :
  synced st -> synced (timedEffect kind st).
Proof.
  unfold synced. intros S. destruct kind; cbn; try exact S; discriminate.
Qed.

Lemma applyPowerup1_synced kind st : synced st -> synced (applyPowerup1 kind st).
Proof.
  intros S. destruct kind; try exact (timedEffect_synced _ st S). exact S.
Qed.

Lemma applyPowerup2_synced kind st : synced st -> synced (applyPowerup2 kind st).
Proof.
  intros S. destruct kind; try exact (timedEffect_synced _ st S). exact S.
Qed.

Lemma powerupTimers_synced (st : Game) : synced st -> synced (powerupTimers st).
Proof.
  unfold synced, powerupTimers. cbv zeta. intros S.
  destruct (speedBoostTimer st >? 0); cbn;
    [destruct (speedBoostTimer st - 1 =? 0) eqn:E; cbn|];
    destruct (ghostTimer st >? 0); cbn; try exact S; try reflexivity;
    apply Z.eqb_neq in E; intros K; contradiction.
Qed.

Lemma advanceP1_synced rnd fuel head1 eaten st st' :
  advanceP1 rnd fuel head1 eaten st = Done st' -> synced st -> synced st'.
Proof.
  intros H S.
  destruct (advanceP1_cases _ _ _ _ _ _ H)
    as [(_ & f & _ & [-> | (pu & _ & _ & ->)])
       | [(_ & pu & _ & _ & ->) | (_ & _ & ->)]].
  - unfold fed1.
    eapply synced_same; [reflexivity | reflexivity | reflexivity |].
    apply increaseSpeed_synced.
  - unfold fed1.
    eapply synced_same; [reflexivity | reflexivity | reflexivity |].
    apply increaseSpeed_synced.
  - unfold collected1.
    eapply synced_same; [reflexivity | reflexivity | reflexivity |].
    apply applyPowerup1_synced. exact S.
  - exact S.
Qed.

Lemma advanceP2_synced rnd fuel head2 st st' :
  advanceP2 rnd fuel head2 st = Done st' -> synced st -> synced st'.
Proof.
  intros H S.
  destruct (advanceP2_cases _ _ _ _ _ H)
    as [(_ & f & _ & ->) | [(_ & pu & _ & _ & ->) | (_ & _ & ->)]].
  - unfold fed2.
    eapply synced_same; [reflexivity | reflexivity | reflexivity |].
    apply increaseSpeed_synced.
  - unfold collected2.
    eapply synced_same; [reflexivity | reflexivity | reflexivity |].
    apply applyPowerup2_synced. exact S.
  - exact S.
Qed.

Lemma moveP1_synced rnd fuel st head1 t :
  moveP1 rnd fuel st = Done (head1, t) -> synced st -> synced (world t).
Proof.
  intros H S.
  destruct (moveP1_cases _ _ _ _ _ H) as (_ & _ & s1 & e & Hp & Ha).
  assert (S1 : synced s1).
  { destruct (pacmanInteraction_cases _ _ _ _ _ _ _ _ Hp)
      as [(_ & -> & _) | [(_ & _ & -> & _) | (_ & _ & p & _ & -> & _)]];
      exact S. }
  destruct Ha as [(_ & ->) | (_ & Ha)]; [exact S1|].
  exact (advanceP1_synced _ _ _ _ _ _ Ha S1).
Qed.

Lemma moveP2_synced rnd fuel head1 t t' :
  moveP2 rnd fuel head1 t = Done t' -> synced (world t) -> synced (world t').
Proof.
  intros H S.
  destruct (moveP2_cases _ _ _ _ _ H)
    as [(_ & ->) | (_ & head2 & _ & _ & [(_ & ->) | (_ & Ha)])];
    try exact S.
  exact (advanceP2_synced _ _ _ _ _ Ha S).
Qed.

Lemma moveAI_synced rnd fuel t t' :
  moveAI rnd fuel t = Done t' -> synced (world t) -> synced (world t').
Proof.
  intros H S.
  destruct (moveAI_cases _ _ _ _ H)
    as [(_ & ->)
       | (pac & _ & _ &
          [(F & ->) | [(_ & _ & ->)
                      | (_ & _ & h & rest & s2 & _ & Hs & ->)]])];
    try exact S.
  cbn [world]. unfold chaserTramples.
  assert (S2 : synced s2)
    by (destruct Hs as [(_ & ->) | (_ & f & _ & ->)]; exact S).
  destruct (powerup s2) as [pu|]; [|exact S2].
  destruct (samePoint _ (at_ pu)); exact S2.
Qed.

Lemma started_synced (st : Game) : synced st -> synced (started st).
Proof.
  intros S. unfold started, commitDirs. cbn.
  match goal with |- context [match ?m with PVC => _ | PVP => _ end] =>
    destruct m end; exact S.
Qed.

Lemma resolveGameOver_synced (t : Tick) :
  synced (world t) -> synced (resolveGameOver t).
Proof.
  intros S. unfold resolveGameOver. destruct (p1Dead t || p2Dead t); exact S.
Qed.

Lemma update_synced (dt : Q) rnd fuel st st' :
  update dt rnd fuel st = Done st' -> synced st -> synced st'.
Proof.
  intros H S.
  assert (S0 : synced (powerupTimers (set_moveTimer (toDouble (moveTimer st + dt)) st)))
    by (apply powerupTimers_synced; exact S).
  destruct (update_phases _ _ _ _ _ H)
    as [-> | (head1 & t1 & t2 & t3 & H1 & H2 & H3 & ->)]; [exact S0|].
  apply resolveGameOver_synced.
  apply (moveAI_synced _ _ _ _ H3), (moveP2_synced _ _ _ _ _ H2),
    (moveP1_synced _ _ _ _ _ H1), started_synced, S0.
Qed.

(** *** The food and the snakes *)

Lemma In_removelast (p : Point) (l : list Point) :
  In p (removelast l) -> In p l.
Proof.
  induction l as [|a l IH]; [intros []|].
  destruct l as [|b l]; [intros []|].
  change (removelast (a :: b :: l)) with (a :: removelast (b :: l)).
  intros [-> | K]; [left; reflexivity | right; apply IH; exact K].
Qed.

Lemma In_shrink (p : Point) (l : list Point) : In p (shrink l) -> In p l.
Proof.
  unfold shrink. destruct (len l >? 3); [|auto].
  intros K. rewrite <- (firstn_skipn (Z.to_nat (Z.max 3 (len l / 2))) l).
  apply in_or_app. left. exact K.
Qed.

Lemma samePoint_neq (a b : Point) : samePoint a b = false -> a <> b.
Proof.
  intros F E. apply samePoint_eq in E. congruence.
Qed.

Lemma pantry_same (st st' : Game) :
  snake1 st' = snake1 st -> snake2 st' = snake2 st ->
  food st' = food st -> mode st' = mode st ->
  foodClear st /\ alone st -> foodClear st' /\ alone st'.
Proof. unfold foodClear, alone. intros -> -> -> ->. auto. Qed.

Lemma applyPowerup1_keeps kind st :
  snake2 (applyPowerup1 kind st) = snake2 st /\
  food (applyPowerup1 kind st) = food st /\
  mode (applyPowerup1 kind st) = mode st /\
  forall p, In p (snake1 (applyPowerup1 kind st)) -> In p (snake1 st).
Proof.
  destruct kind; cbn; repeat split; auto; intros p; apply In_shrink.
Qed.

Lemma applyPowerup2_keeps kind st :
  snake1 (applyPowerup2 kind st) = snake1 st /\
  food (applyPowerup2 kind st) = food st /\
  mode (applyPowerup2 kind st) = mode st /\
  forall p, In p (snake2 (applyPowerup2 kind st)) -> In p (snake2 st).
Proof.
  destruct kind; cbn; repeat split; auto; intros p; apply In_shrink.
Qed.

Lemma advanceP1_pantry rnd fuel head1 eaten st st' :
  advanceP1 rnd fuel head1 eaten st = Done st' ->
  foodClear st /\ alone st -> foodClear st' /\ alone st'.
Proof.
  intros H [[C1 C2] A].
  destruct (advanceP1_cases _ _ _ _ _ _ H)
    as [(_ & f & Hp & Hs) | [(N & pu & _ & _ & ->) | (N & _ & ->)]].
  - pose proof (placeItem_free _ _ _ _ Hp) as Free.
    assert (F1 : ~ In f (head1 :: snake1 st))
      by (intros K; apply Free; apply in_or_app; left;
          apply in_or_app; left; exact K).
    assert (F2 : ~ In f (snake2 st))
      by (intros K; apply Free; apply in_or_app; left;
          apply in_or_app; right; exact K).
    destruct Hs as [-> | (pu & _ & _ & ->)];
      unfold fed1, foodClear, alone; cbn; autorewrite with play; cbn;
      (split; [split; assumption | exact A]).
  - apply samePoint_neq in N.
    destruct (applyPowerup1_keeps (type pu)
                (playSound snd_powerup
                   (set_scores_p1 (scores_p1 st + 5)
                      (set_snake1 (head1 :: snake1 st) st))))
      as (K2 & Kf & Km & K1).
    unfold collected1, foodClear, alone.
    change (food (set_powerup None ?s)) with (food s).
    change (snake1 (set_powerup None ?s)) with (snake1 s).
    change (snake2 (set_powerup None ?s)) with (snake2 s).
    change (mode (set_powerup None ?s)) with (mode s).
    rewrite K2, Kf, Km. cbn. split; [split; [|exact C2] | exact A].
    intros K. apply K1 in K. cbn in K.
    destruct K as [K | K]; [apply N; exact K | apply C1; exact K].
  - apply samePoint_neq in N. unfold stepped1, foodClear, alone. cbn.
    split; [split; [|exact C2] | exact A].
    intros K.
    assert (K' : In (food st) (head1 :: snake1 st))
      by (destruct eaten; [exact K | apply In_removelast; exact K]).
    destruct K' as [K' | K']; [apply N; exact K' | apply C1; exact K'].
Qed.

Lemma advanceP2_pantry rnd fuel head2 st st' :
  advanceP2 rnd fuel head2 st = Done st' ->
  mode st = PVP ->
  foodClear st -> foodClear st' /\ alone st'.
Proof.
  intros H M [C1 C2].
  assert (A : forall s, mode s = PVP -> alone s)
    by (intros s E K; congruence).
  destruct (advanceP2_cases _ _ _ _ _ H)
    as [(_ & f & Hp & ->) | [(N & pu & _ & _ & ->) | (N & _ & ->)]].
  - pose proof (placeItem_free _ _ _ _ Hp) as Free.
    split.
    + unfold fed2, foodClear. cbn. autorewrite with play. cbn. split.
      * intros K. apply Free. apply in_or_app. left. apply in_or_app. left.
        exact K.
      * intros K. apply Free. apply in_or_app. left. apply in_or_app. right.
        exact K.
    + apply A. unfold fed2. cbn. autorewrite with play. exact M.
  - apply samePoint_neq in N.
    destruct (applyPowerup2_keeps (type pu)
                (playSound snd_powerup
                   (set_scores_p2 (scores_p2 st + 5)
                      (set_snake2 (head2 :: snake2 st) st))))
      as (K1 & Kf & Km & K2).
    split.
    + unfold collected2, foodClear.
      change (food (set_powerup None ?s)) with (food s).
      change (snake1 (set_powerup None ?s)) with (snake1 s).
      change (snake2 (set_powerup None ?s)) with (snake2 s).
      rewrite K1, Kf. cbn. split; [exact C1|].
      intros K. apply K2 in K. cbn in K.
      destruct K as [K | K]; [apply N; exact K | apply C2; exact K].
    + apply A. unfold collected2.
      change (mode (set_powerup None ?s)) with (mode s).
      rewrite Km. exact M.
  - apply samePoint_neq in N. split; [|apply A; exact M].
    unfold stepped2, foodClear.
    change (food (set_snake2 ?v st)) with (food st).
    change (snake1 (set_snake2 ?v st)) with (snake1 st).
    change (snake2 (set_snake2 ?v st)) with v.
    split; [exact C1|].
    intros K. apply In_removelast in K.
    destruct K as [K | K]; [apply N; exact K | apply C2; exact K].
Qed.

Lemma moveP1_pantry rnd fuel st head1 t :
  moveP1 rnd fuel st = Done (head1, t) ->
  foodClear st /\ alone st -> foodClear (world t) /\ alone (world t).
Proof.
  intros H P.
  destruct (moveP1_cases _ _ _ _ _ H) as (_ & _ & s1 & e & Hp & Ha).
  assert (P1 : foodClear s1 /\ alone s1).
  { destruct (pacmanInteraction_cases _ _ _ _ _ _ _ _ Hp)
      as [(_ & -> & _) | [(_ & _ & -> & _) | (_ & _ & p & _ & -> & _)]];
      exact P. }
  destruct Ha as [(_ & ->) | (_ & Ha)]; [exact P1|].
  exact (advanceP1_pantry _ _ _ _ _ _ Ha P1).
Qed.

Lemma moveP2_pantry rnd fuel head1 t t' :
  moveP2 rnd fuel head1 t = Done t' ->
  foodClear (world t) /\ alone (world t) ->
  foodClear (world t') /\ alone (world t').
Proof.
  intros H P.
  destruct (moveP2_cases _ _ _ _ _ H)
    as [(_ & ->) | (M & head2 & _ & _ & [(_ & ->) | (_ & Ha)])];
    try exact P.
  exact (advanceP2_pantry _ _ _ _ _ Ha M (proj1 P)).
Qed.

Lemma moveAI_pantry rnd fuel t t' :
  moveAI rnd fuel t = Done t' ->
  foodClear (world t) /\ alone (world t) ->
  foodClear (world t') /\ alone (world t').
Proof.
  intros H P.
  destruct (moveAI_cases _ _ _ _ H)
    as [(_ & ->)
       | (pac & M & _ &
          [(F & ->) | [(_ & _ & ->)
                      | (_ & _ & h & rest & s2 & _ & Hs & ->)]])];
    try exact P.
  cbn [world].
  assert (P2 : foodClear s2 /\ alone s2).
  { destruct Hs as [(_ & ->) | (_ & f & Hf & ->)]; [exact P|].
    apply placeItem_free in Hf. destruct P as [_ A].
    unfold chaserFed, foodClear, alone. cbn.
    split; [split; [exact Hf|] | exact A].
    rewrite (A M). intros []. }
  unfold chaserTramples.
  destruct (powerup s2) as [pu|]; [|exact P2].
  destruct (samePoint _ (at_ pu)); exact P2.
Qed.

Lemma update_pantry (dt : Q) rnd fuel st st' :
  update dt rnd fuel st = Done st' ->
  foodClear st /\ alone st -> foodClear st' /\ alone st'.
Proof.
  intros H P.
  set (s0 := powerupTimers (set_moveTimer (toDouble (moveTimer st + dt)) st)).
  assert (P0 : foodClear s0 /\ alone s0).
  { destruct (powerupTimers_fields (set_moveTimer (toDouble (moveTimer st + dt)) st))
      as (T1 & T2 & T3 & T4 & _).
    unfold s0.
    apply (pantry_same st); [rewrite T1 | rewrite T2 | rewrite T4 | rewrite T3
                            | exact P]; reflexivity. }
  destruct (update_phases _ _ _ _ _ H)
    as [-> | (head1 & t1 & t2 & t3 & H1 & H2 & H3 & ->)]; [exact P0|].
  assert (Ps : foodClear (started s0) /\ alone (started s0)).
  { destruct (started_fields s0) as (S1 & S2 & _ & Sm & _ & _ & _ & Sf & _).
    apply (pantry_same s0); auto. }
  pose proof (moveAI_pantry _ _ _ _ H3
                (moveP2_pantry _ _ _ _ _ H2
                   (moveP1_pantry _ _ _ _ _ H1 Ps))) as P3.
  unfold resolveGameOver. destruct (p1Dead t3 || p2Dead t3); exact P3.
Qed.

(** X20: with no speed effect running the game runs at its base pace.
    A frame of [update] keeps this: if [moveInterval] is
    [baseMoveInterval] whenever [speedBoostTimer] is 0 before the frame,
    the same holds after it, also when a meal has lowered the base
    interval or a Speed or Slow effect has just run out. *)
Theorem pace_returns_to_base (dt : Q) (rnd : Rand) (fuel : nat) (st st' : Game)
    (Y : synced st)
    (H : update dt rnd fuel st = Done st') :
  synced st'.
Proof. exact (update_synced dt rnd fuel st st' H Y). Qed.

Lemma pace_returns_to_base_witness :
  exists st',
    update longFrame (dice (mkPoint 0 0) false) 3 foodAhead = Done st' /\
    moveInterval st' = baseMoveInterval st'.
Proof.
  eexists. split; [vm_compute; reflexivity|].
  apply (pace_returns_to_base longFrame (dice (mkPoint 0 0) false) 3 foodAhead).
  - intros _. reflexivity.
  - vm_compute. reflexivity.
  - reflexivity.
Defined.

(** X21: the food is never under a snake.  If the food is on no segment
    of either snake, and a single-player game has no second snake, then
    the same holds after a frame of [update], whatever was eaten,
    collected, shrunk or placed during the frame. *)
Theorem food_is_never_under_a_snake (dt : Q) (rnd : Rand) (fuel : nat)
    (st st' : Game)
    (F : foodClear st) (A : alone st)
    (H : update dt rnd fuel st = Done st') :
  foodClear st' /\ alone st'.
Proof. exact (update_pantry dt rnd fuel st st' H (conj F A)). Qed.

Lemma food_is_never_under_a_snake_witness :
  exists st',
    update longFrame (dice (mkPoint 0 0) false) 3 foodAhead = Done st' /\
    snake1 st' = [mkPoint 15 9; mkPoint 15 10] /\
    foodClear st'.
Proof.
  eexists. split; [vm_compute; reflexivity|]. split; [reflexivity|].
  apply (food_is_never_under_a_snake longFrame (dice (mkPoint 0 0) false) 3
           foodAhead).
  - split; [intros [K | []]; discriminate K | intros []].
  - intros _. reflexivity.
  - vm_compute. reflexivity.
Defined.

(** *** The bodies, segment by segment *)

Lemma linked_app (l tail : list Point) : linked (l ++ tail) -> linked l.
Proof.
  induction l as [|h l IH]; [intros _; exact I|].
  destruct l as [|n l].
  - intros _. split; exact I.
  - intros [S L]. split; [exact S | apply IH; exact L].
Qed.

Lemma app_whole (l : list Point) : exists tail, l = l ++ tail.
Proof. exists []. symmetry. apply app_nil_r. Qed.

(** The body after the advance of player 1 is the new head followed by
    the old body, less the segments dropped at the tail. *)
Lemma advanceP1_prefix rnd fuel head1 eaten st st' :
  advanceP1 rnd fuel head1 eaten st = Done st' ->
  snake2 st' = snake2 st /\
  exists tail, head1 :: snake1 st = snake1 st' ++ tail.
Proof.
  intros H.
  destruct (advanceP1_cases _ _ _ _ _ _ H)
    as [(_ & f & _ & [-> | (pu & _ & _ & ->)])
       | [(_ & pu & _ & _ & ->) | (_ & _ & ->)]].
  - unfold fed1. cbn. autorewrite with play. cbn.
    split; [reflexivity|]. apply app_whole.
  - unfold fed1. cbn. autorewrite with play. cbn.
    split; [reflexivity|]. apply app_whole.
  - unfold collected1.
    change (snake1 (set_powerup None ?s)) with (snake1 s).
    change (snake2 (set_powerup None ?s)) with (snake2 s).
    destruct (type pu); cbn; (split; [reflexivity|]);
      try apply app_whole.
    unfold shrink. destruct (len (head1 :: snake1 st) >? 3).
    + eexists. symmetry. apply firstn_skipn.
    + apply app_whole.
  - unfold stepped1.
    change (snake2 (set_snake1 ?v st)) with (snake2 st).
    change (snake1 (set_snake1 ?v st)) with v.
    split; [reflexivity|]. destruct eaten.
    + apply app_whole.
    + exists [last (head1 :: snake1 st) origin].
      apply app_removelast_last. discriminate.
Qed.

Lemma advanceP2_prefix rnd fuel head2 st st' :
  advanceP2 rnd fuel head2 st = Done st' ->
  snake1 st' = snake1 st /\
  exists tail, head2 :: snake2 st = snake2 st' ++ tail.
Proof.
  intros H.
  destruct (advanceP2_cases _ _ _ _ _ H)
    as [(_ & f & _ & ->) | [(_ & pu & _ & _ & ->) | (_ & _ & ->)]].
  - unfold fed2. cbn. autorewrite with play. cbn.
    split; [reflexivity|]. apply app_whole.
  - unfold collected2.
    change (snake1 (set_powerup None ?s)) with (snake1 s).
    change (snake2 (set_powerup None ?s)) with (snake2 s).
    destruct (type pu); cbn; (split; [reflexivity|]);
      try apply app_whole.
    unfold shrink. destruct (len (head2 :: snake2 st) >? 3).
    + eexists. symmetry. apply firstn_skipn.
    + apply app_whole.
  - unfold stepped2.
    change (snake1 (set_snake2 ?v st)) with (snake1 st).
    change (snake2 (set_snake2 ?v st)) with v.
    split; [reflexivity|].
    exists [last (head2 :: snake2 st) origin].
    apply app_removelast_last. discriminate.
Qed.

(** "Move P1" leaves the body of a dead snake as it was; the body of a
    snake that lives passed the collision checks and is the new head
    followed by the old body, less the segments dropped at the tail. *)
Lemma moveP1_prefix rnd fuel st head1 t :
  moveP1 rnd fuel st = Done (head1, t) ->
  nextHead (snake1 st) (dir1 st) = Done head1 /\
  snake2 (world t) = snake2 st /\
  ((p1Dead t = true /\ snake1 (world t) = snake1 st) \/
   (p1Dead t = false /\ collisionsP1 head1 st = false /\
    exists tail, head1 :: snake1 st = snake1 (world t) ++ tail)).
Proof.
  intros H.
  destruct (moveP1_cases _ _ _ _ _ H) as (Hh & _ & s1 & e & Hp & Ha).
  split; [exact Hh|].
  assert (P : snake1 s1 = snake1 st /\ snake2 s1 = snake2 st /\
              (p1Dead t = false -> collisionsP1 head1 st = false)).
  { destruct (pacmanInteraction_cases _ _ _ _ _ _ _ _ Hp)
      as [(_ & -> & E & _) | [(_ & _ & -> & E & _) | (_ & _ & p & _ & -> & E & _)]];
      repeat split; congruence. }
  destruct P as (P1 & P2 & P3).
  destruct Ha as [(D & ->) | (D & Ha)].
  - split; [exact P2|]. left. auto.
  - destruct (advanceP1_prefix _ _ _ _ _ _ Ha) as (A2 & tail & A1).
    split; [congruence|]. right. split; [exact D|]. split; [auto|].
    exists tail. rewrite <- P1. exact A1.
Qed.

Lemma moveP2_prefix rnd fuel head1 t t' :
  moveP2 rnd fuel head1 t = Done t' ->
  snake1 (world t') = snake1 (world t) /\
  (snake2 (world t') = snake2 (world t) \/
   (mode (world t) = PVP /\
    exists head2 tail,
      nextHead (snake2 (world t)) (dir2 (world t)) = Done head2 /\
      snd (collisionsP2 head1 head2 t) = false /\
      head2 :: snake2 (world t) = snake2 (world t') ++ tail)).
Proof.
  intros H.
  destruct (moveP2_cases _ _ _ _ _ H)
    as [(_ & ->) | (M & head2 & Hh & Hc & [(_ & ->) | (D & Ha)])];
    try (split; [reflexivity | left; reflexivity]).
  destruct (advanceP2_prefix _ _ _ _ _ Ha) as (A1 & tail & A2).
  split; [exact A1|]. right. split; [exact M|].
  exists head2, tail. split; [exact Hh|]. split; [|exact A2].
  rewrite <- Hc. exact D.
Qed.

Lemma nextHead_stepTo (snake : list Point) (dir head : Point) :
  unitDir dir -> linked snake ->
  nextHead snake dir = Done head -> linked (head :: snake).
Proof.
  intros U L H. destruct snake as [|h rest]; [discriminate|].
  injection H as <-. split; [|exact L]. exists dir. split; [exact U | reflexivity].
Qed.

Lemma update_linked (dt : Q) rnd fuel st st' :
  unitDirs st -> linked (snake1 st) -> linked (snake2 st) ->
  update dt rnd fuel st = Done st' ->
  linked (snake1 st') /\ linked (snake2 st').
Proof.
  intros (_ & U1 & _ & U2) L1 L2 H.
  set (s0 := powerupTimers (set_moveTimer (toDouble (moveTimer st + dt)) st)).
  destruct (powerupTimers_fields (set_moveTimer (toDouble (moveTimer st + dt)) st))
    as (T1 & T2 & T3 & _).
  fold s0 in T1, T2, T3. cbn in T1, T2, T3.
  destruct (update_phases _ _ _ _ _ H)
    as [-> | (head1 & t1 & t2 & t3 & H1 & H2 & H3 & ->)].
  - fold s0. rewrite T1, T2. auto.
  - fold s0 in H1.
    destruct (started_fields s0) as (S1 & S2 & Sd1 & Sm & _).
    pose proof (started_fields s0) as Sd2. do 11 apply proj2 in Sd2.
    pose proof (powerupTimers_setup (set_moveTimer (toDouble (moveTimer st + dt)) st))
      as (_ & _ & Pn1 & _ & Pn2).
    fold s0 in Pn1, Pn2. cbn in Pn1, Pn2.
    destruct (resolveGameOver_fields t3) as (R1 & R2 & _).
    destruct (moveAI_body _ _ _ _ H3) as (A1 & A2).
    rewrite R1, R2, A1, A2.
    destruct (moveP1_prefix _ _ _ _ _ H1) as (Hh & K2 & K1).
    rewrite S1, T1, Sd1, Pn1 in Hh. rewrite S2, T2 in K2. rewrite S1, T1 in K1.
    assert (L1' : linked (snake1 (world t1))).
    { destruct K1 as [(_ & ->) | (_ & _ & tail & E)]; [exact L1|].
      apply (linked_app _ tail). rewrite <- E.
      now apply (nextHead_stepTo _ (nextDir1 st)). }
    destruct (moveP2_prefix _ _ _ _ _ H2)
      as (Q1 & [-> | (M & head2 & tail & Hh2 & _ & E)]).
    + rewrite Q1, K2. auto.
    + rewrite Q1. split; [exact L1'|].
      apply (linked_app _ tail). rewrite <- E. rewrite K2.
      destruct (moveP1_setup _ _ _ _ _ H1) as (M1 & _ & _ & D2 & _).
      rewrite K2, D2, Sd2 in Hh2. rewrite M1, Sm, T3 in M.
      cbn in M. rewrite T3 in Hh2. cbn in Hh2. rewrite M, Pn2 in Hh2.
      now apply (nextHead_stepTo _ (nextDir2 st)).
Qed.

(** *** Bodies that do not overlap *)

Lemma moveP1_ghostTimer rnd fuel st head1 t :
  moveP1 rnd fuel st = Done (head1, t) ->
  (forall pu, powerup st = Some pu -> type pu <> GHOST) ->
  ghostTimer (world t) = ghostTimer st.
Proof.
  intros H P.
  destruct (moveP1_cases _ _ _ _ _ H) as (_ & _ & s1 & e & Hp & Ha).
  assert (P1 : ghostTimer s1 = ghostTimer st /\ powerup s1 = powerup st).
  { destruct (pacmanInteraction_cases _ _ _ _ _ _ _ _ Hp)
      as [(_ & -> & _) | [(_ & _ & -> & _) | (_ & _ & p & _ & -> & _)]];
      split; reflexivity. }
  destruct P1 as (G1 & Pu1).
  destruct Ha as [(_ & ->) | (_ & Ha)]; [exact G1|].
  rewrite <- G1.
  destruct (advanceP1_cases _ _ _ _ _ _ Ha)
    as [(_ & f & _ & [-> | (pu & _ & _ & ->)])
       | [(_ & pu & Epu & _ & ->) | (_ & _ & ->)]].
  - unfold fed1. cbn. autorewrite with play. reflexivity.
  - unfold fed1. cbn. autorewrite with play. reflexivity.
  - rewrite Pu1 in Epu. apply P in Epu. unfold collected1.
    change (ghostTimer (set_powerup None ?s)) with (ghostTimer s).
    destruct (type pu); try reflexivity. contradiction.
  - reflexivity.
Qed.

Lemma update_apart (dt : Q) rnd fuel st st' :
  ghostFree st ->
  NoDup (snake1 st) -> NoDup (snake2 st) -> apart st ->
  update dt rnd fuel st = Done st' ->
  NoDup (snake1 st') /\ NoDup (snake2 st') /\ apart st'.
Proof.
  intros (G & P) N1 N2 A H.
  set (s0 := powerupTimers (set_moveTimer (toDouble (moveTimer st + dt)) st)).
  destruct (powerupTimers_fields (set_moveTimer (toDouble (moveTimer st + dt)) st))
    as (T1 & T2 & _ & _ & _ & Tp & _).
  fold s0 in T1, T2, Tp. cbn in T1, T2, Tp.
  assert (G0 : ghostTimer s0 = 0).
  { unfold s0. rewrite powerupTimers_ghost.
    change (ghostTimer (set_moveTimer ?v st)) with (ghostTimer st).
    destruct (ghostTimer st >? 0) eqn:E.
    - apply Z.gtb_lt in E. lia.
    - rewrite Z.gtb_ltb in E. apply Z.ltb_ge in E. lia. }
  destruct (update_phases _ _ _ _ _ H)
    as [-> | (head1 & t1 & t2 & t3 & H1 & H2 & H3 & ->)].
  - fold s0. unfold apart. rewrite T1, T2. auto.
  - fold s0 in H1.
    destruct (started_fields s0)
      as (S1 & S2 & _ & _ & Sg & _ & _ & _ & Sp & _).
    destruct (resolveGameOver_fields t3) as (R1 & R2 & _).
    destruct (moveAI_body _ _ _ _ H3) as (A1 & A2).
    unfold apart. rewrite R1, R2, A1, A2.
    destruct (moveP1_prefix _ _ _ _ _ H1) as (_ & K2 & K1).
    rewrite S2, T2 in K2. rewrite S1, T1 in K1.
    assert (Gt : ghostTimer (world t1) = 0).
    { rewrite (moveP1_ghostTimer _ _ _ _ _ H1); [congruence|].
      intros pu. rewrite Sp, Tp. apply P. }
    assert (B1 : NoDup (snake1 (world t1)) /\
                 forall p, In p (snake1 (world t1)) -> ~ In p (snake2 st)).
    { destruct K1 as [(_ & ->) | (_ & C & tail & E)]; [auto|].
      unfold collisionsP1 in C. rewrite Sg, G0 in C. cbn in C.
      apply orb_false_iff in C. destruct C as (C1 & C2).
      rewrite S1, T1 in C1. rewrite S2, T2 in C2.
      assert (F1 : ~ In head1 (snake1 st))
        by (intros K; apply checkCollision_In in K; congruence).
      assert (F2 : ~ In head1 (snake2 st))
        by (intros K; apply checkCollision_In in K; congruence).
      assert (Nh : NoDup (head1 :: snake1 st)) by (constructor; assumption).
      rewrite E in Nh. split; [exact (NoDup_app_remove_r _ _ Nh)|].
      intros p K.
      assert (K' : In p (head1 :: snake1 st))
        by (rewrite E; apply in_or_app; left; exact K).
      destruct K' as [<- | K']; [exact F2 | apply A; exact K']. }
    destruct B1 as (N1' & A').
    destruct (moveP2_prefix _ _ _ _ _ H2)
      as (Q1 & [-> | (_ & head2 & tail & _ & C & E)]).
    + rewrite Q1, K2. auto.
    + rewrite Q1. unfold collisionsP2 in C. rewrite Gt in C. cbn in C.
      destruct (samePoint head1 head2); [discriminate C|]. cbn in C.
      apply orb_false_iff in C. destruct C as (C & C1).
      apply orb_false_iff in C. destruct C as (_ & C2).
      rewrite K2 in C2, E.
      assert (F1 : ~ In head2 (snake1 (world t1)))
        by (intros K; apply checkCollision_In in K; congruence).
      assert (F2 : ~ In head2 (snake2 st))
        by (intros K; apply checkCollision_In in K; congruence).
      assert (Nh : NoDup (head2 :: snake2 st)) by (constructor; assumption).
      rewrite E in Nh.
      split; [exact N1'|]. split; [exact (NoDup_app_remove_r _ _ Nh)|].
      intros p K1' K2'.
      assert (K' : In p (head2 :: snake2 st))
        by (rewrite E; apply in_or_app; left; exact K2').
      destruct K' as [<- | K']; [exact (F1 K1') | exact (A' p K1' K')].
Qed.

(** X22: the bodies stay in one piece.  If the pending headings are
    unit vectors and every segment of each snake is one step from the
    segment behind it, around the edges of the grid, then the same holds
    after a frame of [update]: a new head is one step from the old head,
    and eating, shrinking and advancing only drop segments at the tail. *)
Theorem bodies_stay_in_one_piece (dt : Q) (rnd : Rand) (fuel : nat)
    (st st' : Game)
    (U : unitDirs st)
    (L1 : linked (snake1 st)) (L2 : linked (snake2 st))
    (H : update dt rnd fuel st = Done st') :
  linked (snake1 st') /\ linked (snake2 st').
Proof. exact (update_linked dt rnd fuel st st' U L1 L2 H). Qed.

Lemma bodies_stay_in_one_piece_witness :
  exists st',
    update longFrame (dice (mkPoint 9 9) false) 3 coiled = Done st' /\
    linked (snake1 st').
Proof.
  eexists. split; [vm_compute; reflexivity|].
  assert (U : forall d, In d [up; down; left; right] -> unitDir d).
  { intros d [<- | [<- | [<- | [<- | []]]]]; unfold unitDir; auto. }
  apply (bodies_stay_in_one_piece longFrame (dice (mkPoint 9 9) false) 3 coiled).
  - repeat split; apply U; cbn; auto.
  - cbn. repeat split.
    + exists left. split; [apply U; cbn; auto | reflexivity].
    + exists up. split; [apply U; cbn; auto | reflexivity].
    + exists right. split; [apply U; cbn; auto | reflexivity].
  - exact I.
  - vm_compute. reflexivity.
Defined.

(** X23: outside the Ghost effect the snakes never overlap.  If the
    ghost timer is at 0, or at 1 and running out, the power-up on the
    board is not a Ghost, no snake has two segments on one cell and the
    two snakes share no cell, then after a frame of [update] still no
    snake has two segments on one cell and the two snakes share no
    cell. *)
Theorem snakes_never_overlap_without_ghost (dt : Q) (rnd : Rand) (fuel : nat)
    (st st' : Game)
    (G : ghostFree st)
    (N1 : NoDup (snake1 st)) (N2 : NoDup (snake2 st)) (A : apart st)
    (H : update dt rnd fuel st = Done st') :
  NoDup (snake1 st') /\ NoDup (snake2 st') /\ apart st'.
Proof. exact (update_apart dt rnd fuel st st' G N1 N2 A H). Qed.

Lemma snakes_never_overlap_without_ghost_witness :
  exists st',
    update longFrame (dice (mkPoint 0 0) false) 3
      (duel [mkPoint 10 10; mkPoint 11 10; mkPoint 12 10] left
            [mkPoint 8 12; mkPoint 7 12; mkPoint 6 12] right
            (mkPoint 20 5) None 0)
    = Done st' /\
    snake1 st' = [mkPoint 9 10; mkPoint 10 10; mkPoint 11 10] /\
    snake2 st' = [mkPoint 9 12; mkPoint 8 12; mkPoint 7 12] /\
    NoDup (snake1 st') /\ NoDup (snake2 st') /\ apart st'.
Proof.
  eexists. split; [vm_compute; reflexivity|].
  split; [reflexivity|]. split; [reflexivity|].
  apply (snakes_never_overlap_without_ghost longFrame
           (dice (mkPoint 0 0) false) 3
           (duel [mkPoint 10 10; mkPoint 11 10; mkPoint 12 10] left
                 [mkPoint 8 12; mkPoint 7 12; mkPoint 6 12] right
                 (mkPoint 20 5) None 0)).
  - split; [cbn; lia | intros pu E; discriminate E].
  - repeat (apply NoDup_cons;
            [intros K; repeat (destruct K as [K | K]; [discriminate K|]);
             exact K|]).
    apply NoDup_nil.
  - repeat (apply NoDup_cons;
            [intros K; repeat (destruct K as [K | K]; [discriminate K|]);
             exact K|]).
    apply NoDup_nil.
  - intros p K1 K2.
    repeat (destruct K1 as [K1 | K1];
            [subst p;
             repeat (destruct K2 as [K2 | K2]; [discriminate K2|]);
             exact K2|]).
    exact K1.
  - vm_compute. reflexivity.
Defined.

(** *** The handlers of the keyboard and of the joystick *)

Lemma sameRound_refl (st : Game) : sameRound st st.
Proof. unfold sameRound. repeat split. Qed.

Lemma when_next1_round (c : bool) (d : Point) (st0 st : Game) :
  sameRound st0 st -> sameRound st0 (when c (set_nextDir1 d) st).
Proof. intros R. destruct c; exact R. Qed.

Lemma when_next2_round (c : bool) (d : Point) (st0 st : Game) :
  sameRound st0 st -> sameRound st0 (when c (set_nextDir2 d) st).
Proof. intros R. destruct c; exact R. Qed.

Lemma handleInput_round (key : string) (st : Game) :
  sameRound st (handleInput key st).
Proof.
  unfold handleInput.
  destruct (gameState st); try apply sameRound_refl;
    [unfold sameRound; repeat split|].
  cbv zeta.
  match goal with |- sameRound st (match mode ?s with PVC => _ | PVP => _ end) =>
    assert (R1 : sameRound st s)
      by (repeat apply when_next1_round; apply sameRound_refl);
    destruct (mode s)
  end; [exact R1|].
  repeat apply when_next2_round. exact R1.
Qed.

Lemma handleJoystick_round (dx dy : Z) (st : Game) :
  sameRound st (handleJoystick dx dy st).
Proof.
  unfold handleJoystick. cbv zeta.
  repeat apply when_next1_round. apply sameRound_refl.
Qed.

Lemma handleInput_playing (key : string) (st : Game) :
  gameState (handleInput key st) = playing -> gameState st = playing.
Proof.
  unfold handleInput.
  destruct (gameState st) eqn:G; intros E; try reflexivity; cbn in E;
    congruence.
Qed.

Lemma handleJoystick_gameState (dx dy : Z) (st : Game) :
  gameState (handleJoystick dx dy st) = gameState st.
Proof.
  unfold handleJoystick. cbv zeta. autorewrite with guarded. reflexivity.
Qed.

Lemma sound_same (st st' : Game) :
  sameRound st st' -> unitDirs st' -> steady st' ->
  (gameState st' = playing -> gameState st = playing) ->
  sound st -> sound st'.
Proof.
  intros ((R1 & R2 & R3 & R4 & R5 & R6) & (T1 & T2 & T3 & T4 & T5)
          & (C1 & C2 & C3)) U S G.
  intros (_ & (T & P & Y) & N & (B & F & A) & (L1 & L2) & C).
  unfold sound, timersInRange, paced, synced, scored, onBoard, foodClear,
    alone, crewed in *.
  rewrite R1, R2, R3, R4, R5, R6, T1, T2, T3, T4, T5, C1, C2, C3.
  repeat (split; try assumption).
  - apply C, G. assumption.
  - apply C, G. assumption.
Qed.

(** *** The start of a round, again *)

Lemma resetGame_sound newMode rnd fuel st st' :
  fairDice rnd -> sound st ->
  resetGame newMode rnd fuel st = Done st' -> sound st'.
Proof.
  intros D ((U & S) & _) H.
  destruct U as (_ & _ & U3 & U4). destruct S as (_ & S2).
  unfold resetGame in H. cbv zeta in H.
  apply bind_Done in H. destruct H as (s1 & H1 & H).
  apply bind_Done in H. destruct H as (f & Hf & H).
  injection H as <-.
  pose proof (placeItem_free _ _ _ _ Hf) as Free.
  apply placeItem_draws in Hf. destruct Hf as (k & ->).
  assert (Gf : onGrid (rndFood1 rnd k)) by apply (D k).
  assert (Up : unitDir (mkPoint 0 (-1))) by (left; reflexivity).
  assert (St : mkPoint 0 (-1) <> origin /\ mkPoint 0 (-1) <> origin /\
               mkPoint 0 (-1) <> reverse (mkPoint 0 (-1)))
    by (repeat split; discriminate).
  assert (Pc : forall s : Game,
             moveInterval s = inject_Z 120 ->
             baseMoveInterval s = inject_Z 120 -> paced s).
  { intros s E1 E2. unfold paced. rewrite E1, E2. unfold inject_Z.
    split; split; lra. }
  destruct newMode.
  - apply bind_Done in H1. destruct H1 as (p & Hp & H1).
    injection H1 as <-.
    apply pacmanStartFrom_sound in Hp. destruct Hp as (_ & j & Ej).
    assert (Gp : onGrid p) by (rewrite Ej; apply (D j)).
    cbn in Free |- *.
    split; [|split; [|split; [|split; [|split]]]].
    + split; [repeat split; assumption | split; assumption].
    + split; [|split].
      * unfold timersInRange. cbn. durations. lia.
      * apply Pc; reflexivity.
      * intros _. reflexivity.
    + unfold scored. cbn. lia.
    + split; [|split].
      * unfold onBoard. cbn. split; [|split; [|split; [|split]]].
        -- repeat constructor; cbn; grid_lia.
        -- constructor.
        -- exact Gf.
        -- intros q E. injection E as <-. exact Gp.
        -- intros q E. discriminate E.
      * split; [|intros []].
        intros [K | []]. apply Free. left. exact K.
      * intros _. reflexivity.
    + repeat split.
    + intros _. split; [discriminate | intros M; discriminate M].
  - injection H1 as <-. cbn in Free |- *.
    split; [|split; [|split; [|split; [|split]]]].
    + split; [repeat split; assumption | split; assumption].
    + split; [|split].
      * unfold timersInRange. cbn. durations. lia.
      * apply Pc; reflexivity.
      * intros _. reflexivity.
    + unfold scored. cbn. lia.
    + split; [|split].
      * unfold onBoard. cbn. split; [|split; [|split; [|split]]].
        -- repeat constructor; cbn; grid_lia.
        -- repeat constructor; cbn; grid_lia.
        -- exact Gf.
        -- intros q E. discriminate E.
        -- intros q E. discriminate E.
      * split.
        -- intros [K | []]. apply Free. left. exact K.
        -- intros [K | []]. apply Free. right. left. exact K.
      * intros M. discriminate M.
    + repeat split.
    + intros _. split; [discriminate | intros _; discriminate].
Qed.

(** *** A session *)

Lemma update_sound (dt : Q) rnd fuel st st' :
  fairDice rnd -> sound st -> gameState st = playing ->
  update dt rnd fuel st = Done st' -> sound st'.
Proof.
  intros D ((U & S) & (T & P & Y) & (N1 & N2 & N3) & (B & F & A) & (L1 & L2)
            & C) G H.
  destruct (update_counts _ _ _ _ _ H) as (Ht & (G1 & G2 & G3)).
  destruct (update_pantry _ _ _ _ _ H (conj F A)) as (F' & A').
  split; [|split; [|split; [|split; [|split]]]].
  - split; [exact (update_unit _ _ _ _ _ U H) | exact (update_steady _ _ _ _ _ S H)].
  - split; [exact (Ht T)|].
    split; [exact (update_paced _ _ _ _ _ P H) | exact (update_synced _ _ _ _ _ H Y)].
  - unfold scored. lia.
  - split; [exact (update_board _ _ _ _ _ D B H) | split; assumption].
  - exact (update_linked _ _ _ _ _ U L1 L2 H).
  - intros _. exact (proj2 (update_crew dt rnd fuel st (C G)) st' H).
Qed.

Lemma frame_sound (dt : Q) rnd fuel st st' :
  fairDice rnd -> sound st -> frame dt rnd fuel st = Done st' -> sound st'.
Proof.
  intros D S. unfold frame. destruct (gameState st) eqn:G;
    try (intros H; injection H as <-; exact S).
  apply update_sound; assumption.
Qed.

Lemma frame_never_throws (dt : Q) rnd fuel st :
  sound st -> frame dt rnd fuel st <> TypeError.
Proof.
  intros (_ & _ & _ & _ & _ & C). unfold frame.
  destruct (gameState st); try discriminate.
  exact (proj1 (update_crew dt rnd fuel st (C eq_refl))).
Qed.

Lemma pacmanStartFrom_never_throws (draw : nat -> Point) (startX : Z) :
  forall fuel i, pacmanStartFrom draw startX fuel i <> TypeError.
Proof.
  induction fuel as [|fuel IH]; intros i; simpl; [discriminate|].
  destruct (Z.abs (x (draw i) - startX) <? 5); [apply IH | discriminate].
Qed.

Lemma resetGame_never_throws newMode rnd fuel st :
  resetGame newMode rnd fuel st <> TypeError.
Proof.
  unfold resetGame. cbv zeta. apply bind_never_throws.
  - destruct newMode; [|discriminate].
    apply bind_never_throws; [apply pacmanStartFrom_never_throws|].
    discriminate.
  - intros s. apply bind_never_throws; [apply placeItem_never_throws|].
    discriminate.
Qed.

Lemma screen_sound (g : GameState) (st st' : Game) :
  g <> playing -> sameRound st st' ->
  gameState st' = g ->
  dir1 st' = dir1 st -> nextDir1 st' = nextDir1 st ->
  dir2 st' = dir2 st -> nextDir2 st' = nextDir2 st ->
  sound st -> sound st'.
Proof.
  intros N R G D1 D2 D3 D4 S. pose proof S as ((U & Sd) & _).
  apply (sound_same st); try assumption.
  - unfold unitDirs. rewrite D1, D2, D3, D4. exact U.
  - unfold steady. rewrite D1, D2, D3, D4. exact Sd.
  - intros E. congruence.
Qed.

Lemma dispatch_sound (fuel : nat) (e : Event) (st : Game) :
  fairEvent e -> sound st ->
  dispatch fuel e st <> TypeError /\
  forall st', dispatch fuel e st = Done st' -> sound st'.
Proof.
  intros F S. pose proof S as ((U & Sd) & _).
  destruct e as [key | b | dt rnd | newMode rnd | | |]; cbn [dispatch fairEvent] in *.
  - split; [discriminate|]. intros st' H. injection H as <-.
    apply (sound_same st); try assumption.
    + apply handleInput_round.
    + apply handleInput_unit. exact U.
    + apply handleInput_steady. exact Sd.
    + apply handleInput_playing.
  - destruct (gameState st) eqn:G;
      (split; [discriminate|]); intros st' H; injection H as <-;
      try exact S.
    apply (sound_same st); try assumption.
    + destruct b; apply handleJoystick_round.
    + apply Joystick_unit. exact U.
    + destruct b; apply handleJoystick_steady; exact Sd.
    + intros _. exact G.
  - split; [apply frame_never_throws; exact S|].
    intros st'. apply frame_sound; assumption.
  - destruct (gameState st) eqn:G;
      try (split; [discriminate|]; intros st' H; injection H as <-; exact S);
      (split; [apply resetGame_never_throws|]);
      intros st'; apply resetGame_sound; assumption.
  - destruct (gameState st) eqn:G;
      (split; [discriminate|]); intros st' H; injection H as <-;
      try exact S;
      apply (screen_sound menu st); try reflexivity; try assumption;
      try discriminate; unfold sameRound; repeat split.
  - destruct (gameState st) eqn:G;
      (split; [discriminate|]); intros st' H; injection H as <-;
      try exact S;
      apply (screen_sound leaderboard st); try reflexivity; try assumption;
      try discriminate; unfold sameRound; repeat split.
  - destruct (gameState st) eqn:G;
      (split; [discriminate|]); intros st' H; injection H as <-;
      try exact S;
      apply (screen_sound leaderboard st); try reflexivity; try assumption;
      try discriminate; unfold sameRound; repeat split.
Qed.

Lemma session_sound (fuel : nat) (events : list Event) :
  Forall fairEvent events ->
  forall st, sound st ->
    session fuel events st <> TypeError /\
    forall st', session fuel events st = Done st' -> sound st'.
Proof.
  induction 1 as [|e events Fe Fs IH]; intros st S; simpl.
  - split; [discriminate|]. intros st' H. injection H as <-. exact S.
  - destruct (dispatch_sound fuel e st Fe S) as (N & K).
    destruct (dispatch fuel e st) as [s1| |]; simpl.
    + apply IH, K. reflexivity.
    + split; discriminate.
    + contradiction.
Qed.

Lemma mounted_sound : sound mounted.
Proof.
  split; [|split; [|split; [|split; [|split]]]].
  - split; [repeat split; left; reflexivity | apply mounted_steady].
  - split; [|split].
    + unfold timersInRange. cbn. durations. lia.
    + unfold paced. cbn. unfold inject_Z. split; split; lra.
    + intros _. reflexivity.
  - unfold scored. cbn. lia.
  - split; [|split].
    + unfold onBoard. cbn. split; [|split; [|split; [|split]]];
        try constructor; try discriminate; cbn; grid_lia.
    + split; intros [].
    + intros _. reflexivity.
  - split; exact I.
  - cbn. discriminate.
Qed.

(** X24: a session never leaves the sound states and never throws.
    From the mounted component, whatever keys are pressed, buttons
    clicked and frames run, with draws that are cells of the grid: no
    handler reads the head of an empty body, and in every state reached
    the headings are unit vectors with no U-turn pending, the timers,
    the intervals and the scores are within their bounds, everything is
    on the grid, the food is on no snake, the bodies are in one piece,
    and every snake that plays has a body. *)
Theorem a_session_stays_sound (fuel : nat) (events : list Event)
    (F : Forall fairEvent events) :
  session fuel events mounted <> TypeError /\
  forall st, session fuel events mounted = Done st -> sound st.
Proof. exact (session_sound fuel events F mounted mounted_sound). Qed.

Lemma a_session_stays_sound_witness :
  exists st,
    session 3
      [KeyDown "x"; StartGame PVC (startDice (mkPoint 3 3) (mkPoint 9 9));
       KeyDown "ArrowLeft";
       AnimationFrame longFrame (dice (mkPoint 9 9) false)]
      mounted = Done st /\
    snake1 st = [mkPoint 14 10] /\ sound st.
Proof.
  eexists. split; [vm_compute; reflexivity|]. split; [reflexivity|].
  apply (a_session_stays_sound 3
           [KeyDown "x"; StartGame PVC (startDice (mkPoint 3 3) (mkPoint 9 9));
            KeyDown "ArrowLeft";
            AnimationFrame longFrame (dice (mkPoint 9 9) false)]).
  - repeat (apply Forall_cons;
            [try exact I; try (intros i; unfold onGrid; cbn; grid_lia)|]).
    apply Forall_nil.
  - vm_compute. reflexivity.
Defined.

(** ** Properties of the component of [src/components/Game.tsx] *)

(** What the advance of a body leaves alone. *)
Lemma classic_advanceP1_frame rnd fuel head1 st st' :
  Classic.advanceP1 rnd fuel head1 st = Done st' ->
  Classic.gameState st' = Classic.gameState st /\
  Classic.mode st' = Classic.mode st /\
  Classic.snake2 st' = Classic.snake2 st /\
  Classic.dir2 st' = Classic.dir2 st /\
  Classic.pacman st' = Classic.pacman st /\
  (Classic.powerup st <> Some head1 ->
   Classic.pacmanFrozen st' = Classic.pacmanFrozen st) /\
  (samePoint head1 (Classic.food st) = false ->
   Classic.food st' = Classic.food st) /\
  (forall p, In p (Classic.snake1 st') -> In p (head1 :: Classic.snake1 st)).
Proof.
  unfold Classic.advanceP1. cbv zeta. intros H.
  assert (I : forall p, In p (removelast (head1 :: Classic.snake1 st)) ->
                        In p (head1 :: Classic.snake1 st))
    by (intros p; apply In_removelast).
  change (Classic.food (Classic.set_snake1 ?v st)) with (Classic.food st) in H.
  change (Classic.powerup (Classic.set_snake1 ?v st))
    with (Classic.powerup st) in H.
  change (Classic.snake1 (Classic.set_snake1 ?v st)) with v in H.
  destruct (samePoint head1 (Classic.food st)) eqn:Hf.
  - apply bind_Done in H. destruct H as (f & _ & H).
    assert (K : st' = Classic.set_food f
                        (Classic.playSound snd_eat
                           (Classic.set_scores_p1
                              (Classic.scores_p1
                                 (Classic.set_snake1
                                    (head1 :: Classic.snake1 st) st) + 1)
                              (Classic.set_snake1
                                 (head1 :: Classic.snake1 st) st))) \/
                exists pu,
                  st' = Classic.set_powerup (Some pu)
                          (Classic.set_food f
                             (Classic.playSound snd_eat
                                (Classic.set_scores_p1
                                   (Classic.scores_p1
                                      (Classic.set_snake1
                                         (head1 :: Classic.snake1 st) st) + 1)
                                   (Classic.set_snake1
                                      (head1 :: Classic.snake1 st) st))))).
    { cbn in H. destruct (Classic.powerup st);
        [injection H as <-; left; reflexivity|].
      destruct (rndRoll rnd); [|injection H as <-; left; reflexivity].
      apply bind_Done in H. destruct H as (pu & _ & H).
      injection H as <-. right. exists pu. reflexivity. }
    destruct K as [-> | (pu & ->)]; cbn;
      repeat split; auto; discriminate.
  - destruct (Classic.powerup st) as [pu|] eqn:Epu.
    + destruct (samePoint head1 pu) eqn:Hp.
      * injection H as <-. cbn. repeat split; auto.
        intros N. exfalso. apply N. f_equal. symmetry.
        now apply samePoint_eq.
      * injection H as <-.
        change (Classic.snake1 (Classic.set_snake1 ?v ?s)) with v.
        repeat split; auto; exact I.
    + injection H as <-.
      change (Classic.snake1 (Classic.set_snake1 ?v ?s)) with v.
      repeat split; auto; exact I.
Qed.

Lemma classic_advanceP2_frame rnd fuel head2 st st' :
  Classic.advanceP2 rnd fuel head2 st = Done st' ->
  Classic.gameState st' = Classic.gameState st /\
  Classic.mode st' = Classic.mode st.
Proof.
  unfold Classic.advanceP2. cbv zeta. intros H.
  repeat match type of H with
         | bind _ _ = Done _ =>
             let a := fresh "a" in
             let Ha := fresh "Ha" in
             apply bind_Done in H; destruct H as (a & Ha & H)
         | (if ?c then _ else _) = Done _ => destruct c eqn:?
         | match ?o with Some _ => _ | None => _ end = Done _ => destruct o eqn:?
         | Done _ = Done _ => injection H as <-
         end;
    cbn in *; repeat split; reflexivity.
Qed.

Lemma classic_moveAI_frame rnd fuel st st' :
  Classic.moveAI rnd fuel st = Done st' ->
  Classic.gameState st' = Classic.gameState st /\
  Classic.mode st' = Classic.mode st /\
  Classic.snake2 st' = Classic.snake2 st /\
  Classic.snake1 st' = Classic.snake1 st.
Proof.
  unfold Classic.moveAI. cbv zeta. intros H.
  destruct (Classic.mode st) eqn:M;
    [|injection H as <-; repeat split; auto].
  destruct (Classic.pacman st) as [pac|];
    [|injection H as <-; repeat split; auto].
  repeat match type of H with
         | bind _ _ = Done _ =>
             let a := fresh "a" in
             let Ha := fresh "Ha" in
             apply bind_Done in H; destruct H as (a & Ha & H)
         | (if ?c then _ else _) = Done _ => destruct c eqn:?
         | match ?o with Some _ => _ | None => _ end = Done _ => destruct o eqn:?
         | Done _ = Done _ => injection H as <-
         end;
    repeat match goal with
           | K : (if ?c then _ else _) = Done _ |- _ => destruct c eqn:?
           | K : bind _ _ = Done _ |- _ =>
               let a := fresh "a" in
               let Ha := fresh "Ha" in
               apply bind_Done in K; destruct K as (a & Ha & K)
           | K : Done _ = Done _ |- _ => injection K as <-
           end;
    cbn in *; repeat split; auto.
Qed.

Lemma classic_resolveGameOver_state st p1Dead p2Dead :
  Classic.gameState (Classic.resolveGameOver st p1Dead p2Dead)
  = if p1Dead || p2Dead then Classic.gameover else Classic.gameState st.
Proof.
  unfold Classic.resolveGameOver.
  destruct p1Dead, p2Dead; cbn; try reflexivity; destruct (Classic.mode st);
    reflexivity.
Qed.

Lemma classicStarted_fields (dt : Q) (st : Classic.Game) :
  let s0 := classicStarted dt st in
  Classic.snake1 s0 = Classic.snake1 st /\
  Classic.snake2 s0 = Classic.snake2 st /\
  Classic.dir1 s0 = Classic.nextDir1 st /\
  (Classic.mode st = PVP -> Classic.dir2 s0 = Classic.nextDir2 st) /\
  Classic.mode s0 = Classic.mode st /\
  Classic.gameState s0 = Classic.gameState st /\
  Classic.pacman s0 = Classic.pacman st /\
  Classic.pacmanFrozen s0 = Classic.pacmanFrozen st /\
  Classic.powerup s0 = Classic.powerup st /\
  Classic.food s0 = Classic.food st.
Proof.
  unfold classicStarted. cbn.
  destruct (Classic.mode st) eqn:M; cbn; repeat split; auto; discriminate.
Qed.

Lemma classic_resolveGameOver_pacman st p1Dead p2Dead :
  Classic.pacman (Classic.resolveGameOver st p1Dead p2Dead) = Classic.pacman st.
Proof.
  unfold Classic.resolveGameOver.
  destruct p1Dead, p2Dead; cbn; try reflexivity; destruct (Classic.mode st);
    reflexivity.
Qed.

(** A frame, phase by phase. *)
Lemma classic_update_phases (dt : Q) rnd fuel st st' :
  Classic.update dt rnd fuel st = Done st' ->
  (Qle_bool (toDouble (Classic.moveTimer st + dt)) (Classic.moveInterval st) = true /\
   st' = Classic.set_moveTimer (toDouble (Classic.moveTimer st + dt)) st) \/
  (classicDue dt st /\
   exists head1 s1 d1 s2 d1' d2 s3,
     Classic.moveP1 rnd fuel (classicStarted dt st) = Done (head1, s1, d1) /\
     Classic.moveP2 rnd fuel head1 s1 d1 = Done (s2, d1', d2) /\
     Classic.moveAI rnd fuel s2 = Done s3 /\
     st' = Classic.resolveGameOver s3 d1' d2).
Proof.
  unfold Classic.update, classicDue. cbv zeta.
  change (Classic.moveTimer (Classic.set_moveTimer ?v st)) with v.
  change (Classic.moveInterval (Classic.set_moveTimer ?v st))
    with (Classic.moveInterval st).
  destruct (Qle_bool (toDouble (Classic.moveTimer st + dt)) (Classic.moveInterval st));
    cbn [negb]; intros H.
  - left. injection H as <-. auto.
  - right. split; [reflexivity|].
    apply bind_Done in H. destruct H as (((head1 & s1) & d1) & H1 & H).
    apply bind_Done in H. destruct H as (((s2 & d1') & d2) & H2 & H).
    apply bind_Done in H. destruct H as (s3 & H3 & H).
    injection H as <-.
    exists head1, s1, d1, s2, d1', d2, s3. auto.
Qed.

Lemma classic_moveP1_cases rnd fuel st head1 s1 d1 :
  Classic.moveP1 rnd fuel st = Done (head1, s1, d1) ->
  nextHead (Classic.snake1 st) (Classic.dir1 st) = Done head1 /\
  d1 = match Classic.mode st with
       | PVP => checkCollision head1 (Classic.snake1 st)
                || checkCollision head1 (Classic.snake2 st)
       | PVC => checkCollision head1 (Classic.snake1 st)
       end /\
  ((d1 = true /\ s1 = st) \/
   (d1 = false /\ Classic.advanceP1 rnd fuel head1 st = Done s1)).
Proof.
  unfold Classic.moveP1. cbv zeta. intros H.
  apply bind_Done in H. destruct H as (h & Hh & H).
  apply bind_Done in H. destruct H as (s & Hs & H).
  injection H as <- <- <-.
  split; [exact Hh|]. split; [reflexivity|].
  match type of Hs with (if negb ?c then _ else _) = _ => destruct c end;
    cbn [negb] in Hs.
  - left. injection Hs as <-. auto.
  - right. auto.
Qed.

Lemma classic_moveP2_cases rnd fuel head1 st d1 s2 d1' d2 :
  Classic.moveP2 rnd fuel head1 st d1 = Done (s2, d1', d2) ->
  (Classic.mode st = PVC /\ s2 = st /\ d1' = d1 /\ d2 = false) \/
  (Classic.mode st = PVP /\
   exists head2,
     nextHead (Classic.snake2 st) (Classic.dir2 st) = Done head2 /\
     d1' = samePoint head1 head2 || d1 /\
     d2 = samePoint head1 head2
          || (checkCollision head2 (Classic.snake2 st)
              || checkCollision head2 (Classic.snake1 st)) /\
     ((d2 = true /\ s2 = st) \/
      (d2 = false /\ Classic.advanceP2 rnd fuel head2 st = Done s2))).
Proof.
  unfold Classic.moveP2. cbv zeta. intros H.
  destruct (Classic.mode st); [left; injection H as <- <- <-; auto|].
  right. split; [reflexivity|].
  apply bind_Done in H. destruct H as (head2 & Hh & H).
  apply bind_Done in H. destruct H as (s & Hs & H).
  injection H as <- <- <-.
  exists head2. split; [exact Hh|]. split; [reflexivity|].
  split; [reflexivity|].
  match type of Hs with (if negb ?c then _ else _) = _ => destruct c end;
    cbn [negb] in Hs.
  - left. injection Hs as <-. auto.
  - right. auto.
Qed.

Lemma classic_moveAI_steps rnd fuel st st' pac :
  Classic.moveAI rnd fuel st = Done st' ->
  Classic.mode st = PVC -> Classic.pacman st = Some pac ->
  Classic.pacmanFrozen st <= 0 ->
  Classic.pacman st' = Some (classicStep pac (Classic.food st)).
Proof.
  unfold Classic.moveAI. cbv zeta. intros H M P F.
  rewrite M, P in H.
  assert (E : (Classic.pacmanFrozen st >? 0) = false)
    by (rewrite Z.gtb_ltb; apply Z.ltb_ge; exact F).
  rewrite E in H. fold (classicStep pac (Classic.food st)) in H.
  apply bind_Done in H. destruct H as (s & Hs & H).
  assert (Ps : Classic.pacman s = Some (classicStep pac (Classic.food st))).
  { match type of Hs with (if ?c then _ else _) = _ => destruct c end.
    - apply bind_Done in Hs. destruct Hs as (f & _ & Hs).
      injection Hs as <-. reflexivity.
    - injection Hs as <-. reflexivity. }
  destruct (Classic.powerup s) as [pu|]; [|injection H as <-; exact Ps].
  match type of H with (if ?c then _ else _) = _ => destruct c end;
    injection H as <-; exact Ps.
Qed.

Lemma step_leaves_the_cell (a d : Point) :
  onGrid a -> unitDir d ->
  mkPoint (wrap (x a + x d) COLS) (wrap (y a + y d) ROWS) <> a.
Proof.
  intros [Hx Hy] U E. destruct a as [ax ay]. cbn [x y] in *.
  injection E as Ex Ey. unfold wrap in Ex, Ey.
  rewrite COLS_val, ROWS_val in *.
  destruct U as [-> | [-> | [-> | ->]]]; cbn [x y up down left right] in *;
    repeat match goal with
           | K : context [if ?c then _ else _] |- _ => destruct c eqn:?
           end; lia.
Qed.

Lemma classicStep_stepTo (pac foodAt : Point) :
  stepTo pac (classicStep pac foodAt).
Proof.
  unfold stepTo, classicStep. cbv zeta.
  destruct (Z.abs (toroidalDelta (x pac) (x foodAt) COLS)
            >? Z.abs (toroidalDelta (y pac) (y foodAt) ROWS)).
  - unfold signStep.
    destruct (toroidalDelta (x pac) (x foodAt) COLS >? 0).
    + exists right. split; [unfold unitDir; auto | reflexivity].
    + exists left. split; [unfold unitDir; auto | reflexivity].
  - unfold signStep.
    destruct (toroidalDelta (y pac) (y foodAt) ROWS >? 0).
    + exists down. split; [unfold unitDir; auto | reflexivity].
    + exists up. split; [unfold unitDir; auto | reflexivity].
Qed.


(** A placement that is supplied against a list is supplied against any
    part of it. *)
Lemma findsFree_incl (draw : nat -> Point) (fuel : nat) (l l' : list Point) :
  (forall p, In p l' -> In p l) ->
  findsFree draw fuel l -> findsFree draw fuel l'.
Proof.
  intros I (k & Hk & Hfree). exists k. split; [exact Hk|].
  intros K. apply Hfree, I, K.
Qed.

(** A frame in which the snakes move is the four phases in a row. *)
Lemma classic_update_due (dt : Q) rnd fuel st :
  classicDue dt st ->
  Classic.update dt rnd fuel st =
  (r <- Classic.moveP1 rnd fuel (classicStarted dt st) ;;
   let '(head1, s1, p1Dead) := r in
   r <- Classic.moveP2 rnd fuel head1 s1 p1Dead ;;
   let '(s2, p1Dead, p2Dead) := r in
   s3 <- Classic.moveAI rnd fuel s2 ;;
   Done (Classic.resolveGameOver s3 p1Dead p2Dead)).
Proof.
  unfold classicDue, Classic.update. cbv zeta.
  change (Classic.moveTimer (Classic.set_moveTimer ?v st)) with v.
  change (Classic.moveInterval (Classic.set_moveTimer ?v st))
    with (Classic.moveInterval st).
  intros ->. reflexivity.
Qed.

Lemma classic_advanceP1_returns rnd fuel head1 st :
  classicHits1 st head1 = false ->
  classicSupplied1 rnd fuel st head1 ->
  exists st', Classic.advanceP1 rnd fuel head1 st = Done st'.
Proof.
  intros A S. specialize (S A). unfold Classic.advanceP1. cbv zeta.
  change (Classic.food (Classic.set_snake1 ?v st)) with (Classic.food st).
  change (Classic.powerup (Classic.set_snake1 ?v st))
    with (Classic.powerup st).
  destruct (samePoint head1 (Classic.food st)) eqn:Hf.
  - destruct (S eq_refl) as (Ff & Fp). cbv zeta in Ff, Fp.
    destruct (placeItem_returns _ _ _ Ff) as (f & Ef).
    match goal with |- exists st', bind ?o _ = _ =>
      change o with (placeItem (rndFood1 rnd) fuel
                       ((head1 :: Classic.snake1 st) ++ Classic.snake2 st))
    end.
    rewrite Ef. cbn [bind].
    change (Classic.powerup (Classic.set_food f ?s)) with (Classic.powerup s).
    change (Classic.powerup (Classic.playSound snd_eat ?s))
      with (Classic.powerup s).
    change (Classic.powerup (Classic.set_scores_p1 ?v ?s))
      with (Classic.powerup s).
    change (Classic.powerup (Classic.set_snake1 ?v st))
      with (Classic.powerup st).
    destruct (Classic.powerup st) as [pu0|] eqn:Epu; [eauto|].
    destruct (rndRoll rnd) eqn:Er; [|eauto].
    destruct (placeItem_returns _ _ _ (Fp eq_refl eq_refl f Ef)) as (q & Eq).
    match goal with |- exists st', bind ?o _ = _ =>
      change o with (placeItem (rndPowerup rnd) fuel
                       (((head1 :: Classic.snake1 st) ++ Classic.snake2 st)
                        ++ [f]))
    end.
    rewrite Eq. cbn [bind]. eauto.
  - destruct (Classic.powerup st) as [pu|]; [|eauto].
    destruct (samePoint head1 pu); eauto.
Qed.

Lemma classic_moveP1_returns rnd fuel st head1 :
  nextHead (Classic.snake1 st) (Classic.dir1 st) = Done head1 ->
  classicSupplied1 rnd fuel st head1 ->
  exists s1,
    Classic.moveP1 rnd fuel st = Done (head1, s1, classicHits1 st head1).
Proof.
  intros Hh S. unfold Classic.moveP1. cbv zeta. rewrite Hh. cbn [bind].
  change (match Classic.mode st with
          | PVP => checkCollision head1 (Classic.snake1 st)
                   || checkCollision head1 (Classic.snake2 st)
          | PVC => checkCollision head1 (Classic.snake1 st)
          end) with (classicHits1 st head1).
  destruct (classicHits1 st head1) eqn:A; cbn [negb].
  - cbn [bind]. eauto.
  - destruct (classic_advanceP1_returns rnd fuel head1 st A S) as (s1 & E).
    rewrite E. cbn [bind]. eauto.
Qed.

Lemma classic_moveAI_returns rnd fuel st :
  findsFree (rndFoodAI rnd) fuel (Classic.snake1 st) ->
  exists st', Classic.moveAI rnd fuel st = Done st'.
Proof.
  intros F. unfold Classic.moveAI. cbv zeta.
  destruct (Classic.mode st); [|eauto].
  destruct (Classic.pacman st) as [pac|]; [|eauto].
  destruct (Classic.pacmanFrozen st >? 0); [eauto|].
  destruct (placeItem_returns _ _ _ F) as (f & Ef).
  match goal with |- exists st', bind (if ?c then _ else _) _ = _ =>
    destruct c end.
  - match goal with |- exists st', bind (bind ?o _) _ = _ =>
      change o with (placeItem (rndFoodAI rnd) fuel (Classic.snake1 st))
    end.
    rewrite Ef. cbn [bind].
    match goal with |- exists st', match ?o with Some _ => _ | None => _ end = _ =>
      destruct o as [pu|] end; [|eauto].
    match goal with |- exists st', (if ?c then _ else _) = _ =>
      destruct c end; eauto.
  - cbn [bind].
    match goal with |- exists st', match ?o with Some _ => _ | None => _ end = _ =>
      destruct o as [pu|] end; [|eauto].
    match goal with |- exists st', (if ?c then _ else _) = _ =>
      destruct c end; eauto.
Qed.

Lemma classic_moveP2_solo rnd fuel head1 st d1 :
  Classic.mode st = PVC ->
  Classic.moveP2 rnd fuel head1 st d1 = Done (st, d1, false).
Proof. unfold Classic.moveP2. now intros ->. Qed.

Lemma classic_moveAI_duel rnd fuel st :
  Classic.mode st = PVP -> Classic.moveAI rnd fuel st = Done st.
Proof. unfold Classic.moveAI. now intros ->. Qed.

(** A step of Pacman in the direction of a folded delta that is not 0
    leaves a delta one smaller. *)
Lemma signStep_closes_in (a b N : Z) :
  0 <= a < N -> 0 <= b < N -> toroidalDelta a b N <> 0 ->
  Z.abs (toroidalDelta (wrap (a + signStep (toroidalDelta a b N)) N) b N)
  = Z.abs (toroidalDelta a b N) - 1.
Proof.
  intros Ha Hb. unfold toroidalDelta, signStep, wrap. cbv zeta.
  repeat match goal with
         | |- context [if ?c then _ else _] =>
             lazymatch c with
             | context [if _ then _ else _] => fail
             | _ => destruct c eqn:?
             end
         end; lia.
Qed.

Lemma wrap_stays (a N : Z) : 0 <= a < N -> wrap (a + 0) N = a.
Proof.
  intros Ha. unfold wrap. rewrite Z.add_0_r.
  destruct (a <? 0) eqn:E1; [lia|]. destruct (a >=? N) eqn:E2; lia.
Qed.

Lemma toroidalDelta_zero (a b N : Z) :
  0 <= a < N -> 0 <= b < N -> toroidalDelta a b N = 0 -> a = b.
Proof.
  intros Ha Hb. unfold toroidalDelta.
  destruct (2 * Z.abs (b - a) >? N) eqn:E1; [destruct (b - a >? 0) eqn:E2|];
    lia.
Qed.

(** The step of Pacman brings him one cell nearer to the food, unless he
    stands on it. *)
Lemma classicStep_closes_in (pac foodAt : Point) :
  onGrid pac -> onGrid foodAt -> pac <> foodAt ->
  toroidalDistance (classicStep pac foodAt) foodAt
  = toroidalDistance pac foodAt - 1.
Proof.
  intros [Px Py] [Fx Fy] N. unfold toroidalDistance, classicStep. cbv zeta.
  cbn [x y].
  destruct (Z.abs (toroidalDelta (x pac) (x foodAt) COLS)
            >? Z.abs (toroidalDelta (y pac) (y foodAt) ROWS)) eqn:E.
  - rewrite (wrap_stays (y pac) ROWS Py).
    rewrite (signStep_closes_in (x pac) (x foodAt) COLS Px Fx); [lia|].
    apply Z.gtb_lt in E. lia.
  - rewrite (wrap_stays (x pac) COLS Px).
    rewrite (signStep_closes_in (y pac) (y foodAt) ROWS Py Fy); [lia|].
    intros Z0. rewrite Z.gtb_ltb in E. apply Z.ltb_ge in E.
    rewrite Z0 in E. change (Z.abs 0) with 0 in E.
    assert (X0 : toroidalDelta (x pac) (x foodAt) COLS = 0) by lia.
    apply N. destruct pac as [px py], foodAt as [fx fy]. simpl in *. f_equal.
    + exact (toroidalDelta_zero _ _ _ Px Fx X0).
    + exact (toroidalDelta_zero _ _ _ Py Fy Z0).
Qed.

(** The move of player 2 onto the cell of the new head of player 1 ends
    the game of both, and advances no body. *)
Lemma classic_moveP2_both rnd fuel h st d1 :
  Classic.mode st = PVP ->
  nextHead (Classic.snake2 st) (Classic.dir2 st) = Done h ->
  Classic.moveP2 rnd fuel h st d1 = Done (st, true, true).
Proof.
  intros M H. unfold Classic.moveP2. rewrite M, H. cbn [bind]. cbv zeta.
  rewrite samePoint_refl. reflexivity.
Qed.

(** The placements of player 1 are those of the state in which the
    snakes move. *)
Lemma classicSupplied1_started (dt : Q) rnd fuel st head1 :
  classicSupplied1 rnd fuel st head1 ->
  classicSupplied1 rnd fuel (classicStarted dt st) head1.
Proof.
  destruct (classicStarted_fields dt st)
    as (S1 & S2 & _ & _ & Sm & _ & _ & _ & Su & Sf).
  unfold classicSupplied1, classicHits1. cbv zeta.
  rewrite S1, S2, Sm, Su, Sf. exact (fun H => H).
Qed.

Lemma classicHits1_started (dt : Q) st head1 :
  classicHits1 (classicStarted dt st) head1 = classicHits1 st head1.
Proof.
  destruct (classicStarted_fields dt st) as (S1 & S2 & _ & _ & Sm & _).
  unfold classicHits1. now rewrite S1, S2, Sm.
Qed.

(** What the move of player 1 leaves: the state in which the snakes
    move, when he dies; his advance from it, when he lives. *)
Lemma classic_moveP1_started (dt : Q) rnd fuel st head1 :
  nextHead (Classic.snake1 st) (Classic.nextDir1 st) = Done head1 ->
  classicSupplied1 rnd fuel st head1 ->
  exists s1,
    Classic.moveP1 rnd fuel (classicStarted dt st)
    = Done (head1, s1, classicHits1 st head1) /\
    Classic.gameState s1 = Classic.gameState st /\
    Classic.mode s1 = Classic.mode st /\
    Classic.snake2 s1 = Classic.snake2 st /\
    (Classic.mode st = PVP -> Classic.dir2 s1 = Classic.nextDir2 st) /\
    Classic.pacman s1 = Classic.pacman st /\
    (Classic.powerup st <> Some head1 ->
     Classic.pacmanFrozen s1 = Classic.pacmanFrozen st) /\
    (samePoint head1 (Classic.food st) = false
     \/ classicHits1 st head1 = true ->
     Classic.food s1 = Classic.food st) /\
    (classicHits1 st head1 = true ->
     Classic.snake1 s1 = Classic.snake1 st) /\
    (forall p, In p (Classic.snake1 s1) -> In p (head1 :: Classic.snake1 st)).
Proof.
  intros Hh S.
  destruct (classicStarted_fields dt st)
    as (S1 & S2 & Sd1 & Sd2 & Sm & Sg & Sp & Sz & Su & Sf).
  destruct (classic_moveP1_returns rnd fuel (classicStarted dt st) head1)
    as (s1 & E).
  { now rewrite S1, Sd1. }
  { now apply classicSupplied1_started. }
  rewrite classicHits1_started in E.
  exists s1. split; [exact E|].
  destruct (classic_moveP1_cases _ _ _ _ _ _ E) as (_ & _ & Ha).
  destruct Ha as [(A & ->) | (A & Ha)].
  - rewrite Sg, Sm, S2, Sp, Sz, Sf, S1.
    repeat split; auto.
    intros p K. right. exact K.
  - destruct (classic_advanceP1_frame _ _ _ _ _ Ha)
      as (Fg & Fm & F2 & Fd & Fp & Fz & Ff & Fi).
    rewrite Fg, Fm, F2, Fd, Fp, Sg, Sm, S2, Sp.
    rewrite Su, Sz in Fz. rewrite Sf in Ff. rewrite S1 in Fi.
    repeat split; auto.
    + intros [K | K]; [exact (Ff K) | congruence].
    + congruence.
Qed.

(** A frame of a single-player game in which the snake moves: the move
    of player 1, then the step of Pacman. *)
Lemma classic_update_solo (dt : Q) rnd fuel st head1 :
  Classic.mode st = PVC ->
  classicDue dt st ->
  nextHead (Classic.snake1 st) (Classic.nextDir1 st) = Done head1 ->
  classicSupplied1 rnd fuel st head1 ->
  findsFree (rndFoodAI rnd) fuel (head1 :: Classic.snake1 st) ->
  exists s1 s3,
    Classic.moveP1 rnd fuel (classicStarted dt st)
    = Done (head1, s1, checkCollision head1 (Classic.snake1 st)) /\
    Classic.moveAI rnd fuel s1 = Done s3 /\
    Classic.update dt rnd fuel st
    = Done (Classic.resolveGameOver s3
              (checkCollision head1 (Classic.snake1 st)) false).
Proof.
  intros M D Hh S SA.
  destruct (classic_moveP1_started dt rnd fuel st head1 Hh S)
    as (s1 & E1 & _ & M1 & _ & _ & _ & _ & _ & _ & I1).
  assert (K : classicHits1 st head1 = checkCollision head1 (Classic.snake1 st))
    by (unfold classicHits1; now rewrite M).
  rewrite K in E1. rewrite M in M1.
  destruct (classic_moveAI_returns rnd fuel s1) as (s3 & E3).
  { exact (findsFree_incl _ _ _ _ I1 SA). }
  exists s1, s3. split; [exact E1|]. split; [exact E3|].
  rewrite (classic_update_due dt rnd fuel st D), E1. cbn [bind].
  rewrite (classic_moveP2_solo rnd fuel head1 s1 _ M1). cbn [bind].
  rewrite E3. reflexivity.
Qed.

(** What ends a frame of a single-player game, if the frame ends. *)
Lemma classic_solo_gameover (dt : Q) rnd fuel st st' :
  Classic.mode st = PVC ->
  Classic.gameState st = Classic.playing ->
  Classic.update dt rnd fuel st = Done st' ->
  Classic.gameState st' = Classic.gameover <->
  (classicDue dt st /\
   exists head1,
     nextHead (Classic.snake1 st) (Classic.nextDir1 st) = Done head1 /\
     In head1 (Classic.snake1 st)).
Proof.
  intros M P H.
  destruct (classic_update_phases _ _ _ _ _ H)
    as [(Q & ->) | (D & head1 & s1 & d1 & s2 & d1' & d2 & s3
                    & H1 & H2 & H3 & ->)].
  - split.
    + cbn. rewrite P. discriminate.
    + intros (D & _). unfold classicDue in D. congruence.
  - destruct (classicStarted_fields dt st)
      as (S1 & _ & Sd & _ & Sm & Sg & _).
    destruct (classic_moveP1_cases _ _ _ _ _ _ H1) as (Hh & Ed & Ha).
    rewrite Sm, M, S1 in Ed. rewrite S1, Sd in Hh.
    assert (K1 : Classic.gameState s1 = Classic.playing /\
                 Classic.mode s1 = PVC).
    { destruct Ha as [(_ & ->) | (_ & Ha)].
      - split; congruence.
      - destruct (classic_advanceP1_frame _ _ _ _ _ Ha) as (A & B & _).
        split; congruence. }
    destruct K1 as (G1 & M1).
    destruct (classic_moveP2_cases _ _ _ _ _ _ _ _ H2)
      as [(_ & -> & -> & ->) | (M2 & _)]; [|congruence].
    destruct (classic_moveAI_frame _ _ _ _ H3) as (G3 & _).
    rewrite classic_resolveGameOver_state, orb_false_r, G3, G1.
    split.
    + intros E. split; [exact D|]. exists head1. split; [exact Hh|].
      destruct d1; [|discriminate E].
      apply checkCollision_In. symmetry. exact Ed.
    + intros (_ & h & Hh' & Hin).
      rewrite Hh in Hh'. injection Hh' as <-.
      apply checkCollision_In in Hin. rewrite Hin in Ed. rewrite Ed.
      reflexivity.
Qed.

(** X25: in [src/components/Game.tsx] Pacman never ends the round.  In a
    single-player game a frame of [update] ends the round exactly when
    the snakes move and the new head of the snake lands on a segment of
    its own body; where Pacman is, and where he steps, plays no part.
    The frame itself ends: at once when the snakes do not move yet and,
    when they move, whenever the placement loops of player 1 meet a free
    cell within the fuel and that of Pacman meets a cell off the snake
    and its new head. *)
Theorem classic_chaser_is_harmless (dt : Q) (rnd : Rand) (fuel : nat)
    (st : Classic.Game)
    (M : Classic.mode st = PVC)
    (P : Classic.gameState st = Classic.playing) :
  (Qle_bool (toDouble (Classic.moveTimer st + dt)) (Classic.moveInterval st)
   = true ->
   exists st',
     Classic.update dt rnd fuel st = Done st' /\
     Classic.gameState st' = Classic.playing) /\
  (forall head1,
      classicDue dt st ->
      nextHead (Classic.snake1 st) (Classic.nextDir1 st) = Done head1 ->
      classicSupplied1 rnd fuel st head1 ->
      findsFree (rndFoodAI rnd) fuel (head1 :: Classic.snake1 st) ->
      exists st',
        Classic.update dt rnd fuel st = Done st' /\
        (In head1 (Classic.snake1 st) ->
         Classic.gameState st' = Classic.gameover /\
         Classic.gameOverReason st' = "GAME OVER"%string) /\
        (~ In head1 (Classic.snake1 st) ->
         Classic.gameState st' = Classic.playing)) /\
  (forall st',
      Classic.update dt rnd fuel st = Done st' ->
      Classic.gameState st' = Classic.gameover <->
      (classicDue dt st /\
       exists head1,
         nextHead (Classic.snake1 st) (Classic.nextDir1 st) = Done head1 /\
         In head1 (Classic.snake1 st))).
Proof.
  split; [|split].
  - intros Q. eexists. split.
    + unfold Classic.update. cbv zeta.
      change (Classic.moveTimer (Classic.set_moveTimer ?v st)) with v.
      change (Classic.moveInterval (Classic.set_moveTimer ?v st))
        with (Classic.moveInterval st).
      rewrite Q. reflexivity.
    + exact P.
  - intros head1 D Hh S SA.
    destruct (classic_update_solo dt rnd fuel st head1 M D Hh S SA)
      as (s1 & s3 & E1 & E3 & E).
    destruct (classic_moveP1_started dt rnd fuel st head1 Hh S)
      as (s1' & E1' & G1 & M1 & _).
    assert (K : classicHits1 st head1
                = checkCollision head1 (Classic.snake1 st))
      by (unfold classicHits1; now rewrite M).
    rewrite K, E1 in E1'. injection E1' as <-.
    destruct (classic_moveAI_frame _ _ _ _ E3) as (G3 & M3 & _).
    eexists. split; [exact E|]. split.
    + intros I. apply checkCollision_In in I. rewrite I.
      unfold Classic.resolveGameOver. cbn [orb]. cbv zeta.
      change (Classic.mode (Classic.set_gameState ?v ?s))
        with (Classic.mode s).
      change (Classic.mode (Classic.playSound ?v ?s)) with (Classic.mode s).
      rewrite M3, M1, M. split; reflexivity.
    + intros I.
      destruct (checkCollision head1 (Classic.snake1 st)) eqn:C.
      * exfalso. apply I. now apply checkCollision_In.
      * rewrite classic_resolveGameOver_state. cbn [orb]. congruence.
  - intros st'. exact (classic_solo_gameover dt rnd fuel st st' M P).
Qed.

Lemma classic_chaser_is_harmless_witness :
  exists st',
    Classic.update (inject_Z 101) (dice (mkPoint 0 0) false) 3
      (classicSolo [mkPoint 7 5; mkPoint 7 6] up (mkPoint 20 5) None
         (mkPoint 6 5) 0)
    = Done st' /\
    Classic.pacman st' = Some (mkPoint 7 5) /\
    In (mkPoint 7 5) (Classic.snake1 st') /\
    Classic.gameState st' = Classic.playing.
Proof.
  destruct (classic_chaser_is_harmless (inject_Z 101)
              (dice (mkPoint 0 0) false) 3
              (classicSolo [mkPoint 7 5; mkPoint 7 6] up (mkPoint 20 5) None
                 (mkPoint 6 5) 0) eq_refl eq_refl) as (_ & T & _).
  destruct (T (mkPoint 7 4)) as (st' & E & _ & G).
  - vm_compute. reflexivity.
  - reflexivity.
  - intros _ K. vm_compute in K. discriminate K.
  - exists 0%nat. split; [lia|]. vm_compute.
    intros [K | [K | [K | []]]]; discriminate K.
  - exists st'. split; [exact E|].
    assert (Hg : Classic.gameState st' = Classic.playing).
    { apply G. vm_compute. intros [K | [K | []]]; discriminate K. }
    vm_compute in E. injection E as <-.
    split; [reflexivity|]. split; [right; left; reflexivity | exact Hg].
Defined.

(** X26: in [src/components/Game.tsx] two heads on one cell are always a
    draw.  In a two-player game, when the snakes move and their next
    heads are the same cell, the frame ends the round with the reason
    "DRAW!" and the body of player 2 is not advanced, whatever player 1
    ate on that cell.  The frame does end so whenever the placement
    loops of player 1 meet a free cell within the fuel. *)
Theorem classic_head_to_head_is_a_draw (dt : Q) (rnd : Rand) (fuel : nat)
    (st : Classic.Game) (h : Point)
    (M : Classic.mode st = PVP)
    (D : classicDue dt st)
    (H1 : nextHead (Classic.snake1 st) (Classic.nextDir1 st) = Done h)
    (H2 : nextHead (Classic.snake2 st) (Classic.nextDir2 st) = Done h)
    (S : classicSupplied1 rnd fuel st h) :
  exists st',
    Classic.update dt rnd fuel st = Done st' /\
    Classic.gameState st' = Classic.gameover /\
    Classic.gameOverReason st' = "DRAW!"%string /\
    Classic.snake2 st' = Classic.snake2 st.
Proof.
  destruct (classic_moveP1_started dt rnd fuel st h H1 S)
    as (s1 & E1 & _ & M1 & B1 & C1 & _).
  rewrite M in M1. specialize (C1 M).
  assert (E2 : Classic.moveP2 rnd fuel h s1 (classicHits1 st h)
               = Done (s1, true, true)).
  { apply classic_moveP2_both; [exact M1|]. now rewrite B1, C1. }
  exists (Classic.resolveGameOver s1 true true). split.
  - rewrite (classic_update_due dt rnd fuel st D), E1. cbn [bind].
    rewrite E2. cbn [bind].
    rewrite (classic_moveAI_duel rnd fuel s1 M1). reflexivity.
  - unfold Classic.resolveGameOver. cbn [orb andb]. cbv zeta.
    change (Classic.mode (Classic.set_gameState ?v ?s))
      with (Classic.mode s).
    change (Classic.mode (Classic.playSound ?v ?s)) with (Classic.mode s).
    rewrite M1. cbn. auto.
Qed.

Lemma classic_head_to_head_is_a_draw_witness :
  exists st',
    Classic.update (inject_Z 101) (dice (mkPoint 0 0) false) 3
      (classicDuel [mkPoint 4 5] right [mkPoint 6 5] left (mkPoint 5 5))
    = Done st' /\
    Classic.gameOverReason st' = "DRAW!"%string /\
    Classic.scores_p1 st' = 1.
Proof.
  destruct (classic_head_to_head_is_a_draw (inject_Z 101)
              (dice (mkPoint 0 0) false) 3
              (classicDuel [mkPoint 4 5] right [mkPoint 6 5] left
                 (mkPoint 5 5))
              (mkPoint 5 5) eq_refl eq_refl eq_refl eq_refl)
    as (st' & E & _ & R & _).
  - intros _ _. cbv zeta. split.
    + exists 0%nat. split; [lia|]. vm_compute.
      intros [K | [K | [K | []]]]; discriminate K.
    + intros _ K. vm_compute in K. discriminate K.
  - exists st'. split; [exact E|]. split; [exact R|].
    vm_compute in E. injection E as <-. reflexivity.
Defined.

(** X27: in [src/components/Game.tsx] a Pacman who is not frozen always
    steps.  In a single-player game, when the snakes move, the snake
    does not collect a power-up and Pacman is on the grid and not
    frozen, the frame ends with Pacman one step from where he was, on
    the cell towards the food as the move of the snake left it, whether
    or not the snake is on that cell: the food of the start of the
    frame, unless the snake ate it.  Unless he stood on that food, the
    step brings him one cell nearer to it.  The frame ends so whenever
    the placement loops of player 1 meet a free cell within the fuel and
    that of Pacman meets a cell off the snake and its new head. *)
Theorem classic_chaser_always_steps (dt : Q) (rnd : Rand) (fuel : nat)
    (st : Classic.Game) (pac head1 : Point)
    (M : Classic.mode st = PVC)
    (P : Classic.pacman st = Some pac)
    (G : onGrid pac)
    (F : Classic.pacmanFrozen st <= 0)
    (D : classicDue dt st)
    (Hh : nextHead (Classic.snake1 st) (Classic.nextDir1 st) = Done head1)
    (N : Classic.powerup st <> Some head1)
    (S : classicSupplied1 rnd fuel st head1)
    (SA : findsFree (rndFoodAI rnd) fuel (head1 :: Classic.snake1 st)) :
  exists s1 d1 st',
    Classic.moveP1 rnd fuel (classicStarted dt st) = Done (head1, s1, d1) /\
    Classic.update dt rnd fuel st = Done st' /\
    Classic.pacman st' = Some (classicStep pac (Classic.food s1)) /\
    (samePoint head1 (Classic.food st) = false
     \/ In head1 (Classic.snake1 st) ->
     Classic.food s1 = Classic.food st) /\
    stepTo pac (classicStep pac (Classic.food s1)) /\
    classicStep pac (Classic.food s1) <> pac /\
    (onGrid (Classic.food s1) -> pac <> Classic.food s1 ->
     toroidalDistance (classicStep pac (Classic.food s1)) (Classic.food s1)
     = toroidalDistance pac (Classic.food s1) - 1).
Proof.
  destruct (classic_update_solo dt rnd fuel st head1 M D Hh S SA)
    as (s1 & s3 & E1 & E3 & E).
  destruct (classic_moveP1_started dt rnd fuel st head1 Hh S)
    as (s1' & E1' & _ & M1 & _ & _ & P1 & Z1 & F1 & _).
  assert (K : classicHits1 st head1
              = checkCollision head1 (Classic.snake1 st))
    by (unfold classicHits1; now rewrite M).
  rewrite K in E1', F1. rewrite E1 in E1'. injection E1' as <-.
  rewrite M in M1. rewrite P in P1. specialize (Z1 N).
  assert (Z1' : Classic.pacmanFrozen s1 <= 0) by lia.
  pose proof (classic_moveAI_steps _ _ _ _ _ E3 M1 P1 Z1') as P3.
  exists s1, (checkCollision head1 (Classic.snake1 st)).
  eexists. split; [exact E1|]. split; [exact E|].
  split; [rewrite classic_resolveGameOver_pacman; exact P3|].
  split.
  { intros [A | A]; apply F1; [left; exact A|].
    right. now apply checkCollision_In. }
  split; [apply classicStep_stepTo|]. split.
  - destruct (classicStep_stepTo pac (Classic.food s1)) as (d & U & ->).
    now apply step_leaves_the_cell.
  - intros Gf Nf. now apply classicStep_closes_in.
Qed.

Lemma classic_chaser_always_steps_witness :
  exists st',
    Classic.update (inject_Z 101) (dice (mkPoint 0 0) false) 3
      (classicSolo [mkPoint 7 5; mkPoint 7 6] up (mkPoint 20 5) None
         (mkPoint 6 5) 0)
    = Done st' /\
    Classic.pacman st' = Some (mkPoint 7 5) /\
    In (mkPoint 7 5) (Classic.snake1 st').
Proof.
  assert (G : onGrid (mkPoint 6 5)) by (unfold onGrid; cbn; grid_lia).
  destruct (classic_chaser_always_steps (inject_Z 101)
              (dice (mkPoint 0 0) false) 3
              (classicSolo [mkPoint 7 5; mkPoint 7 6] up (mkPoint 20 5) None
                 (mkPoint 6 5) 0) (mkPoint 6 5) (mkPoint 7 4)
              eq_refl eq_refl G)
    as (s1 & d1 & st' & _ & E & Pp & Fd & _).
  - cbn. lia.
  - reflexivity.
  - reflexivity.
  - discriminate.
  - intros _ K. vm_compute in K. discriminate K.
  - exists 0%nat. split; [lia|]. vm_compute.
    intros [K | [K | [K | []]]]; discriminate K.
  - exists st'. split; [exact E|]. split.
    + rewrite Pp, Fd; [reflexivity | left; reflexivity].
    + vm_compute in E. injection E as <-. right. left. reflexivity.
Defined.
